(** * IrDA socket layer (src/irda.c): model and verification

    The module wraps the operating system's IrDA sockets.  Its functions are
    short sequences of system calls whose results decide the return value, so
    the model is a state-and-error monad over
      - the heap of allocated [struct irda] handles,
      - the caller's handle variables (the targets of [irda **out]),
      - the answers the operating system will give (a script, consumed one
        answer per system call, as a simulated OS would), and
      - the log of the calls that were issued, with their arguments.
    The two bodies selected by [#ifdef _WIN32] are kept apart by a platform
    parameter.

    The functions that use no handle ([irda_init], [irda_cleanup] and
    [irda_errmsg]) and the [TRACE] macro in full are modelled apart, in
    [Runtime]. *)

From Stdlib Require Import ZArith List Lia Bool String.
From Stdlib Require Strings.Byte.
From stdpp Require Import base option gmap.

Import ListNotations.
Local Open Scope Z_scope.

(** ** C integers *)

Module C.

Definition INT_MAX : Z := 2147483647.
Definition UINT_MAX : Z := 4294967295.

(** Conversion to [unsigned int]: reduction modulo 2^32. *)
Definition to_uint (x : Z) : Z := x mod 2 ^ 32.

(** Conversion to [int] of a value that may not fit: the value is reduced
    modulo 2^32 into the signed range (what every supported compiler
    does). *)
Definition to_int (x : Z) : Z := (x + 2 ^ 31) mod 2 ^ 32 - 2 ^ 31.

Definition is_uint (x : Z) : Prop := 0 <= x <= UINT_MAX.
Definition is_int (x : Z) : Prop := - 2 ^ 31 <= x <= INT_MAX.

End C.

(** ** Bytes *)

Abbreviation byte := Byte.byte.

Definition Z_of_byte (b : byte) : Z := Z.of_N (Byte.to_N b).

(** Conversion to [unsigned char]: the low eight bits. *)
Definition byte_of_Z (z : Z) : byte :=
  match Byte.of_N (Z.to_N (z mod 256)) with
  | Some b => b
  | None => Byte.x00
  end.

(** A four-byte array, lowest address first. *)
Definition bytes4 : Type := byte * byte * byte * byte.

(** [(b0 << 24) + (b1 << 16) + (b2 << 8) + b3] *)
Definition be32 (b : bytes4) : Z :=
  let '(b0, b1, b2, b3) := b in
  C.to_uint (Z.shiftl (Z_of_byte b0) 24 + Z.shiftl (Z_of_byte b1) 16
             + Z.shiftl (Z_of_byte b2) 8 + Z_of_byte b3).

(** [(x >> 24) & 0xFF], [(x >> 16) & 0xFF], [(x >> 8) & 0xFF], [x & 0xFF] *)
Definition be_split (x : Z) : bytes4 :=
  (byte_of_Z (Z.land (Z.shiftr x 24) 255),
   byte_of_Z (Z.land (Z.shiftr x 16) 255),
   byte_of_Z (Z.land (Z.shiftr x 8) 255),
   byte_of_Z (Z.land x 255)).

(** [(b0 << 8) + b1] *)
Definition be16 (b0 b1 : byte) : Z := Z.shiftl (Z_of_byte b0) 8 + Z_of_byte b1.

(** The byte order of the machine, which fixes how a 32-bit integer field
    lies in memory. *)
Inductive byte_order := LittleEndian | BigEndian.

Definition le_split (x : Z) : bytes4 :=
  let '(b0, b1, b2, b3) := be_split x in (b3, b2, b1, b0).

(** The four bytes in memory of an [unsigned int] field holding [x]. *)
Definition object_repr (host : byte_order) (x : Z) : bytes4 :=
  match host with
  | BigEndian => be_split x
  | LittleEndian => le_split x
  end.

(** The 32-bit integer a machine reads from four bytes in memory. *)
Definition load_u32 (host : byte_order) (b : bytes4) : Z :=
  match host with
  | BigEndian => be32 b
  | LittleEndian => let '(b0, b1, b2, b3) := b in be32 (b3, b2, b1, b0)
  end.

(** ** Platform structures

    The structure declarations come from the system headers
    ([<af_irda.h>] under [_WIN32], [<linux/irda.h>] otherwise).  A field of
    type [unsigned char] or an array of them is kept as bytes; an integer
    field is kept as its value. *)

Inductive platform := Win32 | Posix.

(** [IRDA_DEVICE_INFO] and [DEVICELIST] *)
Record IRDA_DEVICE_INFO := {
  irdaDeviceID : bytes4;
  irdaDeviceName : list byte;
  irdaDeviceHints1 : byte;
  irdaDeviceHints2 : byte;
  irdaCharSet : byte
}.

Record DEVICELIST := {
  numDevice : Z;
  Device : list IRDA_DEVICE_INFO
}.

(** [SOCKADDR_IRDA]; its device-ID field is [irdaDeviceID] in the header. *)
Record SOCKADDR_IRDA := {
  irdaAddressFamily : Z;
  peer_irdaDeviceID : bytes4;
  irdaServiceName : list byte
}.

(** [struct irda_device_info] and [struct irda_device_list] *)
Record irda_device_info := {
  saddr : Z;
  daddr : Z;
  info : list byte;
  charset : byte;
  hints : byte * byte
}.

Record irda_device_list := {
  len : Z;
  dev : list irda_device_info
}.

(** [struct sockaddr_irda]; [sir_lsap_sel] is a [__u8], [sir_addr] a
    [__u32]. *)
Record sockaddr_irda := {
  sir_family : Z;
  sir_lsap_sel : byte;
  sir_addr : Z;
  sir_name : list byte
}.

Definition device_list (p : platform) : Type :=
  match p with Win32 => DEVICELIST | Posix => irda_device_list end.

Definition sockaddr (p : platform) : Type :=
  match p with Win32 => SOCKADDR_IRDA | Posix => sockaddr_irda end.

Definition AF_IRDA (p : platform) : Z :=
  match p with Win32 => 26 | Posix => 23 end.

Definition SOCK_STREAM : Z := 1.

(** [INVALID_SOCKET] under [_WIN32], [-1] otherwise. *)
Definition INVALID_SOCKET : Z := 2 ^ 64 - 1.

Definition invalid_fd (p : platform) : Z :=
  match p with Win32 => INVALID_SOCKET | Posix => -1 end.

(** [WSAEWOULDBLOCK] under [_WIN32], [EAGAIN] otherwise. *)
Definition would_block (p : platform) : Z :=
  match p with Win32 => 10035 | Posix => 11 end.

Record timeval := { tv_sec : Z; tv_usec : Z }.

(** [struct irda] *)
Record irda := { fd : Z; timeout : Z }.

Definition loc := positive.

(** A pointer: [None] is [NULL]. *)
Abbreviation ptr := (option loc).

(** ** The operating system and the program state *)

Section Model.

Variable p : platform.

(** What a system call wrote through its output argument, if anything. *)
Inductive output :=
| Out_none
| Out_timeval (tv : timeval)
| Out_devices (d : device_list p)
| Out_int (n : Z).

(** The answer to one system call: the value returned, as the [int] that
    receives it, the last-error code afterwards ([errno],
    [WSAGetLastError ()]) and the output. *)
Record reply := { rc : Z; err : Z; out : output }.

(** The calls the module issues, with their arguments.  A buffer argument
    [data + off] is recorded by its offset [off]. *)
Inductive call :=
| Call_malloc
| Call_free (l : loc)
| Call_socket (domain type protocol : Z)
| Call_shutdown (fd how : Z)
| Call_close (fd : Z)
| Call_getsockopt_ENUMDEVICES (fd : Z)
| Call_sleep (seconds : Z)
| Call_Sleep (milliseconds : Z)
| Call_connect (fd : Z) (peer : sockaddr p)
| Call_ioctl_FIONREAD (fd : Z)
| Call_select (nfds fd : Z) (tv : option timeval)
| Call_recv (fd off len : Z)
| Call_send (fd off len : Z)
| Call_message (expr : string)
| Call_callback (address : Z) (name : list byte) (charset hints : Z).

Record state := {
  heap : gmap loc irda;
  vars : gmap loc ptr;
  last_error : Z;
  script : list reply;
  log : list call
}.

Inductive fault :=
| Blocked          (* the operating system never answers *)
| OutOfFuel
| InvalidPointer   (* access through a pointer to no live object *)
| OutOfBounds.     (* access past the end of a buffer *)

Inductive result (A : Type) :=
| Ret (a : A) (s : state)
| Fault (f : fault).
Arguments Ret {A} a s.
Arguments Fault {A} f.

Definition M (A : Type) : Type := state -> result A.

Definition ret {A} (a : A) : M A := fun s => Ret a s.

Definition bind {A B} (m : M A) (k : A -> M B) : M B :=
  fun s => match m s with
           | Ret a s' => k a s'
           | Fault f => Fault f
           end.

Definition fail {A} (f : fault) : M A := fun _ => Fault f.

Notation "x <- m ;; k" := (bind m (fun x => k))
  (at level 100, m at next level, right associativity).
Notation "m ;;; k" := (bind m (fun _ => k))
  (at level 100, right associativity).

(** Record a call that needs no answer. *)
Definition emit (c : call) : M unit :=
  fun s => Ret tt {| heap := heap s; vars := vars s; last_error := last_error s;
                     script := script s; log := log s ++ [c] |}.

(** Issue a system call: record it and take the next answer. *)
Definition syscall (c : call) : M reply :=
  fun s => match script s with
           | [] => Fault Blocked
           | r :: rest =>
               Ret r {| heap := heap s; vars := vars s; last_error := err r;
                        script := rest; log := log s ++ [c] |}
           end.

(** [device->fd], [device->timeout] *)
Definition deref (l : loc) : M irda :=
  fun s => match heap s !! l with
           | Some d => Ret d s
           | None => Fault InvalidPointer
           end.

(** [malloc (sizeof (struct irda))]: a zero answer stands for [NULL]. *)
Definition malloc : M ptr :=
  r <- syscall Call_malloc ;;
  fun s =>
    if rc r =? 0 then Ret None s
    else
      let l := fresh (dom (heap s)) in
      Ret (Some l) {| heap := <[l := {| fd := 0; timeout := 0 |}]> (heap s);
                      vars := vars s; last_error := last_error s;
                      script := script s; log := log s |}.

Definition free (l : loc) : M unit :=
  emit (Call_free l) ;;;
  fun s => match heap s !! l with
           | Some _ =>
               Ret tt {| heap := delete l (heap s); vars := vars s;
                         last_error := last_error s; script := script s;
                         log := log s |}
           | None => Fault InvalidPointer
           end.

Definition store (l : loc) (d : irda) : M unit :=
  fun s => match heap s !! l with
           | Some _ =>
               Ret tt {| heap := <[l := d]> (heap s); vars := vars s;
                         last_error := last_error s; script := script s;
                         log := log s |}
           | None => Fault InvalidPointer
           end.

(** [*out = device] *)
Definition store_var (o : loc) (v : ptr) : M unit :=
  fun s => Ret tt {| heap := heap s; vars := <[o := v]> (vars s);
                     last_error := last_error s; script := script s;
                     log := log s |}.

(** The [TRACE] macro: the message is printed and the last-error code is
    put back afterwards. *)
Definition TRACE (expr : string) : M unit := emit (Call_message expr).

(** ** The module's functions *)

(** [irda_errcode]: [WSAGetLastError ()] or [errno]. *)
Definition irda_errcode : M Z := fun s => Ret (last_error s) s.

(** [irda_socket_open (irda **out)] *)
Definition irda_socket_open (out : ptr) : M Z :=
  match out with
  | None => ret (-1)
  | Some o =>
      device <- malloc ;;
      match device with
      | None => TRACE "malloc" ;;; ret (-1)
      | Some l =>
          (* Default to blocking reads. *)
          d <- deref l ;;
          store l {| fd := fd d; timeout := -1 |} ;;;
          (* Open the socket. *)
          r <- syscall (Call_socket (AF_IRDA p) SOCK_STREAM 0) ;;
          d <- deref l ;;
          store l {| fd := rc r; timeout := timeout d |} ;;;
          d <- deref l ;;
          if fd d =? invalid_fd p then
            TRACE "socket" ;;; free l ;;; ret (-1)
          else
            store_var o (Some l) ;;; ret 0
      end
  end.

(** [irda_socket_close (irda *device)]; the descriptor is released with
    [closesocket] under [_WIN32] and with [close] otherwise. *)
Definition irda_socket_close (device : ptr) : M Z :=
  match device with
  | None => ret (-1)
  | Some l =>
      (* Terminate all send and receive operations. *)
      d <- deref l ;;
      syscall (Call_shutdown (fd d) 0) ;;;
      (* Close the socket. *)
      d <- deref l ;;
      r <- syscall (Call_close (fd d)) ;;
      if negb (rc r =? 0) then
        TRACE (match p with Win32 => "closesocket" | Posix => "close" end) ;;;
        free l ;;; ret (-1)
      else
        (* Free memory. *)
        free l ;;; ret 0
  end.

(** [irda_socket_set_timeout (irda *device, long timeout)] *)
Definition irda_socket_set_timeout (device : ptr) (timeout : Z) : M Z :=
  match device with
  | None => ret (-1)
  | Some l =>
      d <- deref l ;;
      store l {| fd := fd d; timeout := timeout |} ;;;
      ret 0
  end.

Definition DISCOVER_MAX_DEVICES : Z := 16.
Definition DISCOVER_MAX_RETRIES : Z := 4.

(** [unsigned char data[DISCOVER_BUFSIZE] = {0}] seen through [list]. *)
Definition zero_list : device_list p :=
  match p with
  | Win32 => {| numDevice := 0; Device := [] |}
  | Posix => {| len := 0; dev := [] |}
  end.

(** [list->numDevice] or [list->len] *)
Definition count : device_list p -> Z :=
  match p with
  | Win32 => numDevice
  | Posix => len
  end.

(** Entry [i] of a buffer with room for [DISCOVER_MAX_DEVICES] entries:
    the entries the system did not write are still zero. *)
Definition slot {A} (zero : A) (l : list A) (i : Z) : option A :=
  if (0 <=? i) && (i <? DISCOVER_MAX_DEVICES)
  then Some (nth (Z.to_nat i) l zero)
  else None.

Definition zero_bytes4 : bytes4 := (Byte.x00, Byte.x00, Byte.x00, Byte.x00).

Definition zero_IRDA_DEVICE_INFO : IRDA_DEVICE_INFO :=
  {| irdaDeviceID := zero_bytes4; irdaDeviceName := repeat Byte.x00 22;
     irdaDeviceHints1 := Byte.x00; irdaDeviceHints2 := Byte.x00;
     irdaCharSet := Byte.x00 |}.

Definition zero_irda_device_info : irda_device_info :=
  {| saddr := 0; daddr := 0; info := repeat Byte.x00 22;
     charset := Byte.x00; hints := (Byte.x00, Byte.x00) |}.

(** The callback invocation of the loop body for entry [i]. *)
Definition invocation : device_list p -> Z -> option call :=
  match p as q return device_list q -> Z -> option call with
  | Win32 => fun list i =>
      match slot zero_IRDA_DEVICE_INFO (Device list) i with
      | Some e =>
          let address := be32 (irdaDeviceID e) in
          let hints := be16 (irdaDeviceHints1 e) (irdaDeviceHints2 e) in
          Some (Call_callback address (irdaDeviceName e)
                  (Z_of_byte (irdaCharSet e)) hints)
      | None => None
      end
  | Posix => fun list i =>
      match slot zero_irda_device_info (dev list) i with
      | Some e =>
          let hints := be16 (fst (hints e)) (snd (hints e)) in
          Some (Call_callback (daddr e) (info e) (Z_of_byte (charset e)) hints)
      | None => None
      end
  end.

(** [for (unsigned int i = 0; i < count; ++i) callback (...)], with [k]
    iterations left. *)
Fixpoint report (k : nat) (i : Z) (list : device_list p) : M unit :=
  match k with
  | O => ret tt
  | S k' =>
      match invocation list i with
      | Some c => emit c ;;; report k' (i + 1) list
      | None => fail OutOfBounds
      end
  end.

(** The wait between two polls: [Sleep (1000)] or [sleep (1)]. *)
Definition pause : call :=
  match p with
  | Win32 => Call_Sleep 1000
  | Posix => Call_sleep 1
  end.

(** The polling loop of [irda_socket_discover], entered with [n] retries
    done and [data] in the buffer.  It yields the function's return value
    when the loop returns, and the buffer when the loop is left. *)
Fixpoint discover_poll (fuel : nat) (device : loc) (n : Z)
    (data : device_list p) : M (Z + device_list p) :=
  match fuel with
  | O => fail OutOfFuel
  | S fuel' =>
      d <- deref device ;;
      r <- syscall (Call_getsockopt_ENUMDEVICES (fd d)) ;;
      let data := match out r with Out_devices l => l | _ => data end in
      if negb (rc r =? 0) then
        e <- irda_errcode ;;
        if negb (e =? would_block p) then
          (* Error during getsockopt call. *)
          TRACE "getsockopt" ;;; ret (inl (-1))
        else if DISCOVER_MAX_RETRIES <=? n then
          ret (inl 0)
        else
          emit pause ;;;
          discover_poll fuel' device (C.to_uint (n + 1)) data
      else ret (inr data)
  end.

(** Every turn of a loop takes at least one answer from the script, so
    this many turns cannot be exceeded. *)
Definition turns (s : state) : nat := S (length (script s)).

(** [irda_socket_discover (irda *device, irda_callback_t callback,
    void *userdata)]; [callback] tells whether the function pointer is
    non-null. *)
Definition irda_socket_discover (device : ptr) (callback : bool) : M Z :=
  match device with
  | None => ret (-1)
  | Some l =>
      polled <- (fun s => discover_poll (turns s) l 0 zero_list s) ;;
      match polled with
      | inl status => ret status
      | inr list =>
          (if callback
           then report (Z.to_nat (count list)) 0 list
           else ret tt) ;;;
          ret 0
      end
  end.

(** The characters of a string, up to its terminator. *)
Fixpoint c_str (l : list byte) : list byte :=
  match l with
  | [] => []
  | b :: l' => if Byte.eqb b Byte.x00 then [] else b :: c_str l'
  end.

(** [strncpy (dst, name, n)] into a field of [n] bytes: the string up to
    its terminator, cut at [n] bytes and padded with zeros. *)
Definition strncpy (name : list byte) (n : nat) : list byte :=
  firstn n (c_str name ++ repeat Byte.x00 n).

(** [memset (dst, 0x00, n)] *)
Definition memset_zero (n : nat) : list byte := repeat Byte.x00 n.

(** The decimal digits of an [unsigned int] (at most ten), as [%u] prints
    them. *)
Definition digit (d : Z) : byte := byte_of_Z (48 + d).

Fixpoint decimal_from (fuel : nat) (n : Z) (acc : list byte) : list byte :=
  match fuel with
  | O => acc
  | S fuel' =>
      let acc' := digit (n mod 10) :: acc in
      if n / 10 =? 0 then acc' else decimal_from fuel' (n / 10) acc'
  end.

Definition decimal (n : Z) : list byte := decimal_from 10 n [].

(** [snprintf (dst, n, ...)] into a zeroed field of [n] bytes: at most
    [n - 1] characters of the text, then the terminator. *)
Definition snprintf (n : nat) (text : list byte) : list byte :=
  firstn n (firstn (n - 1) text ++ repeat Byte.x00 n).

(** The peer address of [irda_socket_connect_name]. *)
Definition peer_name (address : Z) (name : option (list byte)) : sockaddr p :=
  let service := match name with
                 | Some s => strncpy s 25
                 | None => memset_zero 25
                 end in
  match p as q return sockaddr q with
  | Win32 =>
      {| irdaAddressFamily := AF_IRDA Win32;
         peer_irdaDeviceID := be_split address;
         irdaServiceName := service |}
  | Posix =>
      {| sir_family := AF_IRDA Posix;
         sir_lsap_sel := Byte.x00;
         sir_addr := address;
         sir_name := service |}
  end.

(** The peer address of [irda_socket_connect_lsap]. *)
Definition peer_lsap (address lsap : Z) : sockaddr p :=
  match p as q return sockaddr q with
  | Win32 =>
      {| irdaAddressFamily := AF_IRDA Win32;
         peer_irdaDeviceID := be_split address;
         irdaServiceName :=
           snprintf 25 (list_byte_of_string "LSAP-SEL" ++ decimal lsap) |}
  | Posix =>
      {| sir_family := AF_IRDA Posix;
         sir_lsap_sel := byte_of_Z lsap;
         sir_addr := address;
         sir_name := memset_zero 25 |}
  end.

Definition connect_peer (l : loc) (peer : sockaddr p) : M Z :=
  d <- deref l ;;
  r <- syscall (Call_connect (fd d) peer) ;;
  if negb (rc r =? 0) then TRACE "connect" ;;; ret (-1)
  else ret 0.

(** [irda_socket_connect_name (irda *device, unsigned int address,
    const char *name)] *)
Definition irda_socket_connect_name (device : ptr) (address : Z)
    (name : option (list byte)) : M Z :=
  match device with
  | None => ret (-1)
  | Some l => connect_peer l (peer_name address name)
  end.

(** [irda_socket_connect_lsap (irda *device, unsigned int address,
    unsigned int lsap)] *)
Definition irda_socket_connect_lsap (device : ptr) (address lsap : Z) : M Z :=
  match device with
  | None => ret (-1)
  | Some l => connect_peer l (peer_lsap address lsap)
  end.

(** [irda_socket_available (irda *device)]; [bytes] is an [unsigned long]
    under [_WIN32] and an [int] otherwise. *)
Definition irda_socket_available (device : ptr) : M Z :=
  match device with
  | None => ret (-1)
  | Some l =>
      d <- deref l ;;
      r <- syscall (Call_ioctl_FIONREAD (fd d)) ;;
      let bytes := match out r with Out_int n => n | _ => 0 end in
      if negb (rc r =? 0) then
        TRACE (match p with Win32 => "ioctlsocket" | Posix => "ioctl" end) ;;;
        ret (-1)
      else
        ret (match p with Win32 => C.to_int bytes | Posix => bytes end)
  end.

(** [(device->timeout >= 0 ? &tv : NULL)] *)
Definition deadline (d : irda) (tv : timeval) : option timeval :=
  if 0 <=? timeout d then Some tv else None.

(** The timeout structure after [select]: the system may have written the
    time left into it, if it was passed at all. *)
Definition time_left (d : irda) (tv : timeval) (r : reply) : timeval :=
  match deadline d tv, out r with
  | Some _, Out_timeval tv' => tv'
  | _, _ => tv
  end.

(** The length argument of [recv] and [send], which the call converts to
    the type of the parameter: [int] under [_WIN32], [size_t] otherwise. *)
Definition length_arg (n : Z) : Z :=
  match p with
  | Win32 => C.to_int n
  | Posix => n
  end.

(** The loop of [irda_socket_read], entered with [nbytes] bytes received
    and [tv] in the timeout structure. *)
Fixpoint read_loop (fuel : nat) (device : loc) (size : Z) (tv : timeval)
    (nbytes : Z) : M Z :=
  match fuel with
  | O => fail OutOfFuel
  | S fuel' =>
      if nbytes <? size then
        d <- deref device ;;
        r <- syscall (Call_select (fd d + 1) (fd d) (deadline d tv)) ;;
        let tv := time_left d tv r in
        if rc r <? 0 then
          TRACE "select" ;;; ret (-1) (* Error during select call. *)
        else if rc r =? 0 then
          ret (C.to_int nbytes) (* Timeout. *)
        else
          d <- deref device ;;
          r <- syscall (Call_recv (fd d) nbytes
                          (length_arg (size - nbytes))) ;;
          let n := rc r in
          if n <? 0 then
            TRACE "recv" ;;; ret (-1) (* Error during recv call. *)
          else if n =? 0 then
            ret (C.to_int nbytes) (* EOF reached. *)
          else
            read_loop fuel' device size tv (C.to_uint (nbytes + n))
      else ret (C.to_int nbytes)
  end.

(** [struct timeval tv = {0}; if (device->timeout >= 0) { ... }] *)
Definition initial_tv (d : irda) : timeval :=
  if 0 <=? timeout d
  then {| tv_sec := Z.quot (timeout d) 1000;
          tv_usec := Z.rem (timeout d) 1000 * 1000 |}
  else {| tv_sec := 0; tv_usec := 0 |}.

(** [FD_SETSIZE] of [<sys/select.h>]: the number of descriptors an
    [fd_set] has a bit for. *)
Definition FD_SETSIZE : Z := 1024.

(** [FD_ZERO (&fds); FD_SET (fd, &fds)].  Under [_WIN32] an [fd_set] is a
    counted array of sockets, and the descriptor becomes the first entry of
    the emptied set.  Otherwise it is an array of [FD_SETSIZE] bits, and
    the macro sets the bit that has the number of the descriptor, wherever
    that lies. *)
Definition FD_SET (fd : Z) : M unit :=
  match p with
  | Win32 => ret tt
  | Posix =>
      if (0 <=? fd) && (fd <? FD_SETSIZE) then ret tt
      else fail OutOfBounds
  end.

(** [irda_socket_read (irda *device, void *data, unsigned int size)] *)
Definition irda_socket_read (device : ptr) (size : Z) : M Z :=
  match device with
  | None => ret (-1)
  | Some l =>
      d <- deref l ;;
      let tv := initial_tv d in
      d <- deref l ;;
      FD_SET (fd d) ;;;
      fun s => read_loop (turns s) l size tv 0 s
  end.

(** The loop of [irda_socket_write], entered with [nbytes] bytes sent. *)
Fixpoint write_loop (fuel : nat) (device : loc) (size : Z) (nbytes : Z)
    : M Z :=
  match fuel with
  | O => fail OutOfFuel
  | S fuel' =>
      if nbytes <? size then
        d <- deref device ;;
        r <- syscall (Call_send (fd d) nbytes
                        (length_arg (size - nbytes))) ;;
        let n := rc r in
        if n <? 0 then
          TRACE "send" ;;; ret (-1) (* Error during send call. *)
        else
          write_loop fuel' device size (C.to_uint (nbytes + n))
      else ret (C.to_int nbytes)
  end.

(** [irda_socket_write (irda *device, const void *data, unsigned int size)] *)
Definition irda_socket_write (device : ptr) (size : Z) : M Z :=
  match device with
  | None => ret (-1)
  | Some l => fun s => write_loop (turns s) l size 0 s
  end.

End Model.

Arguments Ret {p A} a s.
Arguments time_left {p} d tv r.
Arguments turns {p} s.
Arguments Fault {p A} f.
Arguments rc {p} r.
Arguments err {p} r.
Arguments out {p} r.
Arguments Out_none {p}.
Arguments Out_timeval {p} tv.
Arguments Out_int {p} n.
Arguments heap {p} s.
Arguments vars {p} s.
Arguments last_error {p} s.
Arguments script {p} s.
Arguments log {p} s.
Arguments Call_malloc {p}.
Arguments Call_free {p} l.
Arguments Call_socket {p} domain type protocol.
Arguments Call_shutdown {p} fd how.
Arguments Call_close {p} fd.
Arguments Call_getsockopt_ENUMDEVICES {p} fd.
Arguments Call_sleep {p} seconds.
Arguments Call_Sleep {p} milliseconds.
Arguments Call_ioctl_FIONREAD {p} fd.
Arguments Call_select {p} nfds fd tv.
Arguments Call_recv {p} fd off len.
Arguments Call_send {p} fd off len.
Arguments Call_message {p} expr.
Arguments Call_callback {p} address name charset hints.

(** ** Runs against a script *)

(** A live handle. *)
Definition valid {p} (s : state p) (l : loc) (d : irda) : Prop :=
  heap s !! l = Some d.

(** The descriptor of the handle has a place in an [fd_set]: always under
    [_WIN32], and otherwise when it is below [FD_SETSIZE]. *)
Definition fits_fd_set (p : platform) (d : irda) : Prop :=
  match p with
  | Win32 => True
  | Posix => 0 <= fd d < FD_SETSIZE
  end.

(** The state once [calls] were issued and answered, [rest] being the
    answers left and [e] the last-error code. *)
Definition after {p} (s : state p) (calls : list (call p)) (e : Z)
    (rest : list (reply p)) : state p :=
  {| heap := heap s; vars := vars s; last_error := e;
     script := rest; log := log s ++ calls |}.

(** The same, with the handle [l] released. *)
Definition released {p} (l : loc) (s : state p) : state p :=
  {| heap := delete l (heap s); vars := vars s; last_error := last_error s;
     script := script s; log := log s |}.

(** The state with [d] stored in the handle [l]. *)
Definition put {p} (l : loc) (d : irda) (s : state p) : state p :=
  {| heap := <[l := d]> (heap s); vars := vars s;
     last_error := last_error s; script := script s; log := log s |}.

(** The last-error code after the answers [rs], starting from [e]. *)
Definition errno_after {p} (e : Z) (rs : list (reply p)) : Z :=
  fold_left (fun _ r => err r) rs e.

(** The error taxonomy of the specification, and the value that reports
    each status to the caller. *)
Inductive status :=
| Success (value : Z)
| InvalidArgument
| AllocationError
| SocketError.

Definition status_value (st : status) : Z :=
  match st with
  | Success v => v
  | InvalidArgument | AllocationError | SocketError => -1
  end.

Definition returns {p A} (r : result p A) (a : A) : Prop :=
  exists s', r = Ret a s'.

(** *** Reading

    A round of the read loop is one answer to [select] and one to [recv]. *)

Definition answers {p} (rounds : list (reply p * reply p)) : list (reply p) :=
  flat_map (fun ab => [fst ab; snd ab]) rounds.

(** The bytes received over [rounds]. *)
Definition received {p} (rounds : list (reply p * reply p)) : Z :=
  fold_right (fun ab acc => rc (snd ab) + acc) 0 rounds.

(** In every round the socket was ready and data arrived ([recv] returned
    a positive [int]). *)
Definition progress {p} (rounds : list (reply p * reply p)) : Prop :=
  Forall (fun ab => 0 < rc (fst ab) /\ 0 < rc (snd ab) <= C.INT_MAX) rounds.

(** The calls of [rounds], starting with [nbytes] bytes in the buffer. *)
Fixpoint read_calls {p} (d : irda) (size : Z) (tv : timeval) (nbytes : Z)
    (rounds : list (reply p * reply p)) : list (call p) :=
  match rounds with
  | [] => []
  | ab :: rounds' =>
      Call_select (fd d + 1) (fd d) (deadline d tv)
      :: Call_recv (fd d) nbytes (length_arg p (size - nbytes))
      :: read_calls d size (time_left d tv (fst ab)) (nbytes + rc (snd ab))
           rounds'
  end.

Definition tv_after {p} (d : irda) (tv : timeval)
    (rounds : list (reply p * reply p)) : timeval :=
  fold_left (fun tv ab => time_left d tv (fst ab)) rounds tv.

(** A [select] call that was given no deadline. *)
Definition waits_without_deadline {p} (c : call p) : Prop :=
  match c with
  | Call_select _ _ tv => tv = None
  | _ => True
  end.

(** A [select] call that was given a deadline. *)
Definition waits_with_deadline {p} (c : call p) : Prop :=
  match c with
  | Call_select _ _ tv => tv <> None
  | _ => True
  end.

(** A [select] call that is given a deadline exactly when the timeout of
    the handle is not negative. *)
Definition select_as_configured {p} (d : irda) (c : call p) : Prop :=
  (timeout d < 0 -> waits_without_deadline c)
  /\ (0 <= timeout d -> waits_with_deadline c).

(** *** Writing *)

(** [send] returned an [int] that is not negative. *)
Definition accepted {p} (r : reply p) : Prop := 0 <= rc r <= C.INT_MAX.

(** The bytes the answers [sends] report as sent. *)
Definition sent {p} (sends : list (reply p)) : Z :=
  fold_right (fun r acc => rc r + acc) 0 sends.

(** The [send] calls answered by [sends], starting with [nbytes] bytes
    sent. *)
Fixpoint write_calls {p} (d : irda) (size nbytes : Z)
    (sends : list (reply p)) : list (call p) :=
  match sends with
  | [] => []
  | r :: sends' =>
      Call_send (fd d) nbytes (length_arg p (size - nbytes))
      :: write_calls d size (nbytes + rc r) sends'
  end.

(** *** Discovery *)

(** The system reports that the operation would block. *)
Definition blocked {p} (r : reply p) : Prop :=
  rc r <> 0 /\ err r = would_block p.

(** The system reports another error. *)
Definition failed {p} (r : reply p) : Prop :=
  rc r <> 0 /\ err r <> would_block p.

(** [k] polls, each followed by the wait. *)
Definition polls {p} (d : irda) (k : nat) : list (call p) :=
  concat (replicate k [Call_getsockopt_ENUMDEVICES (fd d); pause p]).

(** The buffer once the answers [rs] came in: an answer that carries a
    device list overwrites it. *)
Definition buffer_after {p} (data : device_list p) (rs : list (reply p))
    : device_list p :=
  fold_left (fun data r => match out r with
                           | Out_devices _ list => list
                           | _ => data
                           end) rs data.

(** How long a call suspends the caller, in milliseconds. *)
Definition duration_ms {p} (c : call p) : option Z :=
  match c with
  | Call_sleep seconds => Some (seconds * 1000)
  | Call_Sleep milliseconds => Some milliseconds
  | _ => None
  end.

Definition is_callback {p} (c : call p) : bool :=
  match c with
  | Call_callback _ _ _ _ => true
  | _ => false
  end.

Definition device_info (p : platform) : Type :=
  match p with Win32 => IRDA_DEVICE_INFO | Posix => irda_device_info end.

(** The entries of a device list. *)
Definition records {p} : device_list p -> list (device_info p) :=
  match p with
  | Win32 => Device
  | Posix => dev
  end.

(** The bytes of an entry as they lie in the buffer: the four of the
    device identifier, and the two hint bytes. *)
Definition raw_id (host : byte_order) {p} : device_info p -> bytes4 :=
  match p with
  | Win32 => irdaDeviceID
  | Posix => fun e => object_repr host (daddr e)
  end.

Definition raw_hints {p} : device_info p -> byte * byte :=
  match p with
  | Win32 => fun e => (irdaDeviceHints1 e, irdaDeviceHints2 e)
  | Posix => hints
  end.

Definition raw_name {p} : device_info p -> list byte :=
  match p with
  | Win32 => irdaDeviceName
  | Posix => info
  end.

Definition raw_charset {p} : device_info p -> byte :=
  match p with
  | Win32 => irdaCharSet
  | Posix => charset
  end.

(** [byte0 << 8 | byte1] *)
Definition hint_bits {p} (e : device_info p) : Z :=
  Z.lor (Z.shiftl (Z_of_byte (fst (raw_hints e))) 8)
        (Z_of_byte (snd (raw_hints e))).

(** The record of the specification: the address is put together
    big-endian from the four raw bytes on both platforms. *)
Definition claimed_record (host : byte_order) {p} (e : device_info p)
    : call p :=
  Call_callback (be32 (raw_id host e)) (raw_name e)
    (Z_of_byte (raw_charset e)) (hint_bits e).

(** The address the module reports: put together big-endian from the
    identifier bytes under [_WIN32], the [daddr] field as the system
    stored it otherwise. *)
Definition device_address {p} : device_info p -> Z :=
  match p with
  | Win32 => fun e => be32 (irdaDeviceID e)
  | Posix => daddr
  end.

(** The byte order in which the module reads and writes the bytes of a
    device identifier: big-endian under [_WIN32], that of the machine
    otherwise. *)
Definition id_order (host : byte_order) (p : platform) : byte_order :=
  match p with
  | Win32 => BigEndian
  | Posix => host
  end.

Definition discovered_record {p} (e : device_info p) : call p :=
  Call_callback (device_address e) (raw_name e)
    (Z_of_byte (raw_charset e)) (hint_bits e).

(** The system wrote [list] and its count is the number of entries, which
    fit the buffer. *)
Definition well_formed {p} (list : device_list p) : Prop :=
  count p list = Z.of_nat (length (records list))
  /\ Z.of_nat (length (records list)) <= DISCOVER_MAX_DEVICES.

(** *** Peer addresses *)

(** The device-identifier bytes of a peer address as they lie in memory. *)
Definition peer_id_bytes (host : byte_order) {p} : sockaddr p -> bytes4 :=
  match p with
  | Win32 => peer_irdaDeviceID
  | Posix => fun a => object_repr host (sir_addr a)
  end.

(** The selector field, where the structure has one. *)
Definition peer_selector {p} : sockaddr p -> option Z :=
  match p with
  | Win32 => fun _ => None
  | Posix => fun a => Some (Z_of_byte (sir_lsap_sel a))
  end.

(** The service name, as a string. *)
Definition peer_service {p} : sockaddr p -> list byte :=
  match p with
  | Win32 => fun a => c_str (irdaServiceName a)
  | Posix => fun a => c_str (sir_name a)
  end.

(** The text [LSAP-SEL<number>]. *)
Definition LSAP_SEL (lsap : Z) : list byte :=
  list_byte_of_string "LSAP-SEL" ++ decimal lsap.

(** The number a string of decimal digits denotes. *)
Definition decimal_value (digits : list byte) : Z :=
  fold_left (fun acc b => acc * 10 + (Z_of_byte b - 48)) digits 0.

(** The peer address of the specification. *)
Definition claimed_lsap_peer (host : byte_order) {p} (address lsap : Z)
    (peer : sockaddr p) : Prop :=
  peer_id_bytes host peer = be_split address
  /\ match peer_selector peer with
     | Some selector => selector = lsap
     | None => peer_service peer = LSAP_SEL lsap
     end.

(** *** Timeouts *)

(** The state with [t] as the timeout of handle [l]. *)
Definition with_timeout {p} (l : loc) (t : Z) (s : state p) : state p :=
  {| heap := alter (fun d => {| fd := fd d; timeout := t |}) l (heap s);
     vars := vars s; last_error := last_error s;
     script := script s; log := log s |}.

Definition retimed {p A} (l : loc) (t : Z) (r : result p A) : result p A :=
  match r with
  | Ret a s => Ret a (with_timeout l t s)
  | Fault f => Fault f
  end.

(** A computation that goes the same way whatever timeout a handle
    holds, and leaves that timeout as it is. *)
Definition timeout_blind {p A} (m : M p A) : Prop :=
  forall l t s, m (with_timeout l t s) = retimed l t (m s).

(** *** Sample runs *)

Definition answer {p} (n : Z) : reply p :=
  {| rc := n; err := 0; out := Out_none |}.

Definition failure {p} (e : Z) : reply p :=
  {| rc := -1; err := e; out := Out_none |}.

(** One handle at location 1, on descriptor 3. *)
Definition sample {p} (t : Z) (rs : list (reply p)) : state p :=
  {| heap := {[ 1%positive := {| fd := 3; timeout := t |} ]}; vars := ∅;
     last_error := 0; script := rs; log := [] |}.

Definition sample_name : list byte := list_byte_of_string "Aladin".

Definition sample_posix_device (address : Z) : irda_device_info :=
  {| saddr := 0; daddr := address; info := sample_name;
     charset := Byte.x00; hints := (Byte.x82, Byte.x04) |}.

Definition sample_win32_device (id : bytes4) : IRDA_DEVICE_INFO :=
  {| irdaDeviceID := id; irdaDeviceName := sample_name;
     irdaDeviceHints1 := Byte.x82; irdaDeviceHints2 := Byte.x04;
     irdaCharSet := Byte.x00 |}.

Definition found_posix (l : list irda_device_info) : reply Posix :=
  {| rc := 0; err := 0;
     out := Out_devices Posix {| len := Z.of_nat (length l); dev := l |} |}.

Definition found_win32 (l : list IRDA_DEVICE_INFO) : reply Win32 :=
  {| rc := 0; err := 0;
     out := Out_devices Win32
              {| numDevice := Z.of_nat (length l); Device := l |} |}.

(** *** Buffers and handles *)

(** A [recv] or [send] call that was given a buffer argument [data + off]
    inside a buffer of [size] bytes and, as its length, the bytes between
    that offset and the end of the buffer, converted to the type of the
    length parameter. *)
Definition transfer_at {p} (size : Z) (c : call p) : Prop :=
  match c with
  | Call_recv _ off len | Call_send _ off len =>
      0 <= off < size /\ len = length_arg p (size - off)
  | _ => True
  end.

(** A [recv] or [send] call whose buffer argument [data + off] and length
    [len] stay inside a buffer of [size] bytes, and that asks for at least
    one byte. *)
Definition within_buffer {p} (size : Z) (c : call p) : Prop :=
  match c with
  | Call_recv _ off len | Call_send _ off len =>
      0 <= off /\ 0 < len /\ off + len = size
  | _ => True
  end.

(** The service-name field of a peer address, all of its bytes. *)
Definition service_field {p} : sockaddr p -> list byte :=
  match p with
  | Win32 => irdaServiceName
  | Posix => sir_name
  end.

(** A computation that, when it returns, has left every handle and every
    handle variable of the caller as it was. *)
Definition keeps_handles {p A} (m : M p A) : Prop :=
  forall s a s', m s = Ret a s' -> heap s' = heap s /\ vars s' = vars s.

(** One handle at location 1, on the descriptor [n], with no timeout. *)
Definition sample_on {p} (n : Z) (rs : list (reply p)) : state p :=
  {| heap := {[ 1%positive := {| fd := n; timeout := -1 |} ]}; vars := ∅;
     last_error := 0; script := rs; log := [] |}.

(** The answer to a successful query that reports [n] bytes. *)
Definition count_answer {p} (n : Z) : reply p :=
  {| rc := 0; err := 0; out := Out_int n |}.

(** ** Start-up, shut-down and error messages

    [irda_init], [irda_cleanup], [irda_errmsg] and the [TRACE] macro use no
    handle.  Their model keeps the last-error code, the static buffer of
    [irda_errmsg], the answers of the system and the log of the calls.  It
    is finer than the model above in one respect: [message] and the
    functions that produce the text of an error are calls like the others,
    which may change the last-error code, so that what [TRACE] saves and
    puts back shows. *)

Module Runtime.

Inductive output :=
| Out_none
| Out_wsadata (wVersion : Z)      (* [WSADATA.wVersion] *)
| Out_chars (text : list byte).   (* the characters stored or returned *)

Record reply := { rc : Z; err : Z; out : output }.

(** A [const char *] that is not [NULL]: the static buffer of
    [irda_errmsg], or a string that belongs to the C library. *)
Inductive chars :=
| Static_buffer
| Libc_string (text : list byte).

Inductive call :=
| Call_WSAStartup (wVersionRequested : Z)
| Call_WSACleanup
| Call_FormatMessage (dwFlags dwMessageId nSize : Z)
| Call_strerror (errnum : Z)
| Call_message (expr : string) (text : option (list byte)) (code : Z).

Record state := {
  last_error : Z;
  buffer : list byte;   (* [static char buffer[256]] *)
  script : list reply;
  log : list call
}.

Inductive result (A : Type) :=
| Ret (a : A) (s : state)
| Fault (f : fault).
Arguments Ret {A} a s.
Arguments Fault {A} f.

Definition M (A : Type) : Type := state -> result A.

Definition ret {A} (a : A) : M A := fun s => Ret a s.

Definition bind {A B} (m : M A) (k : A -> M B) : M B :=
  fun s => match m s with
           | Ret a s' => k a s'
           | Fault f => Fault f
           end.

Notation "x <- m ;; k" := (bind m (fun x => k))
  (at level 100, m at next level, right associativity).
Notation "m ;;; k" := (bind m (fun _ => k))
  (at level 100, right associativity).

(** Issue a call: record it and take the next answer. *)
Definition syscall (c : call) : M reply :=
  fun s => match script s with
           | [] => Fault Blocked
           | r :: rest =>
               Ret r {| last_error := err r; buffer := buffer s;
                        script := rest; log := log s ++ [c] |}
           end.

(** [WSAGetLastError ()] or [errno] *)
Definition get_error : M Z := fun s => Ret (last_error s) s.

(** [WSASetLastError (error)] or [errno = error] *)
Definition set_error (error : Z) : M unit :=
  fun s => Ret tt {| last_error := error; buffer := buffer s;
                     script := script s; log := log s |}.

(** [buffer[i]] *)
Definition load (i : nat) : M byte :=
  fun s => match buffer s !! i with
           | Some c => Ret c s
           | None => Fault OutOfBounds
           end.

(** [buffer[i] = c] *)
Definition store (i : nat) (c : byte) : M unit :=
  fun s => match buffer s !! i with
           | Some _ =>
               Ret tt {| last_error := last_error s;
                         buffer := <[i := c]> (buffer s);
                         script := script s; log := log s |}
           | None => Fault OutOfBounds
           end.

(** The characters [text] stored at the start of a buffer, by a function
    that was told the size of the buffer and keeps to it. *)
Definition stored_in (text buffer : list byte) : list byte :=
  firstn (length buffer) (text ++ skipn (length text) buffer).

(** What [FormatMessage] stored through its buffer argument. *)
Definition take_chars (o : output) : M unit :=
  fun s => match o with
           | Out_chars text =>
               Ret tt {| last_error := last_error s;
                         buffer := stored_in text (buffer s);
                         script := script s; log := log s |}
           | _ => Ret tt s
           end.

(** ['\n'], ['\r'] and ['.'] *)
Definition trailing (c : byte) : bool :=
  Byte.eqb c Byte.x0a || Byte.eqb c Byte.x0d || Byte.eqb c Byte.x2e.

(** [while (rc > 0 && (buffer[rc-1] == '\n' || buffer[rc-1] == '\r' ||
    buffer[rc-1] == '.')) { buffer[rc-1] = '\0'; rc--; }] *)
Fixpoint strip (rc : nat) : M nat :=
  match rc with
  | O => ret O
  | S rc' =>
      c <- load rc' ;;
      if trailing c then store rc' Byte.x00 ;;; strip rc'
      else ret rc
  end.

Definition FORMAT_MESSAGE_FROM_SYSTEM : Z := 4096.
Definition FORMAT_MESSAGE_IGNORE_INSERTS : Z := 512.

(** The string a character pointer reads in a state. *)
Definition string_at (s : state) (c : chars) : list byte :=
  match c with
  | Static_buffer => c_str (buffer s)
  | Libc_string text => c_str text
  end.

(** [message ("TRACE (%s:%d, %s): %s (%d)\n", __FILE__, __LINE__, expr,
    text, code)]; the text is read when the call is made. *)
Definition message (expr : string) (text : option chars) (code : Z)
    : M unit :=
  fun s => (syscall (Call_message expr (option_map (string_at s) text) code)
            ;;; ret tt) s.

(** [strerror (errnum)] *)
Definition strerror (errnum : Z) : M (option chars) :=
  r <- syscall (Call_strerror errnum) ;;
  ret (match out r with
       | Out_chars text => Some (Libc_string text)
       | _ => None
       end).

(** The order in which the compiler evaluates the two arguments
    [strerror (errno)] and [errno] of the call in [TRACE]. *)
Inductive evaluation := Strerror_first | Errno_first.

(** [LOBYTE], [HIBYTE] and [MAKEWORD] of [<windows.h>] *)
Definition LOBYTE (w : Z) : Z := Z.land w 255.
Definition HIBYTE (w : Z) : Z := Z.land (Z.shiftr w 8) 255.
Definition MAKEWORD (a b : Z) : Z :=
  Z.lor (Z.land a 255) (Z.shiftl (Z.land b 255) 8).

Section Functions.

Variable p : platform.
Variable order : evaluation.

(** [irda_errmsg ()] *)
Definition irda_errmsg : M (option chars) :=
  match p with
  | Win32 =>
      let size := 256 in
      errcode <- get_error ;;
      r <- syscall (Call_FormatMessage
                      (Z.lor FORMAT_MESSAGE_FROM_SYSTEM
                             FORMAT_MESSAGE_IGNORE_INSERTS)
                      errcode size) ;;
      take_chars (out r) ;;;
      (* Remove certain characters at the end of the error message. *)
      rc <- strip (Z.to_nat (C.to_uint (rc r))) ;;
      if negb (Nat.eqb rc 0) then ret (Some Static_buffer)
      else ret None
  | Posix =>
      errnum <- get_error ;;
      strerror errnum
  end.

(** The [TRACE] macro *)
Definition TRACE (expr : string) : M unit :=
  match p with
  | Win32 =>
      error <- get_error ;;
      text <- irda_errmsg ;;
      message expr text error ;;;
      set_error error
  | Posix =>
      error <- get_error ;;
      match order with
      | Strerror_first =>
          errnum <- get_error ;;
          text <- strerror errnum ;;
          code <- get_error ;;
          message expr text code
      | Errno_first =>
          code <- get_error ;;
          errnum <- get_error ;;
          text <- strerror errnum ;;
          message expr text code
      end ;;;
      set_error error
  end.

(** [irda_init ()] *)
Definition irda_init : M Z :=
  match p with
  | Win32 =>
      let wVersionRequested := MAKEWORD 2 2 in
      r <- syscall (Call_WSAStartup wVersionRequested) ;;
      let wVersion := match out r with Out_wsadata v => v | _ => 0 end in
      if negb (rc r =? 0) then
        TRACE "WSAStartup" ;;; ret (-1)
      else
        (* Confirm that the WinSock DLL supports 2.2. *)
        if negb (LOBYTE wVersion =? 2) || negb (HIBYTE wVersion =? 2) then
          TRACE "wsaData.wVersion" ;;;
          syscall Call_WSACleanup ;;;
          ret (-1)
        else ret 0
  | Posix => ret 0
  end.

(** [irda_cleanup ()] *)
Definition irda_cleanup : M Z :=
  match p with
  | Win32 =>
      r <- syscall Call_WSACleanup ;;
      if negb (rc r =? 0) then
        TRACE "WSACleanup" ;;; ret (-1)
      else ret 0
  | Posix => ret 0
  end.

End Functions.

(** The state once [calls] were issued and answered. *)
Definition after (s : state) (calls : list call) (e : Z)
    (rest : list reply) : state :=
  {| last_error := e; buffer := buffer s; script := rest;
     log := log s ++ calls |}.

(** The state with [b] in the static buffer. *)
Definition holding (b : list byte) (s : state) : state :=
  {| last_error := last_error s; buffer := b; script := script s;
     log := log s |}.

(** [FormatMessage] answered as documented: it stored the message [msg]
    and its terminator in the buffer, and returned the number of characters
    of [msg]. *)
Definition formatted (msg : list byte) (r : reply) : Prop :=
  rc r = Z.of_nat (length msg)
  /\ out r = Out_chars (msg ++ [Byte.x00])
  /\ Forall (fun c => c <> Byte.x00) msg.

(** [kept] is [msg] without its trailing run of ['\n'], ['\r'] and ['.']. *)
Definition stripped (msg kept : list byte) : Prop :=
  exists removed,
    msg = kept ++ removed
    /\ Forall (fun c => trailing c = true) removed
    /\ (forall c, last kept = Some c -> trailing c = false).

(** The request [irda_errmsg] makes for the text of the error [e]. *)
Definition format_request (e : Z) : call :=
  Call_FormatMessage 4608 e 256.

(** *** Sample runs *)

Definition start (e : Z) (rs : list reply) : state :=
  {| last_error := e; buffer := repeat Byte.x00 256; script := rs;
     log := [] |}.

Definition text_answer (msg : list byte) (e : Z) : reply :=
  {| rc := Z.of_nat (length msg); err := e;
     out := Out_chars (msg ++ [Byte.x00]) |}.

Definition plain_answer (n e : Z) : reply :=
  {| rc := n; err := e; out := Out_none |}.

Definition version_answer (wVersion : Z) : reply :=
  {| rc := 0; err := 0; out := Out_wsadata wVersion |}.

End Runtime.

(** * Verification *)

(** ** Integers and bytes *)

Lemma to_uint_id x : C.is_uint x -> C.to_uint x = x.
Proof.
  unfold C.is_uint, C.UINT_MAX, C.to_uint. intros H.
  apply Z.mod_small. lia.
Qed.

Lemma to_int_id x : C.is_int x -> C.to_int x = x.
Proof.
  unfold C.is_int, C.INT_MAX, C.to_int. intros H.
  rewrite Z.mod_small by lia. lia.
Qed.

Lemma to_int_high x :
  C.INT_MAX < x <= C.UINT_MAX -> C.to_int x = x - 2 ^ 32.
Proof.
  unfold C.INT_MAX, C.UINT_MAX, C.to_int. intros H.
  replace (x + 2 ^ 31) with ((x - 2 ^ 31) + 1 * 2 ^ 32) by lia.
  rewrite Z.mod_add by lia. rewrite Z.mod_small by lia. lia.
Qed.

Lemma to_int_count x : 0 <= x <= C.INT_MAX -> C.to_int x = x.
Proof. intros H. apply to_int_id. unfold C.is_int, C.INT_MAX in *. lia. Qed.

Lemma Z_of_byte_range b : 0 <= Z_of_byte b < 256.
Proof. unfold Z_of_byte. pose proof (Byte.to_N_bounded b). lia. Qed.

Lemma Z_of_byte_of_Z z : Z_of_byte (byte_of_Z z) = z mod 256.
Proof.
  unfold Z_of_byte, byte_of_Z.
  pose proof (Z.mod_pos_bound z 256 ltac:(lia)) as Hb.
  destruct (Byte.of_N (Z.to_N (z mod 256))) as [b|] eqn:E.
  - apply Byte.to_of_N in E. rewrite E. lia.
  - apply Byte.of_N_None_iff in E. lia.
Qed.

Lemma byte_of_Z_of_byte b : byte_of_Z (Z_of_byte b) = b.
Proof.
  unfold byte_of_Z. rewrite Z.mod_small by apply Z_of_byte_range.
  unfold Z_of_byte. rewrite N2Z.id, Byte.of_to_N. reflexivity.
Qed.

Lemma land_255 x : Z.land x 255 = x mod 256.
Proof. change 255 with (Z.ones 8). by rewrite Z.land_ones. Qed.

Lemma land_shiftl_byte x y : 0 <= y < 256 -> Z.land (Z.shiftl x 8) y = 0.
Proof.
  intros Hy. apply Z.bits_inj'. intros n Hn.
  rewrite Z.land_spec, Z.bits_0.
  destruct (Z.lt_ge_cases n 8) as [Hlt|Hge].
  - by rewrite Z.shiftl_spec_low.
  - destruct (Z.eq_dec y 0) as [->|Hy0].
    + by rewrite Z.bits_0, andb_false_r.
    + rewrite (Z.bits_above_log2 y n); [by rewrite andb_false_r | lia |].
      apply Z.log2_lt_pow2; [lia|].
      assert (2 ^ 8 <= 2 ^ n) by (apply Z.pow_le_mono_r; lia). lia.
Qed.

(** The sum the code computes for the hints is the bitwise or of the
    claim. *)
Lemma be16_lor b0 b1 :
  be16 b0 b1 = Z.lor (Z.shiftl (Z_of_byte b0) 8) (Z_of_byte b1).
Proof.
  unfold be16.
  pose proof (land_shiftl_byte (Z_of_byte b0) _ (Z_of_byte_range b1)) as H.
  rewrite Z.add_nocarry_lxor by done. by apply Z.lxor_lor.
Qed.

Lemma be32_bytes b0 b1 b2 b3 :
  be32 (b0, b1, b2, b3) =
  Z_of_byte b0 * 2 ^ 24 + Z_of_byte b1 * 2 ^ 16 + Z_of_byte b2 * 2 ^ 8
  + Z_of_byte b3.
Proof.
  unfold be32. rewrite !Z.shiftl_mul_pow2 by lia.
  pose proof (Z_of_byte_range b0). pose proof (Z_of_byte_range b1).
  pose proof (Z_of_byte_range b2). pose proof (Z_of_byte_range b3).
  apply to_uint_id. unfold C.is_uint, C.UINT_MAX. lia.
Qed.

(** Splitting an address into bytes and putting them together again gives
    the address back. *)
Lemma be32_be_split x : C.is_uint x -> be32 (be_split x) = x.
Proof.
  unfold C.is_uint, C.UINT_MAX. intros Hx.
  unfold be_split. rewrite be32_bytes, !Z_of_byte_of_Z, !land_255.
  rewrite !Z.mod_mod by lia.
  rewrite !Z.shiftr_div_pow2 by lia.
  change (2 ^ 24) with 16777216. change (2 ^ 16) with 65536.
  change (2 ^ 8) with 256.
  Z.to_euclidean_division_equations. lia.
Qed.

(** Putting four bytes together and splitting the result gives the bytes
    back. *)
Lemma be_split_be32 b : be_split (be32 b) = b.
Proof.
  destruct b as [[[b0 b1] b2] b3]. rewrite be32_bytes. unfold be_split.
  pose proof (Z_of_byte_range b0). pose proof (Z_of_byte_range b1).
  pose proof (Z_of_byte_range b2). pose proof (Z_of_byte_range b3).
  rewrite !land_255, !Z.shiftr_div_pow2 by lia.
  change (2 ^ 24) with 16777216. change (2 ^ 16) with 65536.
  change (2 ^ 8) with 256.
  set (x := Z_of_byte b0 * 16777216 + Z_of_byte b1 * 65536
            + Z_of_byte b2 * 256 + Z_of_byte b3).
  replace ((x / 16777216) mod 256) with (Z_of_byte b0)
    by (subst x; Z.to_euclidean_division_equations; lia).
  replace ((x / 65536) mod 256) with (Z_of_byte b1)
    by (subst x; Z.to_euclidean_division_equations; lia).
  replace ((x / 256) mod 256) with (Z_of_byte b2)
    by (subst x; Z.to_euclidean_division_equations; lia).
  replace (x mod 256) with (Z_of_byte b3)
    by (subst x; Z.to_euclidean_division_equations; lia).
  by rewrite !byte_of_Z_of_byte.
Qed.

Lemma load_u32_object_repr host x :
  C.is_uint x -> load_u32 host (object_repr host x) = x.
Proof.
  intros Hx. destruct host; cbn [load_u32 object_repr].
  - unfold le_split. destruct (be_split x) as [[[b0 b1] b2] b3] eqn:E.
    rewrite <- E. by apply be32_be_split.
  - by apply be32_be_split.
Qed.

(** ** The monad *)

Section Verification.
Variable p : platform.
Implicit Types (s : state p) (l : loc) (d : irda) (r : reply p).

Lemma after_nil s : after s [] (last_error s) (script s) = s.
Proof. destruct s. unfold after. simpl. by rewrite app_nil_r. Qed.

Lemma after_after s c1 e1 rest1 c2 e2 rest2 :
  after (after s c1 e1 rest1) c2 e2 rest2 = after s (c1 ++ c2) e2 rest2.
Proof. unfold after. simpl. by rewrite app_assoc. Qed.

Lemma valid_after s c e rest l d : valid s l d -> valid (after s c e rest) l d.
Proof. done. Qed.

Lemma deref_valid s l d : valid s l d -> deref p l s = Ret d s.
Proof. unfold valid, deref. by intros ->. Qed.

Lemma syscall_after s c r rest :
  script s = r :: rest -> syscall p c s = Ret r (after s [c] (err r) rest).
Proof. unfold syscall. by intros ->. Qed.

Lemma emit_after s c :
  emit p c s = Ret tt (after s [c] (last_error s) (script s)).
Proof. done. Qed.

Lemma bind_Ret {A B} (m : M p A) (k : A -> M p B) s a s' :
  m s = Ret a s' -> bind p m k s = k a s'.
Proof. unfold bind. by intros ->. Qed.

Lemma bind_Fault {A B} (m : M p A) (k : A -> M p B) s f :
  m s = Fault f -> bind p m k s = Fault f.
Proof. unfold bind. by intros ->. Qed.

(** A length that an [int] can hold reaches [recv] and [send] as it is. *)
Lemma length_arg_id n : 0 <= n <= C.INT_MAX -> length_arg p n = n.
Proof.
  intros Hn. unfold length_arg. destruct p; [by apply to_int_count|done].
Qed.

(** One step of a run: the next operation reads a live handle (in the
    state the run started from, or after some calls), issues a system call
    that the script answers, or prints a message. *)
Ltac run_deref Hv :=
  let H := fresh in
  pose proof (deref_valid _ _ _ Hv) as H;
  rewrite (bind_Ret _ _ _ _ _ H); clear H.

Ltac run_deref_after Hv :=
  match goal with
  | |- context [bind _ (deref _ _) _ (after ?s ?c ?e ?rest)] =>
      let H := fresh in
      pose proof (deref_valid _ _ _ (valid_after s c e rest _ _ Hv)) as H;
      rewrite (bind_Ret _ _ _ _ _ H); clear H
  end.

Ltac run_syscall Hscript :=
  let H := fresh in
  pose proof (fun c => syscall_after _ c _ _ Hscript) as H;
  rewrite (bind_Ret _ _ _ _ _ (H _)); clear H.

Ltac run_next_syscall :=
  erewrite bind_Ret by (apply syscall_after; reflexivity).

Ltac run_TRACE :=
  unfold TRACE; rewrite (bind_Ret _ _ _ _ _ (emit_after _ _)).

(** ** Reading *)

Lemma read_loop_full fuel l size tv nbytes s :
  size <= nbytes ->
  read_loop p (S fuel) l size tv nbytes s = Ret (C.to_int nbytes) s.
Proof. intros H. simpl. destruct (Z.ltb_spec nbytes size); [lia | done]. Qed.

Lemma read_loop_rounds l d size rest rounds :
  forall fuel tv nbytes s,
  valid s l d -> progress rounds ->
  0 <= nbytes -> nbytes + received rounds <= size <= C.UINT_MAX ->
  script s = answers rounds ++ rest ->
  (length rounds <= fuel)%nat ->
  read_loop p fuel l size tv nbytes s =
  read_loop p (fuel - length rounds) l size (tv_after d tv rounds)
    (nbytes + received rounds)
    (after s (read_calls d size tv nbytes rounds)
       (errno_after (last_error s) (answers rounds)) rest).
Proof.
  induction rounds as [|[a b] rounds IH];
    intros fuel tv nbytes s Hv Hp Hn Hs Hscript Hfuel.
  - simpl in *. subst rest. rewrite after_nil, Z.add_0_r, Nat.sub_0_r. done.
  - inversion Hp as [|? ? [Ha Hb] Hp']; subst. simpl in *.
    destruct fuel as [|fuel]; [lia|].
    assert (0 <= received rounds).
    { clear -Hp'. induction Hp'; simpl; [lia|]. lia. }
    cbn [read_loop].
    destruct (Z.ltb_spec nbytes size); [|lia].
    run_deref Hv.
    run_syscall Hscript.
    destruct (Z.ltb_spec (rc a) 0); [lia|].
    destruct (Z.eqb_spec (rc a) 0); [lia|].
    run_deref_after Hv.
    run_next_syscall.
    cbv zeta.
    destruct (Z.ltb_spec (rc b) 0); [lia|].
    destruct (Z.eqb_spec (rc b) 0); [lia|].
    rewrite after_after.
    rewrite to_uint_id by (unfold C.is_uint; lia).
    rewrite IH; try done; try lia.
    rewrite after_after. simpl. by rewrite Z.add_assoc.
Qed.

Lemma received_nonneg (rounds : list (reply p * reply p)) :
  progress rounds -> 0 <= received rounds.
Proof. induction 1 as [|ab ? [? ?]]; simpl; lia. Qed.

Lemma length_answers (rounds : list (reply p * reply p)) :
  length (answers rounds) = (2 * length rounds)%nat.
Proof. induction rounds; simpl; lia. Qed.

(** The read loop at its last turn. *)
Lemma read_loop_select_failed fuel l d size tv nbytes s r rest :
  valid s l d -> nbytes < size -> script s = r :: rest -> rc r < 0 ->
  read_loop p (S fuel) l size tv nbytes s =
  Ret (-1) (after s [Call_select (fd d + 1) (fd d) (deadline d tv);
                     Call_message "select"] (err r) rest).
Proof.
  intros Hv Hn Hs Hr. cbn [read_loop].
  destruct (Z.ltb_spec nbytes size); [|lia].
  run_deref Hv.
  run_syscall Hs.
  destruct (Z.ltb_spec (rc r) 0); [|lia].
  run_TRACE.
  by rewrite after_after.
Qed.

Lemma read_loop_timed_out fuel l d size tv nbytes s r rest :
  valid s l d -> nbytes < size -> script s = r :: rest -> rc r = 0 ->
  read_loop p (S fuel) l size tv nbytes s =
  Ret (C.to_int nbytes)
      (after s [Call_select (fd d + 1) (fd d) (deadline d tv)] (err r) rest).
Proof.
  intros Hv Hn Hs Hr. cbn [read_loop].
  destruct (Z.ltb_spec nbytes size); [|lia].
  run_deref Hv.
  run_syscall Hs.
  rewrite Hr. done.
Qed.

Lemma read_loop_recv_failed fuel l d size tv nbytes s r r' rest :
  valid s l d -> nbytes < size -> script s = r :: r' :: rest ->
  0 < rc r -> rc r' < 0 ->
  read_loop p (S fuel) l size tv nbytes s =
  Ret (-1) (after s [Call_select (fd d + 1) (fd d) (deadline d tv);
                     Call_recv (fd d) nbytes (length_arg p (size - nbytes));
                     Call_message "recv"] (err r') rest).
Proof.
  intros Hv Hn Hs Hr Hr'. cbn [read_loop].
  destruct (Z.ltb_spec nbytes size); [|lia].
  run_deref Hv.
  run_syscall Hs.
  destruct (Z.ltb_spec (rc r) 0); [lia|].
  destruct (Z.eqb_spec (rc r) 0); [lia|].
  run_deref_after Hv.
  run_next_syscall.
  cbv zeta. destruct (Z.ltb_spec (rc r') 0); [|lia].
  run_TRACE.
  by rewrite !after_after.
Qed.

Lemma read_loop_eof fuel l d size tv nbytes s r r' rest :
  valid s l d -> nbytes < size -> script s = r :: r' :: rest ->
  0 < rc r -> rc r' = 0 ->
  read_loop p (S fuel) l size tv nbytes s =
  Ret (C.to_int nbytes)
      (after s [Call_select (fd d + 1) (fd d) (deadline d tv);
                Call_recv (fd d) nbytes (length_arg p (size - nbytes))]
         (err r') rest).
Proof.
  intros Hv Hn Hs Hr Hr'. cbn [read_loop].
  destruct (Z.ltb_spec nbytes size); [|lia].
  run_deref Hv.
  run_syscall Hs.
  destruct (Z.ltb_spec (rc r) 0); [lia|].
  destruct (Z.eqb_spec (rc r) 0); [lia|].
  run_deref_after Hv.
  run_next_syscall.
  cbv zeta. rewrite Hr'. simpl. by rewrite after_after.
Qed.

Lemma FD_SET_fits d s : fits_fd_set p d -> FD_SET p (fd d) s = Ret tt s.
Proof.
  unfold fits_fd_set, FD_SET. destruct p; [done|]. intros Hfd.
  destruct (Z.leb_spec 0 (fd d)); [|lia].
  by destruct (Z.ltb_spec (fd d) FD_SETSIZE); [|lia].
Qed.

(** The bit of a descriptor that has no place in the set lies outside
    it. *)
Lemma FD_SET_overflow d s :
  ~ fits_fd_set p d -> FD_SET p (fd d) s = Fault OutOfBounds.
Proof.
  unfold fits_fd_set, FD_SET. destruct p; [done|]. intros Hfd.
  destruct (Z.leb_spec 0 (fd d)); [|done].
  by destruct (Z.ltb_spec (fd d) FD_SETSIZE); [lia|].
Qed.

Lemma irda_socket_read_valid l d size s :
  valid s l d -> fits_fd_set p d ->
  irda_socket_read p (Some l) size s =
  read_loop p (turns s) l size (initial_tv d) 0 s.
Proof.
  intros Hv Hfd. unfold irda_socket_read.
  run_deref Hv.
  run_deref Hv.
  by rewrite (bind_Ret _ _ _ _ _ (FD_SET_fits _ _ Hfd)).
Qed.

Lemma fits_fd_set_dec d : fits_fd_set p d \/ ~ fits_fd_set p d.
Proof. unfold fits_fd_set. destruct p; [by left | lia]. Qed.

(** A read on a live handle that returns has found a place for the
    descriptor. *)
Lemma irda_socket_read_returns l d size s v s' :
  valid s l d -> irda_socket_read p (Some l) size s = Ret v s' ->
  fits_fd_set p d
  /\ read_loop p (turns s) l size (initial_tv d) 0 s = Ret v s'.
Proof.
  intros Hv Hrun.
  destruct (fits_fd_set_dec d) as [Hfd|Hfd].
  - split; [done|]. by rewrite <- (irda_socket_read_valid _ _ _ _ Hv Hfd).
  - unfold irda_socket_read in Hrun.
    rewrite !(bind_Ret _ _ _ _ _ (deref_valid _ _ _ Hv)) in Hrun.
    by rewrite (bind_Fault _ _ _ _ (FD_SET_overflow _ _ Hfd)) in Hrun.
Qed.

(** A read on a live handle whose descriptor has no place in the set. *)
Lemma irda_socket_read_overflow l d size s :
  valid s l d -> ~ fits_fd_set p d ->
  irda_socket_read p (Some l) size s = Fault OutOfBounds.
Proof.
  intros Hv Hfd. unfold irda_socket_read.
  rewrite !(bind_Ret _ _ _ _ _ (deref_valid _ _ _ Hv)).
  by rewrite (bind_Fault _ _ _ _ (FD_SET_overflow _ _ Hfd)).
Qed.

(** The read function after the rounds [rounds], all of which delivered
    data without filling the buffer. *)
Lemma irda_socket_read_rounds l d size rounds stop rest s :
  valid s l d -> fits_fd_set p d -> progress rounds ->
  received rounds <= size <= C.UINT_MAX ->
  script s = answers rounds ++ stop ++ rest ->
  exists fuel,
    irda_socket_read p (Some l) size s =
    read_loop p (S fuel) l size (tv_after d (initial_tv d) rounds)
      (received rounds)
      (after s (read_calls d size (initial_tv d) 0 rounds)
         (errno_after (last_error s) (answers rounds)) (stop ++ rest)).
Proof.
  intros Hv Hfd Hp Hs Hscript.
  exists (length (script s) - length rounds)%nat.
  rewrite (irda_socket_read_valid _ _ _ _ Hv Hfd).
  rewrite (read_loop_rounds l d size (stop ++ rest) rounds); try done.
  - unfold turns. f_equal.
    rewrite Hscript, length_app, length_answers. lia.
  - unfold turns. rewrite Hscript, length_app, length_answers. lia.
Qed.

(** X17.  On a handle whose descriptor has a place in the [fd_set], a read
    of at most [INT_MAX] bytes runs through the rounds in which data
    arrives and stops at the first of: the buffer is full, the wait fails,
    the wait times out, the receive fails, the receive returns zero.  A
    failed wait or receive gives -1 whatever was received before; the other
    three give the number of bytes received. *)
Theorem irda_socket_read_outcome l d size rounds rest s :
  valid s l d -> fits_fd_set p d -> 0 <= size <= C.INT_MAX ->
  progress rounds -> received rounds <= size ->
  let got := received rounds in
  let calls := read_calls d size (initial_tv d) 0 rounds in
  let tv := tv_after d (initial_tv d) rounds in
  let wait := Call_select (fd d + 1) (fd d) (deadline d tv) in
  let receive := Call_recv (fd d) got (size - got) in
  (got = size -> script s = answers rounds ++ rest ->
   irda_socket_read p (Some l) size s =
   Ret got (after s calls (errno_after (last_error s) (answers rounds)) rest))
  /\ (forall r, got < size -> rc r < 0 ->
      script s = answers rounds ++ r :: rest ->
      irda_socket_read p (Some l) size s =
      Ret (status_value SocketError)
          (after s (calls ++ [wait; Call_message "select"]) (err r) rest))
  /\ (forall r, got < size -> rc r = 0 ->
      script s = answers rounds ++ r :: rest ->
      irda_socket_read p (Some l) size s =
      Ret got (after s (calls ++ [wait]) (err r) rest))
  /\ (forall r r', got < size -> 0 < rc r -> rc r' < 0 ->
      script s = answers rounds ++ r :: r' :: rest ->
      irda_socket_read p (Some l) size s =
      Ret (status_value SocketError)
          (after s (calls ++ [wait; receive; Call_message "recv"])
             (err r') rest))
  /\ (forall r r', got < size -> 0 < rc r -> rc r' = 0 ->
      script s = answers rounds ++ r :: r' :: rest ->
      irda_socket_read p (Some l) size s =
      Ret got (after s (calls ++ [wait; receive]) (err r') rest)).
Proof.
  intros Hv Hfd Hsize Hp Hgot got calls tv wait receive.
  pose proof (received_nonneg _ Hp) as Hnn.
  assert (Hint : C.to_int got = got) by (apply to_int_count; fold got; lia).
  assert (Hlen : length_arg p (size - got) = size - got)
    by (apply length_arg_id; fold got; lia).
  unfold C.INT_MAX in Hsize.
  repeat split.
  - intros Hfull Hscript.
    destruct (irda_socket_read_rounds l d size rounds [] rest s) as [fuel ->];
      [done | done | done | unfold C.UINT_MAX; lia | done |].
    rewrite <- Hint at 1. by apply read_loop_full; fold got; lia.
  - intros r Hlt Hr Hscript.
    destruct (irda_socket_read_rounds l d size rounds [r] rest s) as [fuel ->];
      [done | done | done | unfold C.UINT_MAX; lia | done |].
    erewrite read_loop_select_failed; [|done|done|reflexivity|done].
    by rewrite after_after.
  - intros r Hlt Hr Hscript.
    destruct (irda_socket_read_rounds l d size rounds [r] rest s) as [fuel ->];
      [done | done | done | unfold C.UINT_MAX; lia | done |].
    erewrite read_loop_timed_out; [|done|done|reflexivity|done].
    fold got. by rewrite Hint, after_after.
  - intros r r' Hlt Hr Hr' Hscript.
    destruct (irda_socket_read_rounds l d size rounds [r; r'] rest s)
      as [fuel ->]; [done | done | done | unfold C.UINT_MAX; lia | done |].
    erewrite read_loop_recv_failed; [|done|done|reflexivity|done|done].
    fold got. by rewrite Hlen, after_after.
  - intros r r' Hlt Hr Hr' Hscript.
    destruct (irda_socket_read_rounds l d size rounds [r; r'] rest s)
      as [fuel ->]; [done | done | done | unfold C.UINT_MAX; lia | done |].
    erewrite read_loop_eof; [|done|done|reflexivity|done|done].
    fold got. by rewrite Hint, Hlen, after_after.
Qed.

(** ** Writing *)

Lemma sent_nonneg (sends : list (reply p)) :
  Forall accepted sends -> 0 <= sent sends.
Proof. induction 1 as [|r ? [? ?]]; simpl; lia. Qed.

Lemma write_loop_sends l d size rest sends :
  forall fuel nbytes s,
  valid s l d -> Forall accepted sends ->
  0 <= nbytes -> nbytes + sent sends < size <= C.UINT_MAX ->
  script s = sends ++ rest ->
  (length sends <= fuel)%nat ->
  write_loop p fuel l size nbytes s =
  write_loop p (fuel - length sends) l size (nbytes + sent sends)
    (after s (write_calls d size nbytes sends)
       (errno_after (last_error s) sends) rest).
Proof.
  induction sends as [|a sends IH];
    intros fuel nbytes s Hv Hp Hn Hs Hscript Hfuel.
  - simpl in *. subst rest. by rewrite after_nil, Z.add_0_r, Nat.sub_0_r.
  - inversion Hp as [|? ? [Ha Ha'] Hp']; subst. simpl in *.
    destruct fuel as [|fuel]; [lia|].
    pose proof (sent_nonneg _ Hp').
    cbn [write_loop].
    destruct (Z.ltb_spec nbytes size); [|lia].
    run_deref Hv.
    run_syscall Hscript.
    cbv zeta. destruct (Z.ltb_spec (rc a) 0); [lia|].
    rewrite to_uint_id by (unfold C.is_uint; lia).
    rewrite IH; try done; try lia.
    rewrite after_after. simpl. by rewrite Z.add_assoc.
Qed.

Lemma write_loop_failed fuel l d size nbytes s r rest :
  valid s l d -> nbytes < size -> script s = r :: rest -> rc r < 0 ->
  write_loop p (S fuel) l size nbytes s =
  Ret (-1) (after s [Call_send (fd d) nbytes (length_arg p (size - nbytes));
                     Call_message "send"] (err r) rest).
Proof.
  intros Hv Hn Hs Hr. cbn [write_loop].
  destruct (Z.ltb_spec nbytes size); [|lia].
  run_deref Hv.
  run_syscall Hs.
  cbv zeta. destruct (Z.ltb_spec (rc r) 0); [|lia].
  run_TRACE.
  by rewrite after_after.
Qed.

Lemma write_loop_complete fuel l d size nbytes s r rest :
  valid s l d -> 0 <= nbytes < size -> size <= C.UINT_MAX ->
  script s = r :: rest -> 0 <= rc r -> nbytes + rc r = size ->
  write_loop p (S (S fuel)) l size nbytes s =
  Ret (C.to_int size)
      (after s [Call_send (fd d) nbytes (length_arg p (size - nbytes))]
         (err r) rest).
Proof.
  intros Hv Hn Hsize Hs Hr Hsum. cbn [write_loop].
  destruct (Z.ltb_spec nbytes size); [|lia].
  run_deref Hv.
  run_syscall Hs.
  cbv zeta. destruct (Z.ltb_spec (rc r) 0); [lia|].
  rewrite to_uint_id by (unfold C.is_uint; lia).
  rewrite Hsum. destruct (Z.ltb_spec size size); [lia|]. done.
Qed.

(** The write function after the answers [sends], none of which completed
    the buffer. *)
Lemma irda_socket_write_sends l d size sends r rest s :
  valid s l d -> Forall accepted sends ->
  sent sends < size <= C.UINT_MAX ->
  script s = sends ++ r :: rest ->
  exists fuel,
    irda_socket_write p (Some l) size s =
    write_loop p (S (S fuel)) l size (sent sends)
      (after s (write_calls d size 0 sends)
         (errno_after (last_error s) sends) (r :: rest)).
Proof.
  intros Hv Hp Hs Hscript.
  exists (length rest).
  unfold irda_socket_write.
  rewrite (write_loop_sends l d size (r :: rest) sends); try done.
  - unfold turns. f_equal.
    rewrite Hscript, length_app. simpl. lia.
  - unfold turns. rewrite Hscript, length_app. lia.
Qed.

Lemma write_calls_app (d : irda) size nbytes (sends sends' : list (reply p)) :
  write_calls d size nbytes (sends ++ sends') =
  write_calls d size nbytes sends
  ++ write_calls d size (nbytes + sent sends) sends'.
Proof.
  revert nbytes. induction sends as [|a sends IH]; intros nbytes; simpl.
  - by rewrite Z.add_0_r.
  - by rewrite IH, Z.add_assoc.
Qed.

(** X18.  A write of at most [INT_MAX] bytes issues [send] calls, each for
    the bytes that are left, until the bytes reported as sent add up to the
    size of the buffer, and then returns that size; when a [send] fails, it
    returns -1 whatever was sent before. *)
Theorem irda_socket_write_outcome l d size sends r rest s :
  valid s l d -> 0 <= size <= C.INT_MAX ->
  Forall accepted sends -> sent sends < size ->
  script s = sends ++ r :: rest ->
  let calls := write_calls d size 0 (sends ++ [r]) in
  (accepted r -> sent sends + rc r = size ->
   irda_socket_write p (Some l) size s = Ret size (after s calls (err r) rest))
  /\ (rc r < 0 ->
      irda_socket_write p (Some l) size s =
      Ret (status_value SocketError)
          (after s (calls ++ [Call_message "send"]) (err r) rest)).
Proof.
  intros Hv Hsize Hp Hlt Hscript calls.
  pose proof (sent_nonneg _ Hp) as Hnn.
  assert (Hint : C.to_int size = size) by (by apply to_int_count).
  unfold C.INT_MAX in Hsize.
  destruct (irda_socket_write_sends l d size sends r rest s) as [fuel Hrun];
    [done | done | unfold C.UINT_MAX; lia | done |].
  unfold calls. rewrite write_calls_app, Z.add_0_l. cbn [write_calls].
  split.
  - intros [Hr _] Hsum. rewrite Hrun.
    erewrite write_loop_complete;
      [|done|lia|unfold C.UINT_MAX; lia|reflexivity|done|done].
    by rewrite Hint, after_after.
  - intros Hr. rewrite Hrun.
    erewrite write_loop_failed; [|done|lia|reflexivity|done].
    rewrite after_after. by rewrite <- app_assoc.
Qed.

(** ** Null handles and empty transfers *)

(** C5.  Called with a null handle, every operation returns -1 and leaves
    the state as it was: no call was issued and no answer taken.  So does
    [irda_socket_open] given a null output slot. *)
Theorem null_handle_invalid_argument s (timeout address lsap size : Z)
    (name : option (list byte)) (callback : bool) :
  irda_socket_open p None s = Ret (status_value InvalidArgument) s
  /\ irda_socket_close p None s = Ret (status_value InvalidArgument) s
  /\ irda_socket_set_timeout p None timeout s
     = Ret (status_value InvalidArgument) s
  /\ irda_socket_discover p None callback s
     = Ret (status_value InvalidArgument) s
  /\ irda_socket_connect_name p None address name s
     = Ret (status_value InvalidArgument) s
  /\ irda_socket_connect_lsap p None address lsap s
     = Ret (status_value InvalidArgument) s
  /\ irda_socket_available p None s = Ret (status_value InvalidArgument) s
  /\ irda_socket_read p None size s = Ret (status_value InvalidArgument) s
  /\ irda_socket_write p None size s = Ret (status_value InvalidArgument) s.
Proof. repeat split. Qed.

(** X19.  With a size of zero, a write on a live handle returns 0 and
    leaves the state as it was, and so does a read on a live handle whose
    descriptor has a place in the [fd_set]: no [select], [recv] or [send]
    was issued. *)
Theorem zero_size_transfer l d s :
  valid s l d ->
  irda_socket_write p (Some l) 0 s = Ret 0 s
  /\ (fits_fd_set p d -> irda_socket_read p (Some l) 0 s = Ret 0 s).
Proof.
  intros Hv. split.
  - reflexivity.
  - intros Hfd. rewrite (irda_socket_read_valid _ _ _ _ Hv Hfd).
    by apply read_loop_full.
Qed.

(** ** Closing *)

Lemma free_valid s l d :
  valid s l d ->
  free p l s
  = Ret tt (released l (after s [Call_free l] (last_error s) (script s))).
Proof.
  intros Hv. unfold free.
  rewrite (bind_Ret _ _ _ _ _ (emit_after _ _)).
  unfold valid in Hv. simpl. by rewrite Hv.
Qed.

Lemma released_after l s calls e rest :
  after (released l s) calls e rest = released l (after s calls e rest).
Proof. done. Qed.

(** Closing a live handle. *)
Lemma irda_socket_close_outcome l d s r_shutdown r_close rest :
  valid s l d -> script s = r_shutdown :: r_close :: rest ->
  irda_socket_close p (Some l) s
  = Ret (if rc r_close =? 0 then 0 else -1)
        (released l
           (after s ([Call_shutdown (fd d) 0; Call_close (fd d)]
                     ++ (if rc r_close =? 0 then []
                         else [Call_message
                                 (match p with
                                  | Win32 => "closesocket"
                                  | Posix => "close"
                                  end)])
                     ++ [Call_free l])
              (err r_close) rest)).
Proof.
  intros Hv Hscript. unfold irda_socket_close.
  run_deref Hv.
  run_syscall Hscript.
  run_deref_after Hv.
  run_next_syscall.
  rewrite after_after.
  destruct (Z.eqb_spec (rc r_close) 0); cbn [negb].
  - erewrite bind_Ret by (by eapply free_valid, valid_after).
    by rewrite after_after.
  - run_TRACE.
    rewrite after_after.
    erewrite bind_Ret by (by eapply free_valid, valid_after).
    rewrite after_after. by rewrite <- !app_assoc.
Qed.

(** C6.  Closing a live handle always frees it: the result is -1 when the
    release of the descriptor fails and 0 when it succeeds, and in both
    cases the handle is gone from the heap afterwards.  The answer to
    [shutdown] has no influence. *)
Theorem irda_socket_close_releases l d s r_shutdown r_close rest :
  valid s l d -> script s = r_shutdown :: r_close :: rest ->
  let trace := if rc r_close =? 0 then []
               else [Call_message
                       (match p with
                        | Win32 => "closesocket"
                        | Posix => "close"
                        end)] in
  let s' := released l
              (after s ([Call_shutdown (fd d) 0; Call_close (fd d)]
                        ++ trace ++ [Call_free l])
                 (err r_close) rest) in
  irda_socket_close p (Some l) s
  = Ret (if rc r_close =? 0 then 0 else status_value SocketError) s'
  /\ heap s' !! l = None
  /\ (forall l', l' <> l -> heap s' !! l' = heap s !! l').
Proof.
  intros Hv Hscript trace s'. split; [|split].
  - by eapply irda_socket_close_outcome.
  - subst s'. simpl. apply lookup_delete_eq.
  - intros l' Hne. subst s'. simpl. by apply lookup_delete_ne.
Qed.

(** ** Discovery *)

Lemma polls_S d k :
  polls (p:=p) d (S k) =
  Call_getsockopt_ENUMDEVICES (fd d) :: pause p :: polls d k.
Proof. reflexivity. Qed.

Lemma discover_poll_blocked l d rest waiting :
  forall fuel n data s,
  valid s l d -> Forall blocked waiting ->
  0 <= n -> n + Z.of_nat (length waiting) <= DISCOVER_MAX_RETRIES ->
  script s = waiting ++ rest ->
  (length waiting <= fuel)%nat ->
  discover_poll p fuel l n data s =
  discover_poll p (fuel - length waiting) l (n + Z.of_nat (length waiting))
    (buffer_after data waiting)
    (after s (polls d (length waiting))
       (errno_after (last_error s) waiting) rest).
Proof.
  induction waiting as [|a waiting IH];
    intros fuel n data s Hv Hb Hn Hmax Hscript Hfuel.
  - simpl in *. subst rest. by rewrite after_nil, Z.add_0_r, Nat.sub_0_r.
  - inversion Hb as [|? ? [Ha Ha'] Hb']; subst.
    unfold DISCOVER_MAX_RETRIES in Hmax. simpl length in *.
    rewrite <- app_comm_cons in Hscript.
    destruct fuel as [|fuel]; [lia|].
    cbn [discover_poll].
    run_deref Hv.
    run_syscall Hscript.
    cbv zeta. destruct (Z.eqb_spec (rc a) 0); [done|]. cbn [negb].
    rewrite (bind_Ret (irda_errcode p) _ _ _ _ eq_refl). cbn [last_error after].
    rewrite Ha', Z.eqb_refl. cbn [negb].
    destruct (Z.leb_spec DISCOVER_MAX_RETRIES n);
      [unfold DISCOVER_MAX_RETRIES in *; lia|].
    rewrite (bind_Ret _ _ _ _ _ (emit_after _ _)).
    rewrite after_after. cbn [last_error script after].
    rewrite to_uint_id by (unfold C.is_uint, C.UINT_MAX; lia).
    rewrite IH; [|done|done|lia|unfold DISCOVER_MAX_RETRIES; lia|done|lia].
    rewrite after_after, polls_S. simpl.
    f_equal; [lia | by rewrite Ha'].
Qed.

Lemma discover_poll_failed fuel l d n data s r rest :
  valid s l d -> script s = r :: rest -> failed r ->
  discover_poll p (S fuel) l n data s =
  Ret (inl (-1))
      (after s [Call_getsockopt_ENUMDEVICES (fd d);
                Call_message "getsockopt"] (err r) rest).
Proof.
  intros Hv Hscript [Hrc Herr]. cbn [discover_poll].
  run_deref Hv.
  run_syscall Hscript.
  cbv zeta. destruct (Z.eqb_spec (rc r) 0); [done|]. cbn [negb].
  rewrite (bind_Ret (irda_errcode p) _ _ _ _ eq_refl). cbn [last_error after].
  destruct (Z.eqb_spec (err r) (would_block p)); [done|]. cbn [negb].
  run_TRACE.
  by rewrite after_after.
Qed.

Lemma discover_poll_exhausted fuel l d n data s r rest :
  valid s l d -> script s = r :: rest -> blocked r ->
  DISCOVER_MAX_RETRIES <= n ->
  discover_poll p (S fuel) l n data s =
  Ret (inl 0) (after s [Call_getsockopt_ENUMDEVICES (fd d)] (err r) rest).
Proof.
  intros Hv Hscript [Hrc Herr] Hn. cbn [discover_poll].
  run_deref Hv.
  run_syscall Hscript.
  cbv zeta. destruct (Z.eqb_spec (rc r) 0); [done|]. cbn [negb].
  rewrite (bind_Ret (irda_errcode p) _ _ _ _ eq_refl). cbn [last_error after].
  rewrite Herr, Z.eqb_refl. cbn [negb].
  destruct (Z.leb_spec DISCOVER_MAX_RETRIES n); [done|lia].
Qed.

Lemma discover_poll_answered fuel l d n data s r rest :
  valid s l d -> script s = r :: rest -> rc r = 0 ->
  discover_poll p (S fuel) l n data s =
  Ret (inr (buffer_after data [r]))
      (after s [Call_getsockopt_ENUMDEVICES (fd d)] (err r) rest).
Proof.
  intros Hv Hscript Hrc. cbn [discover_poll].
  run_deref Hv.
  run_syscall Hscript.
  cbv zeta. rewrite Hrc. done.
Qed.

(** The polling loop of a discovery after the answers [waiting], all of
    which reported that the operation would block. *)
Lemma irda_socket_discover_waiting l d waiting r rest s :
  valid s l d -> Forall blocked waiting ->
  (length waiting <= 4)%nat ->
  script s = waiting ++ r :: rest ->
  exists fuel,
    discover_poll p (turns s) l 0 (zero_list p) s =
    discover_poll p (S fuel) l (Z.of_nat (length waiting))
      (buffer_after (zero_list p) waiting)
      (after s (polls d (length waiting))
         (errno_after (last_error s) waiting) (r :: rest)).
Proof.
  intros Hv Hb Hlen Hscript.
  exists (S (length rest)).
  rewrite (discover_poll_blocked l d (r :: rest) waiting);
    [|done|done|done|unfold DISCOVER_MAX_RETRIES; lia|done|].
  - unfold turns. f_equal.
    rewrite Hscript, length_app. simpl. lia.
  - unfold turns. rewrite Hscript, length_app. lia.
Qed.

(** C3.  While the system answers that the operation would block, the
    discovery waits one second and polls again.  After at most four such
    retries an answer that reports success ends the polling, and any other
    error returns -1 at once; a fifth answer that the operation would block
    returns 0 at once, and no callback was invoked. *)
Theorem irda_socket_discover_retries l d callback waiting r rest s :
  valid s l d -> Forall blocked waiting -> (length waiting <= 4)%nat ->
  script s = waiting ++ r :: rest ->
  let calls := polls d (length waiting)
               ++ [Call_getsockopt_ENUMDEVICES (fd d)] in
  duration_ms (pause p) = Some 1000
  /\ (rc r = 0 ->
      irda_socket_discover p (Some l) false s
      = Ret 0 (after s calls (err r) rest))
  /\ (failed r ->
      irda_socket_discover p (Some l) callback s
      = Ret (status_value SocketError)
            (after s (calls ++ [Call_message "getsockopt"]) (err r) rest))
  /\ (blocked r -> length waiting = 4%nat ->
      irda_socket_discover p (Some l) callback s
      = Ret 0 (after s calls (err r) rest)
      /\ filter is_callback calls = []).
Proof.
  intros Hv Hb Hlen Hscript calls.
  destruct (irda_socket_discover_waiting l d waiting r rest s)
    as [fuel Hrun]; [done | done | done | done |].
  assert (Hv' : valid (after s (polls d (length waiting))
                         (errno_after (last_error s) waiting) (r :: rest))
                  l d) by done.
  unfold irda_socket_discover, bind. rewrite Hrun. subst calls.
  split; [by destruct p|].
  split; [|split].
  - intros Hrc.
    erewrite discover_poll_answered; [|done|reflexivity|done].
    by rewrite after_after.
  - intros Hfail.
    erewrite discover_poll_failed; [|done|reflexivity|done].
    rewrite after_after. by rewrite <- app_assoc.
  - intros Hblocked Hfour. split.
    + erewrite discover_poll_exhausted;
        [|done|reflexivity|done|unfold DISCOVER_MAX_RETRIES; lia].
      by rewrite after_after.
    + rewrite Hfour. by destruct p.
Qed.

(** The loop body reports entry [i] of the list as the amended record. *)
Lemma invocation_record (data : device_list p) (i : nat)
    (e : device_info p) :
  records data !! i = Some e -> Z.of_nat i < DISCOVER_MAX_DEVICES ->
  invocation p data (Z.of_nat i) = Some (discovered_record e).
Proof.
  intros He Hi.
  assert (Hslot : forall A (zero : A) (es : list A) x,
             es !! i = Some x -> slot zero es (Z.of_nat i) = Some x).
  { intros A zero es x Hx. unfold slot.
    destruct (Z.leb_spec 0 (Z.of_nat i)); [|lia].
    destruct (Z.ltb_spec (Z.of_nat i) DISCOVER_MAX_DEVICES); [|lia].
    cbn [andb]. by rewrite Nat2Z.id, nth_lookup, Hx. }
  destruct p; cbn [records invocation] in *;
    rewrite (Hslot _ _ _ _ He);
    unfold discovered_record, hint_bits; cbn; by rewrite be16_lor.
Qed.

Lemma report_records (data : device_list p) :
  forall es pre s,
  records data = pre ++ es ->
  Z.of_nat (length (records data)) <= DISCOVER_MAX_DEVICES ->
  report p (length es) (Z.of_nat (length pre)) data s =
  Ret tt (after s (map discovered_record es) (last_error s) (script s)).
Proof.
  induction es as [|e es IH]; intros pre s Hrec Hlen.
  - simpl. by rewrite after_nil.
  - cbn [length report].
    rewrite (invocation_record data (length pre) e).
    + rewrite (bind_Ret _ _ _ _ _ (emit_after _ _)).
      replace (Z.of_nat (length pre) + 1)
        with (Z.of_nat (length (pre ++ [e])))
        by (rewrite length_app; simpl; lia).
      rewrite IH; [|by rewrite <- app_assoc|done].
      by rewrite after_after.
    + rewrite Hrec. by rewrite list_lookup_middle.
    + rewrite Hrec, length_app in Hlen. simpl in Hlen. lia.
Qed.

(** C4 (amended).  After a successful discovery with a callback, in which
    the system reports as many entries as it stored and no more than the
    buffer has room for, the callback was invoked once per entry, in the
    order of the list, with the hints [byte0 << 8 | byte1] and with the
    address that is put together big-endian from the four identifier bytes
    under [_WIN32] and that is the 32-bit [daddr] field as the system
    stored it otherwise: the value of its four bytes in the byte order of
    the machine, so the big-endian value on a big-endian machine. *)
Theorem irda_socket_discover_reports l d waiting r data rest s :
  valid s l d -> Forall blocked waiting -> (length waiting <= 4)%nat ->
  script s = waiting ++ r :: rest ->
  rc r = 0 -> out r = Out_devices p data -> well_formed data ->
  irda_socket_discover p (Some l) true s
  = Ret 0 (after s (polls d (length waiting)
                    ++ [Call_getsockopt_ENUMDEVICES (fd d)]
                    ++ map discovered_record (records data))
             (err r) rest)
  /\ (forall host (e : device_info p),
        p = Win32 \/ (host = BigEndian /\ C.is_uint (device_address e)) ->
        discovered_record e = claimed_record host e)
  /\ (forall host (e : device_info p),
        C.is_uint (device_address e) ->
        device_address e = load_u32 (id_order host p) (raw_id host e)).
Proof.
  intros Hv Hb Hlen Hscript Hrc Hout [Hcount Hfit]. split; [|split].
  - destruct (irda_socket_discover_waiting l d waiting r rest s)
      as [fuel Hrun]; [done | done | done | done |].
    assert (Hv' : valid (after s (polls d (length waiting))
                           (errno_after (last_error s) waiting) (r :: rest))
                    l d) by done.
    unfold irda_socket_discover. unfold bind at 1. rewrite Hrun.
    erewrite discover_poll_answered; [|done|reflexivity|done].
    rewrite after_after. cbn [buffer_after fold_left]. rewrite Hout.
    rewrite Hcount, Nat2Z.id.
    rewrite (bind_Ret _ _ _ _ _
               (report_records data (records data) [] _ eq_refl Hfit)).
    rewrite after_after. by rewrite <- app_assoc.
  - intros host e [-> | [-> Hu]].
    + done.
    + destruct p; [done|].
      unfold discovered_record, claimed_record.
      cbn [raw_id device_address object_repr] in *.
      by rewrite be32_be_split.
  - intros host e Hu. destruct p; cbn [id_order raw_id device_address] in *.
    + done.
    + by rewrite load_u32_object_repr.
Qed.

(** The loop body inside the buffer and past its end. *)
Lemma invocation_inside (data : device_list p) (i : Z) :
  0 <= i < DISCOVER_MAX_DEVICES -> exists c, invocation p data i = Some c.
Proof.
  intros Hi.
  destruct p; cbn [invocation]; unfold slot;
    destruct (Z.leb_spec 0 i), (Z.ltb_spec i DISCOVER_MAX_DEVICES);
    try lia; by eexists.
Qed.

Lemma invocation_past_end (data : device_list p) (i : Z) :
  DISCOVER_MAX_DEVICES <= i -> invocation p data i = None.
Proof.
  intros Hi.
  destruct p; cbn [invocation]; unfold slot;
    destruct (Z.ltb_spec i DISCOVER_MAX_DEVICES); try lia;
    by rewrite andb_false_r.
Qed.

(** A loop that goes on beyond the last entry of the buffer reads past
    its end. *)
Lemma report_overflow (data : device_list p) (k : nat) :
  forall i s,
  0 <= i <= DISCOVER_MAX_DEVICES ->
  DISCOVER_MAX_DEVICES < i + Z.of_nat k ->
  report p k i data s = Fault OutOfBounds.
Proof.
  induction k as [|k IH]; intros i s Hi Hk; [lia|].
  cbn [report].
  destruct (Z.eq_dec i DISCOVER_MAX_DEVICES) as [->|Hne].
  - by rewrite invocation_past_end.
  - destruct (invocation_inside data i) as [c ->]; [lia|].
    unfold bind, emit. apply IH; lia.
Qed.

(** X20.  The number of entries that the system reports is not checked
    against the room in the buffer: when a successful discovery reports
    more than 16 entries, the loop that invokes the callback goes on past
    the sixteenth entry and reads beyond the end of the buffer.  With a
    null callback the entries are not read, and the discovery returns
    0. *)
Theorem irda_socket_discover_count_unchecked l d waiting r data rest s :
  valid s l d -> Forall blocked waiting -> (length waiting <= 4)%nat ->
  script s = waiting ++ r :: rest ->
  rc r = 0 -> out r = Out_devices p data ->
  DISCOVER_MAX_DEVICES < count p data ->
  irda_socket_discover p (Some l) true s = Fault OutOfBounds
  /\ irda_socket_discover p (Some l) false s
     = Ret 0 (after s (polls d (length waiting)
                       ++ [Call_getsockopt_ENUMDEVICES (fd d)])
                (err r) rest).
Proof.
  intros Hv Hb Hlen Hscript Hrc Hout Hcount.
  destruct (irda_socket_discover_waiting l d waiting r rest s)
    as [fuel Hrun]; [done | done | done | done |].
  assert (Hv' : valid (after s (polls d (length waiting))
                         (errno_after (last_error s) waiting) (r :: rest))
                  l d) by done.
  unfold irda_socket_discover. unfold bind at 1 3. rewrite Hrun.
  erewrite discover_poll_answered; [|done|reflexivity|done].
  rewrite after_after. cbn [buffer_after fold_left]. rewrite Hout.
  split; [|done].
  apply bind_Fault, report_overflow; unfold DISCOVER_MAX_DEVICES in *; lia.
Qed.

(** ** Connecting *)

Lemma connect_peer_outcome l d (peer : sockaddr p) r rest s :
  valid s l d -> script s = r :: rest ->
  connect_peer p l peer s
  = Ret (if rc r =? 0 then 0 else -1)
        (after s (Call_connect p (fd d) peer
                  :: (if rc r =? 0 then [] else [Call_message "connect"]))
           (err r) rest).
Proof.
  intros Hv Hscript. unfold connect_peer.
  run_deref Hv.
  run_syscall Hscript.
  destruct (Z.eqb_spec (rc r) 0); cbn [negb]; [done|].
  run_TRACE.
  by rewrite after_after.
Qed.

(** *** Decimal digits *)

Lemma decimal_value_from (digits : list byte) (a : Z) :
  fold_left (fun acc b => acc * 10 + (Z_of_byte b - 48)) digits a
  = a * 10 ^ Z.of_nat (length digits) + decimal_value digits.
Proof.
  unfold decimal_value. revert a.
  induction digits as [|b digits IH]; intros a.
  - simpl. lia.
  - cbn [fold_left length]. rewrite IH, (IH (0 * 10 + _)).
    rewrite Nat2Z.inj_succ, Z.pow_succ_r by lia. ring.
Qed.

Lemma decimal_value_cons b digits :
  decimal_value (b :: digits)
  = (Z_of_byte b - 48) * 10 ^ Z.of_nat (length digits) + decimal_value digits.
Proof.
  unfold decimal_value at 1. cbn [fold_left].
  rewrite decimal_value_from. ring.
Qed.

Lemma Z_of_digit n : 0 <= n < 10 -> Z_of_byte (digit n) = 48 + n.
Proof.
  intros Hn. unfold digit. rewrite Z_of_byte_of_Z. apply Z.mod_small. lia.
Qed.

Lemma decimal_from_value fuel :
  forall n acc, 0 <= n < 10 ^ Z.of_nat fuel ->
  decimal_value (decimal_from fuel n acc)
  = n * 10 ^ Z.of_nat (length acc) + decimal_value acc.
Proof.
  induction fuel as [|fuel IH]; intros n acc Hn.
  - simpl in *. assert (n = 0) as -> by lia. lia.
  - cbn [decimal_from].
    rewrite Nat2Z.inj_succ, Z.pow_succ_r in Hn by lia.
    pose proof (Z.mod_pos_bound n 10 ltac:(lia)) as Hm.
    pose proof (Z.div_mod n 10 ltac:(lia)) as Hd.
    destruct (Z.eqb_spec (n / 10) 0) as [Hz|Hz].
    + rewrite decimal_value_cons, Z_of_digit by done.
      replace (48 + n mod 10 - 48) with n by lia. done.
    + rewrite IH.
      * rewrite decimal_value_cons, Z_of_digit by done.
        cbn [length]. rewrite Nat2Z.inj_succ, Z.pow_succ_r by lia.
        replace (48 + n mod 10 - 48) with (n mod 10) by lia.
        rewrite Hd at 3. ring.
      * split; [apply Z.div_pos; lia|].
        apply Z.div_lt_upper_bound; lia.
Qed.

(** The digits [%u] prints denote the number. *)
Lemma decimal_value_decimal n :
  C.is_uint n -> decimal_value (decimal n) = n.
Proof.
  unfold C.is_uint, C.UINT_MAX. intros Hn. unfold decimal.
  rewrite decimal_from_value; [unfold decimal_value; simpl; lia|].
  change (10 ^ Z.of_nat 10) with 10000000000. lia.
Qed.

Lemma decimal_from_length fuel :
  forall n acc,
  (length (decimal_from fuel n acc) <= fuel + length acc)%nat.
Proof.
  induction fuel as [|fuel IH]; intros n acc; cbn [decimal_from].
  - lia.
  - destruct (n / 10 =? 0).
    + simpl. lia.
    + etrans; [apply IH|]. simpl. lia.
Qed.

Lemma digit_nonzero n : 0 <= n < 10 -> digit n <> Byte.x00.
Proof.
  intros Hn Hz. apply (f_equal Z_of_byte) in Hz.
  rewrite Z_of_digit in Hz by done. cbn in Hz. lia.
Qed.

Lemma decimal_from_nonzero fuel :
  forall n acc, 0 <= n ->
  Forall (fun b => b <> Byte.x00) acc ->
  Forall (fun b => b <> Byte.x00) (decimal_from fuel n acc).
Proof.
  induction fuel as [|fuel IH]; intros n acc Hn Hacc; cbn [decimal_from].
  - done.
  - assert (Forall (fun b => b <> Byte.x00) (digit (n mod 10) :: acc)).
    { constructor; [|done]. apply digit_nonzero.
      apply Z.mod_pos_bound. lia. }
    destruct (n / 10 =? 0); [done|].
    apply IH; [|done]. apply Z.div_pos; lia.
Qed.

(** *** Strings in fixed fields *)

Lemma c_str_terminated (text rest : list byte) :
  Forall (fun b => b <> Byte.x00) text ->
  c_str (text ++ Byte.x00 :: rest) = text.
Proof.
  induction 1 as [|b text Hb _ IH]; cbn [app c_str].
  - done.
  - destruct (Byte.eqb b Byte.x00) eqn:E.
    + by apply Byte.byte_dec_bl in E.
    + by rewrite IH.
Qed.

(** A text without zero bytes that leaves room for the terminator is what
    [snprintf] leaves in the field. *)
Lemma c_str_snprintf (n : nat) (text : list byte) :
  Forall (fun b => b <> Byte.x00) text -> (length text < n)%nat ->
  c_str (snprintf n text) = text.
Proof.
  intros Hnz Hlen. unfold snprintf.
  rewrite (firstn_all2 (n:=n - 1)) by lia.
  rewrite firstn_app, (firstn_all2 (n:=n)) by lia.
  destruct (n - length text)%nat as [|k] eqn:E; [lia|].
  destruct n as [|n]; [lia|]. cbn [repeat firstn].
  by apply c_str_terminated.
Qed.

Lemma LSAP_SEL_text lsap :
  C.is_uint lsap ->
  Forall (fun b => b <> Byte.x00) (LSAP_SEL lsap)
  /\ (length (LSAP_SEL lsap) <= 18)%nat.
Proof.
  unfold C.is_uint. intros Hl. unfold LSAP_SEL. split.
  - apply Forall_app. split.
    + by repeat constructor.
    + apply decimal_from_nonzero; [lia|done].
  - rewrite length_app.
    pose proof (decimal_from_length 10 lsap []). unfold decimal.
    simpl in *. lia.
Qed.

(** C7 (amended).  [irda_socket_connect_lsap] passes to [connect] a peer
    address that, under [_WIN32], holds the big-endian split of the address
    in its device-ID bytes and the text [LSAP-SEL<number>], in decimal, as
    its service name; otherwise it holds the address as a 32-bit integer
    in the byte order of the machine, and the number reduced modulo 256 in
    its eight-bit selector field.  So the peer address is the one of the
    specification under [_WIN32], and otherwise on a big-endian machine for
    a number below 256. *)
Theorem irda_socket_connect_lsap_peer l d address lsap r rest s :
  valid s l d -> C.is_uint address -> C.is_uint lsap ->
  script s = r :: rest ->
  let peer := peer_lsap p address lsap in
  irda_socket_connect_lsap p (Some l) address lsap s
  = Ret (if rc r =? 0 then 0 else status_value SocketError)
        (after s (Call_connect p (fd d) peer
                  :: (if rc r =? 0 then [] else [Call_message "connect"]))
           (err r) rest)
  /\ (forall host,
        peer_id_bytes host peer = object_repr (id_order host p) address)
  /\ be32 (be_split address) = address
  /\ match peer_selector peer with
     | Some selector => selector = lsap mod 256
     | None =>
         peer_service peer = LSAP_SEL lsap
         /\ decimal_value (decimal lsap) = lsap
     end
  /\ (forall host,
        p = Win32 \/ (host = BigEndian /\ lsap < 256) ->
        claimed_lsap_peer host address lsap peer).
Proof.
  intros Hv Ha Hl Hscript peer.
  destruct (LSAP_SEL_text lsap Hl) as [Hnz Hlen].
  assert (Hname : c_str (snprintf 25 (LSAP_SEL lsap)) = LSAP_SEL lsap)
    by (apply c_str_snprintf; [done | lia]).
  split; [by apply connect_peer_outcome|].
  subst peer. unfold claimed_lsap_peer.
  destruct p; cbn [peer_lsap peer_id_bytes peer_selector peer_service
                   peer_irdaDeviceID irdaServiceName sir_addr sir_lsap_sel].
  - fold (LSAP_SEL lsap). rewrite Hname.
    split; [done|]. split; [by apply be32_be_split|].
    split; [split; [done | by apply decimal_value_decimal]|].
    by intros host _.
  - rewrite Z_of_byte_of_Z.
    split; [done|]. split; [by apply be32_be_split|]. split; [done|].
    intros host [Hw | [-> Hsmall]]; [done|]. split; [done|].
    unfold C.is_uint in Hl. apply Z.mod_small. lia.
Qed.

(** ** The timeout field *)

Lemma alter_valid (f : irda -> irda) (m : gmap loc irda) l d :
  m !! l = Some d -> alter f l m = <[l := f d]> m.
Proof.
  intros Hl. rewrite <- (insert_id m l d Hl) at 1. apply alter_insert_eq.
Qed.

Lemma irda_socket_set_timeout_stores l d t s :
  valid s l d ->
  irda_socket_set_timeout p (Some l) t s = Ret 0 (with_timeout l t s).
Proof.
  intros Hv. unfold irda_socket_set_timeout.
  run_deref Hv.
  unfold bind, store, with_timeout. unfold valid in Hv. rewrite Hv.
  by rewrite (alter_valid _ _ _ _ Hv).
Qed.

Lemma valid_with_timeout l d t s :
  valid s l d -> valid (with_timeout l t s) l {| fd := fd d; timeout := t |}.
Proof.
  unfold valid, with_timeout. intros Hv. cbn [heap].
  by rewrite lookup_alter_eq, Hv.
Qed.

Lemma deadline_negative d tv : timeout d < 0 -> deadline d tv = None.
Proof.
  unfold deadline. intros H. by destruct (Z.leb_spec 0 (timeout d)); [lia|].
Qed.

Lemma deadline_nonnegative d tv : 0 <= timeout d -> deadline d tv = Some tv.
Proof.
  unfold deadline. intros H. by destruct (Z.leb_spec 0 (timeout d)); [|lia].
Qed.

(** Closes [Forall (select_as_configured d)] goals over explicit lists. *)
Ltac check_calls Hsel Hother :=
  cbn [app];
  repeat first
    [ assumption
    | apply List.Forall_nil
    | apply List.Forall_cons; [ first [ apply Hsel | by apply Hother ] | ] ].

Lemma read_loop_deadlines l d size fuel :
  forall tv nbytes s v s',
  valid s l d ->
  read_loop p fuel l size tv nbytes s = Ret v s' ->
  exists calls, log s' = log s ++ calls
                /\ Forall (select_as_configured d) calls.
Proof.
  assert (Hsel : forall tv, select_as_configured (p:=p) d
                   (Call_select (fd d + 1) (fd d) (deadline d tv))).
  { intros tv. split; intros Ht; cbn.
    - by apply deadline_negative.
    - by rewrite deadline_nonnegative. }
  assert (Hother : forall c : call p,
             (forall a b o, c <> Call_select a b o) ->
             select_as_configured d c).
  { intros c Hc.
    split; intros _; destruct c; try done; by destruct (Hc _ _ _ eq_refl). }
  induction fuel as [|fuel IH]; intros tv nbytes s v s' Hv Hrun; [done|].
  cbn [read_loop] in Hrun.
  destruct (nbytes <? size).
  2:{ inversion Hrun; subst. exists []. by rewrite app_nil_r. }
  rewrite (bind_Ret _ _ _ _ _ (deref_valid _ _ _ Hv)) in Hrun.
  destruct (script s) as [|r rest] eqn:Hscript.
  { unfold bind, syscall in Hrun. by rewrite Hscript in Hrun. }
  rewrite (bind_Ret _ _ _ _ _ (syscall_after _ _ _ _ Hscript)) in Hrun.
  destruct (rc r <? 0).
  { inversion Hrun; subst. eexists. split; [by rewrite <- app_assoc|].
    by check_calls Hsel Hother. }
  destruct (rc r =? 0).
  { inversion Hrun; subst. eexists. split; [done|].
    by check_calls Hsel Hother. }
  rewrite (bind_Ret _ _ _ d _ (deref_valid _ _ _ (valid_after _ _ _ _ _ _ Hv)))
    in Hrun.
  destruct rest as [|r' rest].
  { by unfold bind, syscall in Hrun. }
  erewrite bind_Ret in Hrun by (apply syscall_after; reflexivity).
  cbv zeta in Hrun. rewrite after_after in Hrun.
  destruct (rc r' <? 0).
  { inversion Hrun; subst. eexists. split; [by rewrite <- app_assoc|].
    by check_calls Hsel Hother. }
  destruct (rc r' =? 0).
  { inversion Hrun; subst. eexists. split; [done|].
    by check_calls Hsel Hother. }
  apply IH in Hrun; [|done].
  destruct Hrun as (calls & Hlog & Hcalls).
  eexists. split.
  - rewrite Hlog. cbn [log after]. by rewrite <- app_assoc.
  - by check_calls Hsel Hother.
Qed.

Lemma initial_tv_nonnegative d :
  0 <= timeout d ->
  initial_tv d = {| tv_sec := timeout d / 1000;
                    tv_usec := timeout d mod 1000 * 1000 |}.
Proof.
  intros Ht. unfold initial_tv.
  destruct (Z.leb_spec 0 (timeout d)); [|lia].
  by rewrite Z.quot_div_nonneg, Z.rem_mod_nonneg by lia.
Qed.

(** ** Opening *)

Lemma store_valid l d d' s :
  valid s l d -> store p l d' s = Ret tt (put l d' s).
Proof. unfold valid, store. by intros ->. Qed.

Lemma valid_put l d s : valid (put l d s) l d.
Proof. unfold valid, put. cbn [heap]. apply lookup_insert_eq. Qed.

Lemma put_put l d d' s : put l d (put l d' s) = put l d s.
Proof. unfold put. cbn. by rewrite insert_insert_eq. Qed.

Lemma put_after l d s calls e rest :
  after (put l d s) calls e rest = put l d (after s calls e rest).
Proof. done. Qed.

Lemma malloc_fresh r rest s :
  script s = r :: rest -> rc r <> 0 ->
  let l := fresh (dom (heap s)) in
  malloc p s =
  Ret (Some l)
      (put l {| fd := 0; timeout := 0 |} (after s [Call_malloc] (err r) rest)).
Proof.
  intros Hscript Hrc l. unfold malloc.
  run_syscall Hscript.
  by destruct (Z.eqb_spec (rc r) 0).
Qed.

Lemma malloc_null r rest s :
  script s = r :: rest -> rc r = 0 ->
  malloc p s = Ret None (after s [Call_malloc] (err r) rest).
Proof.
  intros Hscript Hrc. unfold malloc.
  run_syscall Hscript.
  by rewrite Hrc.
Qed.

(** An open up to the answer of [socket]: the handle is allocated, holds
    the descriptor and blocks without limit. *)
Lemma irda_socket_open_socket o r_malloc r_socket rest s :
  script s = r_malloc :: r_socket :: rest -> rc r_malloc <> 0 ->
  let l := fresh (dom (heap s)) in
  let s1 := put l {| fd := rc r_socket; timeout := -1 |}
              (after s [Call_malloc; Call_socket (AF_IRDA p) SOCK_STREAM 0]
                 (err r_socket) rest) in
  irda_socket_open p (Some o) s =
  (if rc r_socket =? invalid_fd p
   then bind p (TRACE p "socket")
          (fun _ => bind p (free p l) (fun _ => ret p (-1)))
   else bind p (store_var p o (Some l)) (fun _ => ret p 0)) s1.
Proof.
  intros Hscript Hm l s1. unfold irda_socket_open.
  rewrite (bind_Ret _ _ _ _ _ (malloc_fresh _ _ _ Hscript Hm)). fold l.
  rewrite (bind_Ret _ _ _ _ _ (deref_valid _ _ _ (valid_put _ _ _))).
  rewrite (bind_Ret _ _ _ _ _ (store_valid _ _ _ _ (valid_put _ _ _))).
  rewrite put_put.
  run_next_syscall.
  rewrite put_after, after_after.
  rewrite (bind_Ret _ _ _ _ _ (deref_valid _ _ _ (valid_put _ _ _))).
  rewrite (bind_Ret _ _ _ _ _ (store_valid _ _ _ _ (valid_put _ _ _))).
  rewrite put_put.
  rewrite (bind_Ret _ _ _ _ _ (deref_valid _ _ _ (valid_put _ _ _))).
  done.
Qed.

(** A successful open. *)
Lemma irda_socket_open_success o r_malloc r_socket rest s :
  script s = r_malloc :: r_socket :: rest ->
  rc r_malloc <> 0 -> rc r_socket <> invalid_fd p ->
  let l := fresh (dom (heap s)) in
  exists s',
    irda_socket_open p (Some o) s = Ret 0 s'
    /\ valid s' l {| fd := rc r_socket; timeout := -1 |}
    /\ vars s' !! o = Some (Some l)
    /\ script s' = rest.
Proof.
  intros Hscript Hm Hs l.
  rewrite (irda_socket_open_socket _ _ _ _ _ Hscript Hm).
  destruct (Z.eqb_spec (rc r_socket) (invalid_fd p)); [done|].
  eexists. split; [reflexivity|]. cbn.
  split; [apply lookup_insert_eq|]. split; [apply lookup_insert_eq|done].
Qed.

(** ** Operations that do not look at the timeout *)

Lemma blind_ret {A} (a : A) : timeout_blind (ret p a).
Proof. done. Qed.

Lemma blind_fail {A} f : timeout_blind (fail p (A:=A) f).
Proof. done. Qed.

Lemma blind_bind {A B} (m : M p A) (k : A -> M p B) :
  timeout_blind m -> (forall a, timeout_blind (k a)) ->
  timeout_blind (bind p m k).
Proof.
  intros Hm Hk l t s. unfold bind. rewrite Hm.
  destruct (m s) as [a s'|f]; cbn [retimed]; [apply Hk | done].
Qed.

(** A continuation that reads no more than the descriptor. *)
Lemma blind_bind_deref {B} l0 (k : irda -> M p B) :
  (forall d d', fd d' = fd d ->
     forall l t s, k d' (with_timeout l t s) = retimed l t (k d s)) ->
  timeout_blind (bind p (deref p l0) k).
Proof.
  intros Hk l t s. unfold bind, deref. cbn [with_timeout heap].
  rewrite lookup_alter. case_decide; subst.
  - destruct (heap s !! l0) as [d|]; cbn; [by apply Hk | done].
  - destruct (heap s !! l0) as [d|]; cbn; [by apply Hk | done].
Qed.

Lemma blind_syscall c : timeout_blind (syscall p c).
Proof. intros l t s. unfold syscall. cbn. by destruct (script s). Qed.

Lemma blind_emit c : timeout_blind (emit p c).
Proof. done. Qed.

Lemma blind_free l0 : timeout_blind (free p l0).
Proof.
  intros l t s. unfold free, bind, emit. cbn.
  rewrite lookup_alter. case_decide; subst.
  - destruct (heap s !! l0); cbn; [|done]. unfold with_timeout. cbn.
    by rewrite delete_alter_eq, alter_delete_eq.
  - destruct (heap s !! l0); cbn; [|done]. unfold with_timeout. cbn.
    by rewrite delete_alter_ne.
Qed.

Lemma blind_turns {A} (body : nat -> M p A) :
  (forall fuel, timeout_blind (body fuel)) ->
  timeout_blind (fun s => body (turns s) s).
Proof. intros Hb l t s. apply Hb. Qed.

Lemma blind_if {A} (b : bool) (m1 m2 : M p A) :
  timeout_blind m1 -> timeout_blind m2 ->
  timeout_blind (if b then m1 else m2).
Proof. by destruct b. Qed.

Lemma blind_close device : timeout_blind (irda_socket_close p device).
Proof.
  destruct device as [l0|]; [|done]. unfold irda_socket_close.
  apply blind_bind_deref. intros d d' Hfd. rewrite Hfd.
  apply blind_bind; [apply blind_syscall|]. intros _.
  apply blind_bind_deref. intros e e' Hfe. rewrite Hfe.
  apply blind_bind; [apply blind_syscall|]. intros r.
  apply blind_if;
    repeat (apply blind_bind; [first [apply blind_emit | apply blind_free]|];
            intros _);
    apply blind_ret.
Qed.

Lemma blind_connect_peer l0 peer : timeout_blind (connect_peer p l0 peer).
Proof.
  unfold connect_peer.
  apply blind_bind_deref. intros d d' Hfd. rewrite Hfd.
  apply blind_bind; [apply blind_syscall|]. intros r.
  apply blind_if; [|apply blind_ret].
  apply blind_bind; [apply blind_emit|]. intros _. apply blind_ret.
Qed.

Lemma blind_available device :
  timeout_blind (irda_socket_available p device).
Proof.
  destruct device as [l0|]; [|done]. unfold irda_socket_available.
  apply blind_bind_deref. intros d d' Hfd. rewrite Hfd.
  apply blind_bind; [apply blind_syscall|]. intros r. cbv zeta.
  apply blind_if; [|apply blind_ret].
  apply blind_bind; [apply blind_emit|]. intros _. apply blind_ret.
Qed.

Lemma blind_write_loop l0 size fuel :
  forall nbytes, timeout_blind (write_loop p fuel l0 size nbytes).
Proof.
  induction fuel as [|fuel IH]; intros nbytes; cbn [write_loop];
    [apply blind_fail|].
  apply blind_if; [|apply blind_ret].
  apply blind_bind_deref. intros d d' Hfd. rewrite Hfd.
  apply blind_bind; [apply blind_syscall|]. intros r. cbv zeta.
  apply blind_if; [|apply IH].
  apply blind_bind; [apply blind_emit|]. intros _. apply blind_ret.
Qed.

Lemma blind_report data k :
  forall i, timeout_blind (report p k i data).
Proof.
  induction k as [|k IH]; intros i; cbn [report]; [apply blind_ret|].
  destruct (invocation p data i); [|apply blind_fail].
  apply blind_bind; [apply blind_emit|]. intros _. apply IH.
Qed.

Lemma blind_discover_poll l0 fuel :
  forall n data, timeout_blind (discover_poll p fuel l0 n data).
Proof.
  induction fuel as [|fuel IH]; intros n data; cbn [discover_poll];
    [apply blind_fail|].
  apply blind_bind_deref. intros d d' Hfd. rewrite Hfd.
  apply blind_bind; [apply blind_syscall|]. intros r. cbv zeta.
  apply blind_if; [|apply blind_ret].
  apply blind_bind; [done|]. intros e.
  apply blind_if.
  - apply blind_bind; [apply blind_emit|]. intros _. apply blind_ret.
  - apply blind_if; [apply blind_ret|].
    apply blind_bind; [apply blind_emit|]. intros _. apply IH.
Qed.

Lemma blind_discover device callback :
  timeout_blind (irda_socket_discover p device callback).
Proof.
  destruct device as [l0|]; [|done]. unfold irda_socket_discover.
  apply blind_bind.
  - apply (blind_turns (fun fuel => discover_poll p fuel l0 0 (zero_list p))).
    intros fuel. apply blind_discover_poll.
  - intros [status|data]; [apply blind_ret|].
    apply blind_bind; [|intros _; apply blind_ret].
    destruct callback; [apply blind_report | apply blind_ret].
Qed.

Lemma blind_write device size :
  timeout_blind (irda_socket_write p device size).
Proof.
  destruct device as [l0|]; [|done]. unfold irda_socket_write.
  apply (blind_turns (fun fuel => write_loop p fuel l0 size 0)).
  intros fuel. apply blind_write_loop.
Qed.

Lemma deadline_initial d :
  deadline d (initial_tv d)
  = if timeout d <? 0 then None
    else Some {| tv_sec := timeout d / 1000;
                 tv_usec := timeout d mod 1000 * 1000 |}.
Proof.
  destruct (Z.ltb_spec (timeout d) 0).
  - by apply deadline_negative.
  - by rewrite deadline_nonnegative, initial_tv_nonnegative.
Qed.

(** C8.  [irda_socket_set_timeout] stores any value, negative or not, in
    the timeout field and checks nothing.  A read gives [select] no
    deadline exactly when the stored timeout is negative, and otherwise
    the deadline computed from it (the run shown is one on a descriptor
    that has a place in the [fd_set]); closing, discovering, connecting,
    querying and writing go the same way whatever the timeout is.  A
    successful open leaves -1 in the field. *)
Theorem timeout_stored_as_given l d t s :
  valid s l d ->
  irda_socket_set_timeout p (Some l) t s = Ret 0 (with_timeout l t s)
  /\ valid (with_timeout l t s) l {| fd := fd d; timeout := t |}
  /\ (forall size v s',
        irda_socket_read p (Some l) size s = Ret v s' ->
        exists calls, log s' = log s ++ calls
                      /\ Forall (select_as_configured d) calls)
  /\ (forall size r rest,
        fits_fd_set p d ->
        0 < size -> script s = r :: rest -> rc r = 0 ->
        irda_socket_read p (Some l) size s
        = Ret 0 (after s
                   [Call_select (fd d + 1) (fd d)
                      (if timeout d <? 0 then None
                       else Some {| tv_sec := timeout d / 1000;
                                    tv_usec := timeout d mod 1000 * 1000 |})]
                   (err r) rest))
  /\ (forall device callback address name lsap size,
        timeout_blind (irda_socket_close p device)
        /\ timeout_blind (irda_socket_discover p device callback)
        /\ timeout_blind (irda_socket_connect_name p device address name)
        /\ timeout_blind (irda_socket_connect_lsap p device address lsap)
        /\ timeout_blind (irda_socket_available p device)
        /\ timeout_blind (irda_socket_write p device size))
  /\ (forall o r_malloc r_socket rest,
        script s = r_malloc :: r_socket :: rest ->
        rc r_malloc <> 0 -> rc r_socket <> invalid_fd p ->
        exists s',
          irda_socket_open p (Some o) s = Ret 0 s'
          /\ valid s' (fresh (dom (heap s)))
               {| fd := rc r_socket; timeout := -1 |}
          /\ vars s' !! o = Some (Some (fresh (dom (heap s))))).
Proof.
  intros Hv.
  split; [by eapply irda_socket_set_timeout_stores|].
  split; [by apply valid_with_timeout|].
  split; [|split; [|split]].
  - intros size v s' Hrun.
    destruct (irda_socket_read_returns _ _ _ _ _ _ Hv Hrun) as [_ Hloop].
    by eapply read_loop_deadlines.
  - intros size r rest Hfd Hsize Hscript Hrc.
    rewrite (irda_socket_read_valid _ _ _ _ Hv Hfd). unfold turns.
    erewrite read_loop_timed_out; [|done|done|done|done].
    by rewrite deadline_initial.
  - intros device callback address name lsap size.
    split; [apply blind_close|].
    split; [apply blind_discover|].
    split; [destruct device; [apply blind_connect_peer | done]|].
    split; [destruct device; [apply blind_connect_peer | done]|].
    split; [apply blind_available | apply blind_write].
  - intros o r_malloc r_socket rest Hscript Hm Hs.
    destruct (irda_socket_open_success o _ _ _ _ Hscript Hm Hs)
      as (s' & Hopen & Hvalid & Hvar & _).
    by exists s'.
Qed.

(** ** Fuel

    The loops are given [turns s] turns, and never use them up: a run ends
    with a result, or stops at a call the script has no answer for. *)

Lemma read_loop_fuel l size fuel :
  forall tv nbytes s,
  (length (script s) < fuel)%nat ->
  read_loop p fuel l size tv nbytes s <> Fault OutOfFuel.
Proof.
  induction fuel as [|fuel IH]; intros tv nbytes s Hfuel; [lia|].
  cbn [read_loop]. destruct (nbytes <? size); [|done].
  unfold bind at 1. unfold deref at 1.
  destruct (heap s !! l) as [d|] eqn:Hl; [|done].
  unfold bind at 1. unfold syscall at 1.
  destruct (script s) as [|r rest] eqn:Hscript; [done|].
  destruct (rc r <? 0); [done|]. destruct (rc r =? 0); [done|].
  unfold bind at 1. unfold deref at 1. cbn [heap]. rewrite Hl.
  unfold bind at 1. unfold syscall at 1. cbn [script].
  destruct rest as [|r' rest]; [done|]. cbv zeta.
  destruct (rc r' <? 0); [done|]. destruct (rc r' =? 0); [done|].
  apply IH. simpl in *. lia.
Qed.

Lemma write_loop_fuel l size fuel :
  forall nbytes s,
  (length (script s) < fuel)%nat ->
  write_loop p fuel l size nbytes s <> Fault OutOfFuel.
Proof.
  induction fuel as [|fuel IH]; intros nbytes s Hfuel; [lia|].
  cbn [write_loop]. destruct (nbytes <? size); [|done].
  unfold bind at 1. unfold deref at 1.
  destruct (heap s !! l) as [d|] eqn:Hl; [|done].
  unfold bind at 1. unfold syscall at 1.
  destruct (script s) as [|r rest] eqn:Hscript; [done|]. cbv zeta.
  destruct (rc r <? 0); [done|].
  apply IH. simpl in *. lia.
Qed.

Lemma discover_poll_fuel l fuel :
  forall n data s,
  (length (script s) < fuel)%nat ->
  discover_poll p fuel l n data s <> Fault OutOfFuel.
Proof.
  induction fuel as [|fuel IH]; intros n data s Hfuel; [lia|].
  cbn [discover_poll].
  unfold bind at 1. unfold deref at 1.
  destruct (heap s !! l) as [d|] eqn:Hl; [|done].
  unfold bind at 1. unfold syscall at 1.
  destruct (script s) as [|r rest] eqn:Hscript; [done|]. cbv zeta.
  destruct (negb (rc r =? 0)); [|done].
  unfold bind at 1. unfold irda_errcode at 1. cbn [last_error].
  destruct (negb (err r =? would_block p)); [done|].
  destruct (DISCOVER_MAX_RETRIES <=? n); [done|].
  unfold bind at 1. unfold emit at 1.
  apply IH. simpl in *. lia.
Qed.

Lemma report_fuel data k :
  forall i s, report p k i data s <> Fault OutOfFuel.
Proof.
  induction k as [|k IH]; intros i s; cbn [report]; [done|].
  destruct (invocation p data i); [|done].
  unfold bind, emit. apply IH.
Qed.

(** No operation runs out of turns. *)
Lemma never_out_of_fuel device size callback s :
  irda_socket_read p device size s <> Fault OutOfFuel
  /\ irda_socket_write p device size s <> Fault OutOfFuel
  /\ irda_socket_discover p device callback s <> Fault OutOfFuel.
Proof.
  destruct device as [l|]; [|done]. split; [|split].
  - destruct (heap s !! l) as [d|] eqn:Hl.
    + destruct (fits_fd_set_dec d) as [Hfd|Hfd].
      * rewrite (irda_socket_read_valid l d size s Hl Hfd).
        apply read_loop_fuel. unfold turns. lia.
      * by rewrite (irda_socket_read_overflow l d size s Hl Hfd).
    + unfold irda_socket_read, bind, deref. by rewrite Hl.
  - apply write_loop_fuel. unfold turns. lia.
  - unfold irda_socket_discover. unfold bind at 1.
    pose proof (discover_poll_fuel l (turns s) 0 (zero_list p) s
                  ltac:(unfold turns; lia)) as Hpoll.
    destruct (discover_poll p (turns s) l 0 (zero_list p) s)
      as [[status|data] s'|f]; [done| |congruence].
    unfold bind. destruct callback; [|done].
    pose proof (report_fuel data (Z.to_nat (count p data)) 0 s') as Hreport.
    destruct (report p (Z.to_nat (count p data)) 0 data s');
      [done | congruence].
Qed.

(** ** Failures *)

Lemma irda_socket_open_no_memory o r rest s :
  script s = r :: rest -> rc r = 0 ->
  irda_socket_open p (Some o) s
  = Ret (-1) (after s [Call_malloc; Call_message "malloc"] (err r) rest).
Proof.
  intros Hscript Hrc. unfold irda_socket_open.
  rewrite (bind_Ret _ _ _ _ _ (malloc_null _ _ _ Hscript Hrc)).
  run_TRACE.
  by rewrite after_after.
Qed.

Lemma irda_socket_open_no_socket o r_malloc r_socket rest s :
  script s = r_malloc :: r_socket :: rest ->
  rc r_malloc <> 0 -> rc r_socket = invalid_fd p ->
  irda_socket_open p (Some o) s
  = Ret (-1)
        (after s [Call_malloc; Call_socket (AF_IRDA p) SOCK_STREAM 0;
                  Call_message "socket"; Call_free (fresh (dom (heap s)))]
           (err r_socket) rest).
Proof.
  intros Hscript Hm Hs.
  rewrite (irda_socket_open_socket _ _ _ _ _ Hscript Hm).
  rewrite Hs, Z.eqb_refl.
  run_TRACE.
  rewrite put_after, after_after.
  erewrite bind_Ret by (eapply free_valid, valid_put).
  unfold ret, released, put, after. cbn. f_equal. f_equal.
  - rewrite delete_insert_eq. apply delete_id.
    apply not_elem_of_dom, is_fresh.
  - by rewrite <- !app_assoc.
Qed.

Lemma irda_socket_available_outcome l d r rest s :
  valid s l d -> script s = r :: rest ->
  irda_socket_available p (Some l) s
  = if rc r =? 0
    then Ret (let bytes := match out r with Out_int n => n | _ => 0 end in
              match p with Win32 => C.to_int bytes | Posix => bytes end)
             (after s [Call_ioctl_FIONREAD (fd d)] (err r) rest)
    else Ret (-1)
             (after s [Call_ioctl_FIONREAD (fd d);
                       Call_message (match p with
                                     | Win32 => "ioctlsocket"
                                     | Posix => "ioctl"
                                     end)] (err r) rest).
Proof.
  intros Hv Hscript. unfold irda_socket_available.
  run_deref Hv.
  run_syscall Hscript.
  cbv zeta. destruct (Z.eqb_spec (rc r) 0); cbn [negb]; [done|].
  run_TRACE.
  by rewrite after_after.
Qed.

Lemma returns_Ret {A} (a : A) s' : returns (Ret a s') a.
Proof. by exists s'. Qed.

(** C9.  Whatever the cause of a failure is (a null handle or output slot,
    no memory, a system call that fails), the operation returns the same
    value -1: the three error statuses are reported by one value.  What
    failed shows in the last-error code, which [irda_errcode] returns. *)
Theorem every_failure_returns_minus_one l d s :
  valid s l d ->
  (status_value InvalidArgument = -1
   /\ status_value AllocationError = -1
   /\ status_value SocketError = -1)
  /\ (forall timeout address lsap size name callback,
        returns (irda_socket_open p None s) (status_value InvalidArgument)
        /\ returns (irda_socket_close p None s)
             (status_value InvalidArgument)
        /\ returns (irda_socket_set_timeout p None timeout s)
             (status_value InvalidArgument)
        /\ returns (irda_socket_discover p None callback s)
             (status_value InvalidArgument)
        /\ returns (irda_socket_connect_name p None address name s)
             (status_value InvalidArgument)
        /\ returns (irda_socket_connect_lsap p None address lsap s)
             (status_value InvalidArgument)
        /\ returns (irda_socket_available p None s)
             (status_value InvalidArgument)
        /\ returns (irda_socket_read p None size s)
             (status_value InvalidArgument)
        /\ returns (irda_socket_write p None size s)
             (status_value InvalidArgument))
  /\ (forall o r rest,
        script s = r :: rest -> rc r = 0 ->
        returns (irda_socket_open p (Some o) s)
          (status_value AllocationError))
  /\ (forall o r_malloc r_socket rest,
        script s = r_malloc :: r_socket :: rest ->
        rc r_malloc <> 0 -> rc r_socket = invalid_fd p ->
        returns (irda_socket_open p (Some o) s) (status_value SocketError))
  /\ (forall r_shutdown r_close rest,
        script s = r_shutdown :: r_close :: rest -> rc r_close <> 0 ->
        returns (irda_socket_close p (Some l) s) (status_value SocketError))
  /\ (forall callback waiting r rest,
        Forall blocked waiting -> (length waiting <= 4)%nat ->
        script s = waiting ++ r :: rest -> failed r ->
        returns (irda_socket_discover p (Some l) callback s)
          (status_value SocketError))
  /\ (forall address name lsap r rest,
        script s = r :: rest -> rc r <> 0 ->
        returns (irda_socket_connect_name p (Some l) address name s)
          (status_value SocketError)
        /\ returns (irda_socket_connect_lsap p (Some l) address lsap s)
             (status_value SocketError)
        /\ returns (irda_socket_available p (Some l) s)
             (status_value SocketError))
  /\ (forall size rounds r rest,
        fits_fd_set p d ->
        progress rounds -> received rounds < size <= C.UINT_MAX ->
        script s = answers rounds ++ r :: rest -> rc r < 0 ->
        returns (irda_socket_read p (Some l) size s)
          (status_value SocketError))
  /\ (forall size rounds r r' rest,
        fits_fd_set p d ->
        progress rounds -> received rounds < size <= C.UINT_MAX ->
        script s = answers rounds ++ r :: r' :: rest ->
        0 < rc r -> rc r' < 0 ->
        returns (irda_socket_read p (Some l) size s)
          (status_value SocketError))
  /\ (forall size sends r rest,
        Forall accepted sends ->
        sent sends < size <= C.UINT_MAX ->
        script s = sends ++ r :: rest -> rc r < 0 ->
        returns (irda_socket_write p (Some l) size s)
          (status_value SocketError))
  /\ (forall address name r rest,
        script s = r :: rest -> rc r <> 0 ->
        exists s',
          irda_socket_connect_name p (Some l) address name s
          = Ret (status_value SocketError) s'
          /\ irda_errcode p s' = Ret (err r) s').
Proof.
  intros Hv. split; [done|].
  split; [by intros; repeat split; apply returns_Ret|].
  split.
  { intros o r rest Hscript Hrc.
    rewrite (irda_socket_open_no_memory _ _ _ _ Hscript Hrc).
    apply returns_Ret. }
  split.
  { intros o r_malloc r_socket rest Hscript Hm Hs.
    rewrite (irda_socket_open_no_socket _ _ _ _ _ Hscript Hm Hs).
    apply returns_Ret. }
  split.
  { intros r_shutdown r_close rest Hscript Hrc.
    rewrite (irda_socket_close_outcome l d s _ _ _ Hv Hscript).
    destruct (Z.eqb_spec (rc r_close) 0); [done|].
    apply returns_Ret. }
  split.
  { intros callback waiting r rest Hb Hlen Hscript Hfail.
    destruct (irda_socket_discover_waiting l d waiting r rest s)
      as [fuel Hrun]; [done | done | done | done |].
    unfold irda_socket_discover, bind. rewrite Hrun.
    erewrite discover_poll_failed; [|done|reflexivity|done].
    apply returns_Ret. }
  split.
  { intros address name lsap r rest Hscript Hrc.
    unfold irda_socket_connect_name, irda_socket_connect_lsap.
    rewrite !(connect_peer_outcome l d _ _ _ _ Hv Hscript).
    rewrite (irda_socket_available_outcome l d _ _ _ Hv Hscript).
    destruct (Z.eqb_spec (rc r) 0); [done|].
    repeat split; apply returns_Ret. }
  split.
  { intros size rounds r rest Hfd Hp Hsize Hscript Hrc.
    destruct (irda_socket_read_rounds l d size rounds [r] rest s)
      as [fuel ->]; [done | done | done | lia | done |].
    erewrite read_loop_select_failed; [|done|lia|reflexivity|done].
    apply returns_Ret. }
  split.
  { intros size rounds r r' rest Hfd Hp Hsize Hscript Hr Hr'.
    destruct (irda_socket_read_rounds l d size rounds [r; r'] rest s)
      as [fuel ->]; [done | done | done | lia | done |].
    erewrite read_loop_recv_failed; [|done|lia|reflexivity|done|done].
    apply returns_Ret. }
  split.
  { intros size sends r rest Hp Hsize Hscript Hrc.
    destruct (irda_socket_write_sends l d size sends r rest s) as [fuel ->];
      [done | done | done | done |].
    erewrite write_loop_failed; [|done|lia|reflexivity|done].
    apply returns_Ret. }
  intros address name r rest Hscript Hrc.
  unfold irda_socket_connect_name.
  rewrite (connect_peer_outcome l d _ _ _ _ Hv Hscript).
  destruct (Z.eqb_spec (rc r) 0); [done|].
  eexists. split; reflexivity.
Qed.

(** ** Opening and closing *)

(** X1.  An open that fails leaves the memory as it found it: the handle it
    may have allocated is freed again, no handle is added to the heap, and
    the caller's handle variable is not written. *)
Theorem irda_socket_open_failure_clean o r_malloc rest s :
  script s = r_malloc :: rest ->
  (rc r_malloc = 0 ->
   exists s',
     irda_socket_open p (Some o) s = Ret (-1) s'
     /\ heap s' = heap s /\ vars s' = vars s
     /\ log s' = log s ++ [Call_malloc; Call_message "malloc"])
  /\ (forall r_socket rest',
        rc r_malloc <> 0 -> rest = r_socket :: rest' ->
        rc r_socket = invalid_fd p ->
        exists s',
          irda_socket_open p (Some o) s = Ret (-1) s'
          /\ heap s' = heap s /\ vars s' = vars s
          /\ log s' = log s ++ [Call_malloc;
                                Call_socket (AF_IRDA p) SOCK_STREAM 0;
                                Call_message "socket";
                                Call_free (fresh (dom (heap s)))]).
Proof.
  intros Hscript. split.
  - intros Hm.
    rewrite (irda_socket_open_no_memory _ _ _ _ Hscript Hm).
    eexists. by repeat split.
  - intros r_socket rest' Hm -> Hs.
    rewrite (irda_socket_open_no_socket _ _ _ _ _ Hscript Hm Hs).
    eexists. by repeat split.
Qed.

(** X2.  Opening a handle and closing it again gives back what was taken:
    the handle is a new one, the descriptor that is shut down and closed is
    the one [socket] returned, and after the close the heap is the one from
    before the open, whether the release of the descriptor succeeded or
    not. *)
Theorem irda_socket_open_close_round_trip o r_malloc r_socket r_shutdown
    r_close rest s :
  script s = r_malloc :: r_socket :: r_shutdown :: r_close :: rest ->
  rc r_malloc <> 0 -> rc r_socket <> invalid_fd p ->
  exists l s1 s2,
    irda_socket_open p (Some o) s = Ret 0 s1
    /\ vars s1 !! o = Some (Some l)
    /\ heap s !! l = None
    /\ irda_socket_close p (Some l) s1
       = Ret (if rc r_close =? 0 then 0 else -1) s2
    /\ heap s2 = heap s
    /\ script s2 = rest
    /\ log s2 = log s
                ++ [Call_malloc; Call_socket (AF_IRDA p) SOCK_STREAM 0;
                    Call_shutdown (rc r_socket) 0; Call_close (rc r_socket)]
                ++ (if rc r_close =? 0 then []
                    else [Call_message (match p with
                                        | Win32 => "closesocket"
                                        | Posix => "close"
                                        end)])
                ++ [Call_free l].
Proof.
  intros Hscript Hm Hs.
  pose proof (irda_socket_open_socket o _ _ _ _ Hscript Hm) as Hopen.
  cbv zeta in Hopen.
  destruct (Z.eqb_spec (rc r_socket) (invalid_fd p)); [done|].
  set (l := fresh (dom (heap s))) in *.
  unfold bind, store_var, ret in Hopen.
  eexists l, _, _. split; [exact Hopen|].
  split; [cbn; apply lookup_insert_eq|].
  split; [apply not_elem_of_dom, is_fresh|].
  split.
  { eapply irda_socket_close_outcome; [|reflexivity].
    unfold valid. cbn. apply lookup_insert_eq. }
  cbn. split; [|split; [done|]].
  - rewrite delete_insert_eq. apply delete_id.
    apply not_elem_of_dom, is_fresh.
  - by rewrite <- !app_assoc.
Qed.

(** ** Connecting by name *)

Lemma c_str_nonzero (text : list byte) :
  Forall (fun b => b <> Byte.x00) (c_str text).
Proof.
  induction text as [|b text IH]; cbn [c_str]; [done|].
  destruct (Byte.eqb b Byte.x00) eqn:E; [done|].
  constructor; [|done]. intros Hb.
  apply Byte.byte_dec_lb in Hb. congruence.
Qed.

Lemma length_strncpy (name : list byte) (n : nat) :
  length (strncpy name n) = n.
Proof.
  unfold strncpy. rewrite length_firstn, length_app, repeat_length. lia.
Qed.

(** A string that leaves room for the terminator is copied whole, and
    terminated. *)
Lemma c_str_strncpy (name : list byte) (n : nat) :
  (length (c_str name) < n)%nat -> c_str (strncpy name n) = c_str name.
Proof.
  intros Hlen. unfold strncpy.
  rewrite firstn_app, (firstn_all2 (n:=n)) by lia.
  destruct (n - length (c_str name))%nat as [|k] eqn:E; [lia|].
  destruct n as [|n]; [lia|]. cbn [repeat firstn].
  apply c_str_terminated, c_str_nonzero.
Qed.

(** A string that fills the field or is longer is cut, and not
    terminated. *)
Lemma strncpy_cut (name : list byte) (n : nat) :
  (n <= length (c_str name))%nat -> strncpy name n = firstn n (c_str name).
Proof.
  intros Hlen. unfold strncpy. rewrite firstn_app.
  replace (n - length (c_str name))%nat with 0%nat by lia.
  by rewrite app_nil_r.
Qed.

(** X3.  [irda_socket_connect_name] passes to [connect] a peer address whose
    service-name field has 25 bytes: all zero for a null name; the name and
    its terminator when the name has fewer than 25 characters; and the
    first 25 characters of the name, with no terminator in the field, when
    it has 25 or more.  The device address lies in it as in the peer
    address of [irda_socket_connect_lsap], and the selector field, where
    there is one, is zero. *)
Theorem irda_socket_connect_name_peer l d address name r rest s :
  valid s l d -> script s = r :: rest ->
  let peer := peer_name p address name in
  irda_socket_connect_name p (Some l) address name s
  = Ret (if rc r =? 0 then 0 else -1)
        (after s (Call_connect p (fd d) peer
                  :: (if rc r =? 0 then [] else [Call_message "connect"]))
           (err r) rest)
  /\ length (service_field peer) = 25%nat
  /\ (forall host,
        peer_id_bytes host peer = object_repr (id_order host p) address)
  /\ peer_selector peer = match p with Win32 => None | Posix => Some 0 end
  /\ match name with
     | None => service_field peer = repeat Byte.x00 25
     | Some text =>
         ((length (c_str text) < 25)%nat -> peer_service peer = c_str text)
         /\ ((25 <= length (c_str text))%nat ->
             service_field peer = firstn 25 (c_str text)
             /\ Forall (fun b => b <> Byte.x00) (service_field peer))
     end.
Proof.
  intros Hv Hscript peer.
  split; [by apply connect_peer_outcome|].
  assert (Hfield : service_field peer
                   = match name with
                     | Some text => strncpy text 25
                     | None => memset_zero 25
                     end) by (subst peer; by destruct p).
  assert (Hservice : peer_service peer = c_str (service_field peer))
    by (subst peer; by destruct p).
  split.
  { rewrite Hfield. destruct name; [apply length_strncpy | done]. }
  split; [subst peer; by destruct p|].
  split; [subst peer; by destruct p|].
  destruct name as [text|]; [|done].
  split.
  - intros Hshort. rewrite Hservice, Hfield. by apply c_str_strncpy.
  - intros Hlong. rewrite Hfield, strncpy_cut by done.
    split; [done|]. apply Forall_take, c_str_nonzero.
Qed.

(** ** Querying *)

(** X4.  A successful [irda_socket_available] returns the number of bytes
    the system reported, as long as an [int] can hold it; the one call it
    issued is the query on the descriptor of the handle.  Under [_WIN32] the
    number is an [unsigned long], and one above [INT_MAX] comes back
    negative. *)
Theorem irda_socket_available_count l d n r rest s :
  valid s l d -> script s = r :: rest ->
  rc r = 0 -> out r = Out_int n ->
  let s' := after s [Call_ioctl_FIONREAD (fd d)] (err r) rest in
  (0 <= n <= C.INT_MAX -> irda_socket_available p (Some l) s = Ret n s')
  /\ (p = Posix -> irda_socket_available p (Some l) s = Ret n s')
  /\ (p = Win32 -> C.INT_MAX < n <= C.UINT_MAX ->
      irda_socket_available p (Some l) s = Ret (n - 2 ^ 32) s').
Proof.
  intros Hv Hscript Hrc Hout s'.
  rewrite (irda_socket_available_outcome l d _ _ _ Hv Hscript).
  rewrite Hrc, Hout. cbn [Z.eqb]. cbv zeta.
  split; [|split].
  - intros Hn. destruct p; [|done]. by rewrite to_int_count.
  - by intros ->.
  - intros -> Hn. by rewrite to_int_high.
Qed.

(** ** The error code after a failure *)

(** X5.  When a discovery, a connection by selector, a query, a read or a
    write fails, the last-error code that [irda_errcode] returns afterwards
    is the one the failing system call left: printing the trace message
    has not changed it.  (A read gets as far as a system call on a
    descriptor that has a place in the [fd_set].) *)
Theorem failed_call_leaves_error_code l d s :
  valid s l d ->
  (forall callback waiting r rest,
     Forall blocked waiting -> (length waiting <= 4)%nat ->
     script s = waiting ++ r :: rest -> failed r ->
     exists s',
       irda_socket_discover p (Some l) callback s = Ret (-1) s'
       /\ irda_errcode p s' = Ret (err r) s')
  /\ (forall address lsap r rest,
        script s = r :: rest -> rc r <> 0 ->
        exists s',
          irda_socket_connect_lsap p (Some l) address lsap s = Ret (-1) s'
          /\ irda_errcode p s' = Ret (err r) s')
  /\ (forall r rest,
        script s = r :: rest -> rc r <> 0 ->
        exists s',
          irda_socket_available p (Some l) s = Ret (-1) s'
          /\ irda_errcode p s' = Ret (err r) s')
  /\ (forall size rounds r rest,
        fits_fd_set p d ->
        progress rounds -> received rounds < size <= C.UINT_MAX ->
        script s = answers rounds ++ r :: rest -> rc r < 0 ->
        exists s',
          irda_socket_read p (Some l) size s = Ret (-1) s'
          /\ irda_errcode p s' = Ret (err r) s')
  /\ (forall size rounds r r' rest,
        fits_fd_set p d ->
        progress rounds -> received rounds < size <= C.UINT_MAX ->
        script s = answers rounds ++ r :: r' :: rest ->
        0 < rc r -> rc r' < 0 ->
        exists s',
          irda_socket_read p (Some l) size s = Ret (-1) s'
          /\ irda_errcode p s' = Ret (err r') s')
  /\ (forall size sends r rest,
        Forall accepted sends -> sent sends < size <= C.UINT_MAX ->
        script s = sends ++ r :: rest -> rc r < 0 ->
        exists s',
          irda_socket_write p (Some l) size s = Ret (-1) s'
          /\ irda_errcode p s' = Ret (err r) s').
Proof.
  intros Hv.
  split.
  { intros callback waiting r rest Hb Hlen Hscript Hfail.
    destruct (irda_socket_discover_waiting l d waiting r rest s)
      as [fuel Hrun]; [done | done | done | done |].
    unfold irda_socket_discover, bind. rewrite Hrun.
    erewrite discover_poll_failed; [|done|reflexivity|done].
    eexists. split; reflexivity. }
  split.
  { intros address lsap r rest Hscript Hrc.
    unfold irda_socket_connect_lsap.
    rewrite (connect_peer_outcome l d _ _ _ _ Hv Hscript).
    destruct (Z.eqb_spec (rc r) 0); [done|].
    eexists. split; reflexivity. }
  split.
  { intros r rest Hscript Hrc.
    rewrite (irda_socket_available_outcome l d _ _ _ Hv Hscript).
    destruct (Z.eqb_spec (rc r) 0); [done|].
    eexists. split; reflexivity. }
  split.
  { intros size rounds r rest Hfd Hp Hsize Hscript Hrc.
    destruct (irda_socket_read_rounds l d size rounds [r] rest s)
      as [fuel ->]; [done | done | done | lia | done |].
    erewrite read_loop_select_failed; [|done|lia|reflexivity|done].
    eexists. split; reflexivity. }
  split.
  { intros size rounds r r' rest Hfd Hp Hsize Hscript Hr Hr'.
    destruct (irda_socket_read_rounds l d size rounds [r; r'] rest s)
      as [fuel ->]; [done | done | done | lia | done |].
    erewrite read_loop_recv_failed; [|done|lia|reflexivity|done|done].
    eexists. split; reflexivity. }
  intros size sends r rest Hp Hsize Hscript Hrc.
  destruct (irda_socket_write_sends l d size sends r rest s) as [fuel ->];
    [done | done | done | done |].
  erewrite write_loop_failed; [|done|lia|reflexivity|done].
  eexists. split; reflexivity.
Qed.

(** ** From discovery to connection *)

(** X6.  The address that a discovery reports for a device is the one that
    reaches it: passed to [irda_socket_connect_name] or to
    [irda_socket_connect_lsap], the address the callback was given for an
    entry puts into the peer address the very identifier bytes the system
    delivered in that entry, on both platforms and whatever the byte order
    of the machine. *)
Theorem discovered_address_connects_back host (data : device_list p)
    (i : nat) (e : device_info p) address text charset hints name lsap :
  records data !! i = Some e -> Z.of_nat i < DISCOVER_MAX_DEVICES ->
  invocation p data (Z.of_nat i)
  = Some (Call_callback address text charset hints) ->
  peer_id_bytes host (peer_name p address name) = raw_id host e
  /\ peer_id_bytes host (peer_lsap p address lsap) = raw_id host e.
Proof.
  intros He Hi Hcall.
  rewrite (invocation_record data i e He Hi) in Hcall.
  injection Hcall as <- _ _ _.
  destruct p; cbn [peer_id_bytes peer_name peer_lsap device_address raw_id
                   peer_irdaDeviceID sir_addr];
    [by rewrite be_split_be32 | done].
Qed.

(** ** Handles across calls *)

Lemma keeps_ret {A} (a : A) : keeps_handles (ret p a).
Proof. intros s a' s' H. by inversion H. Qed.

Lemma keeps_fail {A} f : keeps_handles (fail p (A:=A) f).
Proof. by intros s a s' H. Qed.

Lemma keeps_bind {A B} (m : M p A) (k : A -> M p B) :
  keeps_handles m -> (forall a, keeps_handles (k a)) ->
  keeps_handles (bind p m k).
Proof.
  intros Hm Hk s b s' Hrun. unfold bind in Hrun.
  destruct (m s) as [a s1|f] eqn:E; [|done].
  destruct (Hm _ _ _ E) as [H1 H2].
  destruct (Hk a _ _ _ Hrun) as [H3 H4]. split; congruence.
Qed.

Lemma keeps_deref l : keeps_handles (deref p l).
Proof.
  intros s a s' H. unfold deref in H.
  destruct (heap s !! l); by inversion H.
Qed.

Lemma keeps_syscall c : keeps_handles (syscall p c).
Proof.
  intros s a s' H. unfold syscall in H.
  destruct (script s); [done|]. by inversion H.
Qed.

Lemma keeps_emit c : keeps_handles (emit p c).
Proof. intros s a s' H. by inversion H. Qed.

Lemma keeps_errcode : keeps_handles (irda_errcode p).
Proof. intros s a s' H. by inversion H. Qed.

Lemma keeps_turns {A} (body : nat -> M p A) :
  (forall fuel, keeps_handles (body fuel)) ->
  keeps_handles (fun s => body (turns s) s).
Proof. intros Hb s a s' H. by eapply Hb. Qed.

Lemma keeps_FD_SET fd : keeps_handles (FD_SET p fd).
Proof.
  intros s a s' H. unfold FD_SET in H.
  destruct p; [by inversion H|]. destruct (_ && _); by inversion H.
Qed.

(** Closes the goals on straight-line code. *)
Ltac keeps :=
  repeat first
    [ apply keeps_ret | apply keeps_fail | apply keeps_deref
    | apply keeps_FD_SET
    | apply keeps_syscall | apply keeps_emit | apply keeps_errcode
    | (apply keeps_bind; [|intros ?]) ].

Lemma keeps_connect_peer l peer : keeps_handles (connect_peer p l peer).
Proof.
  unfold connect_peer. keeps.
  destruct (negb _); unfold TRACE; keeps.
Qed.

Lemma keeps_read_loop l size fuel :
  forall tv nbytes, keeps_handles (read_loop p fuel l size tv nbytes).
Proof.
  induction fuel as [|fuel IH]; intros tv nbytes; cbn [read_loop];
    [apply keeps_fail|].
  destruct (nbytes <? size); keeps. cbv zeta.
  destruct (_ <? 0); [unfold TRACE; keeps|].
  destruct (_ =? 0); keeps. cbv zeta.
  destruct (_ <? 0); [unfold TRACE; keeps|].
  destruct (_ =? 0); [keeps | apply IH].
Qed.

Lemma keeps_write_loop l size fuel :
  forall nbytes, keeps_handles (write_loop p fuel l size nbytes).
Proof.
  induction fuel as [|fuel IH]; intros nbytes; cbn [write_loop];
    [apply keeps_fail|].
  destruct (nbytes <? size); keeps. cbv zeta.
  destruct (_ <? 0); [unfold TRACE; keeps | apply IH].
Qed.

Lemma keeps_discover_poll l fuel :
  forall n data, keeps_handles (discover_poll p fuel l n data).
Proof.
  induction fuel as [|fuel IH]; intros n data; cbn [discover_poll];
    [apply keeps_fail|].
  keeps. cbv zeta.
  destruct (negb _); keeps.
  destruct (negb _); [unfold TRACE; keeps|].
  destruct (_ <=? _); keeps. apply IH.
Qed.

Lemma keeps_report data k :
  forall i, keeps_handles (report p k i data).
Proof.
  induction k as [|k IH]; intros i; cbn [report]; [apply keeps_ret|].
  destruct (invocation p data i); keeps. apply IH.
Qed.

(** X7.  Reading, writing, discovering, connecting and querying leave every
    handle as it was, whether they succeed or fail: the handle they were
    given is still live afterwards, with its descriptor and its timeout,
    and no handle variable of the caller has changed. *)
Theorem operations_keep_handles device size callback address name lsap :
  keeps_handles (irda_socket_read p device size)
  /\ keeps_handles (irda_socket_write p device size)
  /\ keeps_handles (irda_socket_discover p device callback)
  /\ keeps_handles (irda_socket_connect_name p device address name)
  /\ keeps_handles (irda_socket_connect_lsap p device address lsap)
  /\ keeps_handles (irda_socket_available p device)
  /\ keeps_handles (irda_errcode p).
Proof.
  destruct device as [l|];
    [|repeat apply conj; first [apply keeps_ret | apply keeps_errcode]].
  repeat apply conj.
  - unfold irda_socket_read. keeps.
    apply (keeps_turns (fun fuel => read_loop p fuel l size _ 0)).
    intros fuel. apply keeps_read_loop.
  - apply (keeps_turns (fun fuel => write_loop p fuel l size 0)).
    intros fuel. apply keeps_write_loop.
  - unfold irda_socket_discover. apply keeps_bind.
    + apply (keeps_turns (fun fuel => discover_poll p fuel l 0 (zero_list p))).
      intros fuel. apply keeps_discover_poll.
    + intros [status|data]; keeps.
      destruct callback; [apply keeps_report | apply keeps_ret].
  - apply keeps_connect_peer.
  - apply keeps_connect_peer.
  - unfold irda_socket_available. keeps. cbv zeta.
    destruct (negb _); unfold TRACE; keeps.
  - apply keeps_errcode.
Qed.

(** ** Transfers and the caller's buffer *)

Lemma to_uint_nonneg x : 0 <= C.to_uint x.
Proof. unfold C.to_uint. apply Z.mod_pos_bound. lia. Qed.

(** Closes [Forall (transfer_at size)] goals over explicit lists, given
    the fact for the one transfer call among them. *)
Ltac in_buffer H :=
  cbn [app];
  repeat first
    [ assumption
    | apply List.Forall_nil
    | apply List.Forall_cons; [ first [ exact H | exact I ] | ] ].

Lemma read_loop_within l size fuel :
  forall tv nbytes s v s',
  0 <= nbytes ->
  read_loop p fuel l size tv nbytes s = Ret v s' ->
  exists calls, log s' = log s ++ calls
                /\ Forall (transfer_at size) calls.
Proof.
  induction fuel as [|fuel IH]; intros tv nbytes s v s' Hn Hrun; [done|].
  cbn [read_loop] in Hrun.
  destruct (Z.ltb_spec nbytes size) as [Hlt|Hge].
  2:{ inversion Hrun; subst. exists []. by rewrite app_nil_r. }
  unfold bind at 1 in Hrun. unfold deref at 1 in Hrun.
  destruct (heap s !! l) as [d|] eqn:Hl; [|done].
  destruct (script s) as [|r rest] eqn:Hscript.
  { unfold bind, syscall in Hrun. by rewrite Hscript in Hrun. }
  rewrite (bind_Ret _ _ _ _ _ (syscall_after _ _ _ _ Hscript)) in Hrun.
  destruct (rc r <? 0).
  { inversion Hrun; subst. eexists. split; [by rewrite <- app_assoc|].
    by in_buffer I. }
  destruct (rc r =? 0).
  { inversion Hrun; subst. eexists. split; [done|]. by in_buffer I. }
  rewrite (bind_Ret _ _ _ d _ (deref_valid (after _ _ _ _) _ _ Hl)) in Hrun.
  destruct rest as [|r' rest].
  { by unfold bind, syscall in Hrun. }
  erewrite bind_Ret in Hrun by (apply syscall_after; reflexivity).
  cbv zeta in Hrun. rewrite after_after in Hrun.
  assert (Hrecv : transfer_at (p:=p) size
                    (Call_recv (fd d) nbytes
                       (length_arg p (size - nbytes))))
    by (cbn; split; [lia | done]).
  destruct (rc r' <? 0).
  { inversion Hrun; subst. eexists. split; [by rewrite <- app_assoc|].
    by in_buffer Hrecv. }
  destruct (rc r' =? 0).
  { inversion Hrun; subst. eexists. split; [done|]. by in_buffer Hrecv. }
  apply IH in Hrun; [|apply to_uint_nonneg].
  destruct Hrun as (calls & Hlog & Hcalls).
  eexists. split.
  - rewrite Hlog. cbn [log after]. by rewrite <- app_assoc.
  - cbn [app]. by in_buffer Hrecv.
Qed.

Lemma write_loop_within l size fuel :
  forall nbytes s v s',
  0 <= nbytes ->
  write_loop p fuel l size nbytes s = Ret v s' ->
  exists calls, log s' = log s ++ calls
                /\ Forall (transfer_at size) calls.
Proof.
  induction fuel as [|fuel IH]; intros nbytes s v s' Hn Hrun; [done|].
  cbn [write_loop] in Hrun.
  destruct (Z.ltb_spec nbytes size) as [Hlt|Hge].
  2:{ inversion Hrun; subst. exists []. by rewrite app_nil_r. }
  unfold bind at 1 in Hrun. unfold deref at 1 in Hrun.
  destruct (heap s !! l) as [d|] eqn:Hl; [|done].
  destruct (script s) as [|r rest] eqn:Hscript.
  { unfold bind, syscall in Hrun. by rewrite Hscript in Hrun. }
  rewrite (bind_Ret _ _ _ _ _ (syscall_after _ _ _ _ Hscript)) in Hrun.
  cbv zeta in Hrun.
  assert (Hsend : transfer_at (p:=p) size
                    (Call_send (fd d) nbytes
                       (length_arg p (size - nbytes))))
    by (cbn; split; [lia | done]).
  destruct (rc r <? 0).
  { inversion Hrun; subst. eexists. split; [by rewrite <- app_assoc|].
    by in_buffer Hsend. }
  apply IH in Hrun; [|apply to_uint_nonneg].
  destruct Hrun as (calls & Hlog & Hcalls).
  eexists. split.
  - rewrite Hlog. cbn [log after]. by rewrite <- app_assoc.
  - cbn [app]. by in_buffer Hsend.
Qed.

(** Where the length reaches the call as it is, the call stays inside the
    buffer and asks for at least one byte. *)
Lemma transfer_at_within size (c : call p) :
  p = Posix \/ size <= C.INT_MAX ->
  transfer_at size c -> within_buffer size c.
Proof.
  intros Hfit Hc.
  assert (Hlen : forall off, 0 <= off < size ->
                             length_arg p (size - off) = size - off).
  { intros off Hoff. unfold length_arg.
    destruct Hfit as [Hp|Hsize]; destruct p; try done; try discriminate.
    apply to_int_count. lia. }
  destruct c as [| | | | | | | | | | |fd' off len|fd' off len| |];
    try exact I; cbn in *; destruct Hc as [Hoff ->];
    rewrite Hlen by done; lia.
Qed.

(** X8.  Whatever the system answers, a read that returns has given every
    [recv] call an offset inside the caller's buffer and, as its length,
    the room left behind that offset, converted to the type of the length
    parameter of [recv].  Without [_WIN32], and under [_WIN32] for a buffer
    of at most [INT_MAX] bytes, the length is the room left itself: [recv]
    is never asked for bytes that do not fit the buffer, and never for
    none. *)
Theorem irda_socket_read_within_buffer device size s v s' :
  irda_socket_read p device size s = Ret v s' ->
  exists calls,
    log s' = log s ++ calls
    /\ Forall (transfer_at size) calls
    /\ (p = Posix \/ size <= C.INT_MAX -> Forall (within_buffer size) calls).
Proof.
  intros Hrun.
  assert (Hcalls : exists calls, log s' = log s ++ calls
                                 /\ Forall (transfer_at size) calls).
  { destruct device as [l|].
    2:{ inversion Hrun; subst. exists []. by rewrite app_nil_r. }
    destruct (heap s !! l) as [d|] eqn:Hl.
    - destruct (irda_socket_read_returns _ _ _ _ _ _ Hl Hrun) as [_ Hloop].
      by eapply read_loop_within in Hloop.
    - unfold irda_socket_read, bind, deref in Hrun. by rewrite Hl in Hrun. }
  destruct Hcalls as (calls & Hlog & Hcalls).
  exists calls. split; [done|]. split; [done|].
  intros Hfit. eapply Forall_impl; [exact Hcalls|].
  intros c. by apply transfer_at_within.
Qed.

(** X9.  Whatever the system answers, a write that returns has given every
    [send] call an offset inside the caller's buffer and, as its length,
    the bytes left behind that offset, converted to the type of the length
    parameter of [send].  Without [_WIN32], and under [_WIN32] for a buffer
    of at most [INT_MAX] bytes, the length is the number of bytes left
    itself: [send] is never passed bytes from beyond the buffer, and never
    none. *)
Theorem irda_socket_write_within_buffer device size s v s' :
  irda_socket_write p device size s = Ret v s' ->
  exists calls,
    log s' = log s ++ calls
    /\ Forall (transfer_at size) calls
    /\ (p = Posix \/ size <= C.INT_MAX -> Forall (within_buffer size) calls).
Proof.
  intros Hrun.
  assert (Hcalls : exists calls, log s' = log s ++ calls
                                 /\ Forall (transfer_at size) calls).
  { destruct device as [l|].
    2:{ inversion Hrun; subst. exists []. by rewrite app_nil_r. }
    by eapply write_loop_within in Hrun. }
  destruct Hcalls as (calls & Hlog & Hcalls).
  exists calls. split; [done|]. split; [done|].
  intros Hfit. eapply Forall_impl; [exact Hcalls|].
  intros c. by apply transfer_at_within.
Qed.

(** ** The deadline of a read *)

(** A read loop that is entered with room in the buffer and returns has
    called [select] first, with the timeout structure it was entered
    with. *)
Lemma read_loop_first_select l d size fuel tv nbytes s v s' :
  valid s l d -> nbytes < size ->
  read_loop p fuel l size tv nbytes s = Ret v s' ->
  exists calls,
    log s' = log s ++ Call_select (fd d + 1) (fd d) (deadline d tv) :: calls.
Proof.
  intros Hv Hlt Hrun. destruct fuel as [|fuel]; [done|].
  cbn [read_loop] in Hrun.
  destruct (Z.ltb_spec nbytes size); [|lia].
  rewrite (bind_Ret _ _ _ _ _ (deref_valid _ _ _ Hv)) in Hrun.
  destruct (script s) as [|r rest] eqn:Hscript.
  { unfold bind, syscall in Hrun. by rewrite Hscript in Hrun. }
  rewrite (bind_Ret _ _ _ _ _ (syscall_after _ _ _ _ Hscript)) in Hrun.
  destruct (rc r <? 0).
  { inversion Hrun; subst. eexists. cbn.
    rewrite <- ?app_assoc. reflexivity. }
  destruct (rc r =? 0).
  { inversion Hrun; subst. by eexists. }
  rewrite (bind_Ret _ _ _ d _ (deref_valid _ _ _ (valid_after _ _ _ _ _ _ Hv)))
    in Hrun.
  destruct rest as [|r' rest].
  { by unfold bind, syscall in Hrun. }
  erewrite bind_Ret in Hrun by (apply syscall_after; reflexivity).
  cbv zeta in Hrun. rewrite after_after in Hrun.
  destruct (rc r' <? 0).
  { inversion Hrun; subst. eexists. cbn.
    rewrite <- ?app_assoc. reflexivity. }
  destruct (rc r' =? 0).
  { inversion Hrun; subst. eexists. cbn.
    rewrite <- ?app_assoc. reflexivity. }
  eapply read_loop_deadlines in Hrun; [|done].
  destruct Hrun as (calls & Hlog & _).
  eexists. rewrite Hlog. cbn. rewrite <- ?app_assoc. reflexivity.
Qed.

(** X10.  A timeout that is not negative reaches the first [select] of a
    read without loss: the first call of a read that returns, of a buffer
    that is not empty, is a [select] on the descriptor whose deadline is a
    well-formed [struct timeval], with less than a second in its
    microseconds field, and denotes exactly the timeout of the handle,
    which is in milliseconds.  (A later [select] of the same read is given
    the structure as the one before left it.) *)
Theorem read_deadline_denotes_timeout l d size s v s' :
  valid s l d -> 0 <= timeout d -> 0 < size ->
  irda_socket_read p (Some l) size s = Ret v s' ->
  exists tv calls,
    log s' = log s ++ Call_select (fd d + 1) (fd d) (Some tv) :: calls
    /\ 0 <= tv_sec tv
    /\ 0 <= tv_usec tv < 1000000
    /\ tv_sec tv * 1000000 + tv_usec tv = timeout d * 1000.
Proof.
  intros Hv Ht Hsize Hrun.
  destruct (irda_socket_read_returns _ _ _ _ _ _ Hv Hrun) as [_ Hloop].
  destruct (read_loop_first_select _ _ _ _ _ _ _ _ _ Hv Hsize Hloop)
    as [calls Hlog].
  rewrite deadline_nonnegative, initial_tv_nonnegative in Hlog by done.
  eexists _, calls. split; [exact Hlog|]. cbn [tv_sec tv_usec].
  pose proof (Z.mod_pos_bound (timeout d) 1000 ltac:(lia)).
  pose proof (Z.div_mod (timeout d) 1000 ltac:(lia)).
  pose proof (Z.div_pos (timeout d) 1000 Ht ltac:(lia)).
  lia.
Qed.

End Verification.

(** * Start-up, shut-down and error messages *)

Section Messages.

Import Runtime.

Variable order : evaluation.
Implicit Types (s : state) (r : reply).

Lemma bind_run {A B} (m : M A) (k : A -> M B) s a s' :
  m s = Ret a s' -> bind m k s = k a s'.
Proof. unfold bind. by intros ->. Qed.

Lemma syscall_run s c r rest :
  script s = r :: rest -> syscall c s = Ret r (after s [c] (err r) rest).
Proof. unfold syscall. by intros ->. Qed.

Lemma length_stored_in (text b : list byte) :
  length (stored_in text b) = length b.
Proof.
  unfold stored_in. rewrite length_firstn, length_app, length_skipn. lia.
Qed.

(** A message and its terminator that fit the buffer lie at its start. *)
Lemma stored_in_fits (msg b : list byte) :
  (length msg < length b)%nat ->
  stored_in (msg ++ [Byte.x00]) b
  = msg ++ Byte.x00 :: skipn (S (length msg)) b.
Proof.
  intros Hlen. unfold stored_in.
  rewrite length_app. cbn [length]. rewrite Nat.add_1_r.
  rewrite <- app_assoc. cbn [app].
  apply firstn_all2.
  rewrite length_app. cbn [length]. rewrite length_skipn. lia.
Qed.

(** The loop in bounds: it ends, and changes nothing but bytes of the
    buffer. *)
Lemma strip_in_bounds (n : nat) :
  forall s, (n <= length (buffer s))%nat ->
  exists k b, strip n s = Ret k (holding b s)
              /\ length b = length (buffer s).
Proof.
  induction n as [|n IH]; intros s Hn; cbn [strip].
  - exists 0%nat, (buffer s). by destruct s.
  - destruct (lookup_lt_is_Some_2 (buffer s) n ltac:(lia)) as [c Hc].
    unfold bind at 1. unfold load at 1. rewrite Hc.
    destruct (trailing c).
    + unfold bind, store. rewrite Hc.
      destruct (IH (holding (<[n := Byte.x00]> (buffer s)) s))
        as (k & b & Hrun & Hlen).
      { cbn. rewrite length_insert. lia. }
      exists k, b. split.
      * destruct s. exact Hrun.
      * rewrite Hlen. cbn. apply length_insert.
    + exists (S n), (buffer s). by destruct s.
Qed.

(** The loop over a trailing run: every character of it becomes a
    terminator. *)
Lemma strip_trailing (removed : list byte) :
  forall kept tail s,
  Forall (fun c => trailing c = true) removed ->
  buffer s = kept ++ removed ++ tail ->
  strip (length kept + length removed) s
  = strip (length kept)
      (holding (kept ++ repeat Byte.x00 (length removed) ++ tail) s).
Proof.
  induction removed as [|c removed IH] using rev_ind;
    intros kept tail s Hrun Hb.
  - cbn [length repeat app] in *. rewrite Nat.add_0_r, <- Hb. by destruct s.
  - apply Forall_app in Hrun as [Hrun Hc]. inversion Hc as [|? ? Hc' _]; subst.
    rewrite <- app_assoc in Hb. cbn [app] in Hb.
    rewrite length_app. cbn [length].
    replace (length kept + (length removed + 1))%nat
      with (S (length kept + length removed)) by lia.
    cbn [strip].
    assert (Hat : buffer s !! (length kept + length removed)%nat = Some c).
    { rewrite Hb, app_assoc, <- length_app. apply list_lookup_middle. done. }
    unfold bind at 1. unfold load at 1. rewrite Hat, Hc'.
    unfold bind at 1. unfold store at 1. rewrite Hat.
    rewrite (IH kept (Byte.x00 :: tail)); [|done|].
    + f_equal. unfold holding. cbn. f_equal.
      rewrite repeat_app. cbn [repeat]. by rewrite <- app_assoc.
    + cbn. rewrite Hb, app_assoc, <- length_app.
      rewrite insert_app_r_alt by lia.
      rewrite Nat.sub_diag. cbn. by rewrite <- app_assoc.
Qed.

(** The loop at a character that stays. *)
Lemma strip_kept (kept tail : list byte) s :
  (forall c, last kept = Some c -> trailing c = false) ->
  buffer s = kept ++ tail ->
  strip (length kept) s = Ret (length kept) s.
Proof.
  intros Hlast Hb.
  destruct kept as [|c kept _] using rev_ind; [done|].
  rewrite length_app. cbn [length]. rewrite Nat.add_1_r. cbn [strip].
  assert (Hat : buffer s !! length kept = Some c).
  { rewrite Hb, <- app_assoc. by apply list_lookup_middle. }
  unfold bind, load. rewrite Hat.
  rewrite (Hlast c); [done|]. by rewrite last_snoc.
Qed.

(** ** The text of an error *)

(** [irda_errmsg] under [_WIN32], when the count [FormatMessage] returns
    does not exceed the buffer. *)
Lemma irda_errmsg_in_bounds r rest s :
  script s = r :: rest ->
  0 <= rc r <= Z.of_nat (length (buffer s)) ->
  exists k b,
    irda_errmsg Win32 s
    = Ret (if negb (Nat.eqb k 0) then Some Static_buffer else None)
          (holding b (after s [format_request (last_error s)] (err r) rest))
    /\ length b = length (buffer s).
Proof.
  intros Hscript Hrc. unfold irda_errmsg. cbv zeta.
  rewrite (bind_run get_error _ _ _ _ eq_refl).
  rewrite (bind_run _ _ _ _ _ (syscall_run _ _ _ _ Hscript)).
  set (s1 := after s _ (err r) rest).
  assert (Htake : exists b1, take_chars (out r) s1 = Ret tt (holding b1 s1)
                             /\ length b1 = length (buffer s)).
  { destruct (out r) as [| |text]; cbn [take_chars].
    - exists (buffer s). by split.
    - exists (buffer s). by split.
    - eexists. split; [reflexivity|]. apply length_stored_in. }
  destruct Htake as (b1 & Htake & Hlen1).
  rewrite (bind_run _ _ _ _ _ Htake).
  destruct (strip_in_bounds (Z.to_nat (C.to_uint (rc r))) (holding b1 s1))
    as (k & b & Hstrip & Hlen).
  { cbn. rewrite Hlen1. unfold C.to_uint.
    pose proof (Z.mod_le (rc r) (2 ^ 32) ltac:(lia) ltac:(lia)).
    pose proof (Z.mod_pos_bound (rc r) (2 ^ 32) ltac:(lia)). lia. }
  rewrite (bind_run _ _ _ _ _ Hstrip).
  exists k, b. split; [|by rewrite Hlen].
  by destruct (negb (Nat.eqb k 0)).
Qed.

(** [irda_errmsg] under [_WIN32], when [FormatMessage] stored the message
    [msg], of which [kept] stays. *)
Lemma irda_errmsg_formatted msg kept r rest s :
  script s = r :: rest -> length (buffer s) = 256%nat ->
  formatted msg r -> (length msg < 256)%nat -> stripped msg kept ->
  exists b,
    irda_errmsg Win32 s
    = Ret (match kept with [] => None | _ => Some Static_buffer end)
          (holding b (after s [format_request (last_error s)] (err r) rest))
    /\ c_str b = kept
    /\ length b = 256%nat.
Proof.
  intros Hscript Hsize (Hrc & Hout & Hnz) Hlen (removed & Hmsg & Hrem & Hlast).
  unfold irda_errmsg. cbv zeta.
  rewrite (bind_run get_error _ _ _ _ eq_refl).
  rewrite (bind_run _ _ _ _ _ (syscall_run _ _ _ _ Hscript)).
  set (s1 := after s _ (err r) rest).
  rewrite Hout. unfold bind at 1. cbn [take_chars].
  rewrite Hrc, to_uint_id, Nat2Z.id by (unfold C.is_uint, C.UINT_MAX; lia).
  cbn [buffer s1 after]. rewrite stored_in_fits by lia.
  set (tail := skipn (S (length msg)) (buffer s)).
  rewrite Hmsg, length_app.
  match goal with
  | |- context [bind (strip _) _ ?st] =>
      assert (Hstrip : strip (length kept + length removed) st
                       = Ret (length kept)
                           (holding (kept ++ repeat Byte.x00 (length removed)
                                     ++ Byte.x00 :: tail) st))
  end.
  { erewrite strip_trailing;
      [|done|cbn [buffer]; rewrite <- app_assoc; reflexivity].
    eapply strip_kept; [done|reflexivity]. }
  rewrite (bind_run _ _ _ _ _ Hstrip).
  eexists. split; [|split].
  - destruct kept; reflexivity.
  - rewrite Hmsg in Hnz. apply Forall_app in Hnz as [Hk _].
    replace (repeat Byte.x00 (length removed) ++ Byte.x00 :: tail)
      with (Byte.x00 :: repeat Byte.x00 (length removed) ++ tail)
      by (by rewrite app_comm_cons, repeat_cons, <- app_assoc).
    by apply c_str_terminated.
  - rewrite !length_app, repeat_length. cbn [length]. subst tail.
    rewrite length_skipn, Hsize, Hmsg, length_app in *. lia.
Qed.

(** X11.  Under [_WIN32], [irda_errmsg] asks the system for the text of the
    current last-error code and returns it, in its static buffer, without
    the newline, carriage-return and period characters at its end; it
    returns a null pointer when nothing is left of the text.  The buffer
    keeps its 256 bytes. *)
Theorem irda_errmsg_strips_trailing msg kept r rest s :
  script s = r :: rest -> length (buffer s) = 256%nat ->
  formatted msg r -> (length msg < 256)%nat -> stripped msg kept ->
  exists s',
    irda_errmsg Win32 s
    = Ret (match kept with [] => None | _ => Some Static_buffer end) s'
    /\ string_at s' Static_buffer = kept
    /\ length (buffer s') = 256%nat
    /\ log s' = log s ++ [Call_FormatMessage 4608 (last_error s) 256]
    /\ last_error s' = err r
    /\ script s' = rest.
Proof.
  intros Hscript Hsize Hr Hlen Hkept.
  destruct (irda_errmsg_formatted msg kept r rest s)
    as (b & Hrun & Hstr & Hb); [done..|].
  eexists. split; [exact Hrun|]. by repeat split.
Qed.

(** ** The trace macro *)

Lemma TRACE_in_bounds expr r_text r_message rest s :
  script s = r_text :: r_message :: rest ->
  0 <= rc r_text <= Z.of_nat (length (buffer s)) ->
  exists text b,
    TRACE Win32 order expr s
    = Ret tt {| last_error := last_error s; buffer := b; script := rest;
                log := log s ++ [format_request (last_error s);
                                 Call_message expr text (last_error s)] |}
    /\ length b = length (buffer s).
Proof.
  intros Hscript Hrc. unfold TRACE.
  rewrite (bind_run get_error _ _ _ _ eq_refl).
  destruct (irda_errmsg_in_bounds _ _ _ Hscript Hrc) as (k & b & Hrun & Hlen).
  rewrite (bind_run _ _ _ _ _ Hrun).
  unfold bind, message, bind, syscall, set_error, ret. cbn.
  eexists _, b. split; [|done].
  by rewrite <- app_assoc.
Qed.

(** X12.  [TRACE] leaves the last-error code as it found it, whatever the
    functions it calls to build and print its message do to it.  It asks
    for the text of that code, and prints it with the expression that
    failed; on the way the static buffer keeps its size, and without
    [_WIN32] it is not touched.  The code it prints is the saved one,
    except that without [_WIN32] a compiler that calls [strerror] before it
    reads [errno] for the last argument prints what [strerror] left. *)
Theorem TRACE_restores_last_error p expr r_text r_message rest s :
  script s = r_text :: r_message :: rest ->
  (p = Win32 -> 0 <= rc r_text <= Z.of_nat (length (buffer s))) ->
  exists s' text,
    TRACE p order expr s = Ret tt s'
    /\ last_error s' = last_error s
    /\ script s' = rest
    /\ log s' = log s
                ++ [match p with
                    | Win32 => Call_FormatMessage 4608 (last_error s) 256
                    | Posix => Call_strerror (last_error s)
                    end;
                    Call_message expr text
                      (match p, order with
                       | Posix, Strerror_first => err r_text
                       | _, _ => last_error s
                       end)]
    /\ length (buffer s') = length (buffer s)
    /\ (p = Posix -> buffer s' = buffer s).
Proof.
  intros Hscript Hrc. destruct p.
  - destruct (TRACE_in_bounds expr _ _ _ _ Hscript (Hrc eq_refl))
      as (text & b & Hrun & Hlen).
    eexists _, text. split; [exact Hrun|]. by repeat split.
  - unfold TRACE.
    rewrite (bind_run get_error _ _ _ _ eq_refl).
    destruct order;
      unfold bind, get_error, strerror, message, bind, syscall, set_error,
        ret;
      rewrite Hscript; cbn;
      eexists _, _; (split; [reflexivity|]); cbn;
      rewrite <- app_assoc; by repeat split.
Qed.

(** X13.  Under [_WIN32] the text that [irda_errmsg] returns lives in one
    static buffer, which [TRACE] uses too: after a later [TRACE], which
    the module runs whenever a system call fails, the pointer returned
    before reads the text of the later error, the one [TRACE] printed. *)
Theorem TRACE_overwrites_message expr msg1 kept1 msg2 kept2 r1 r2 r_message
    rest s :
  script s = r1 :: r2 :: r_message :: rest -> length (buffer s) = 256%nat ->
  formatted msg1 r1 -> (length msg1 < 256)%nat -> stripped msg1 kept1 ->
  formatted msg2 r2 -> (length msg2 < 256)%nat -> stripped msg2 kept2 ->
  kept1 <> [] -> kept2 <> [] ->
  exists s1 s2,
    irda_errmsg Win32 s = Ret (Some Static_buffer) s1
    /\ string_at s1 Static_buffer = kept1
    /\ TRACE Win32 order expr s1 = Ret tt s2
    /\ string_at s2 Static_buffer = kept2
    /\ log s2 = log s1 ++ [Call_FormatMessage 4608 (err r1) 256;
                           Call_message expr (Some kept2) (err r1)].
Proof.
  intros Hscript Hsize Hr1 Hlen1 Hk1 Hr2 Hlen2 Hk2 Hne1 Hne2.
  destruct (irda_errmsg_formatted msg1 kept1 r1 (r2 :: r_message :: rest) s)
    as (b1 & Hrun1 & Hstr1 & Hb1); [done..|].
  destruct (irda_errmsg_formatted msg2 kept2 r2 (r_message :: rest)
              (holding b1 (after s [format_request (last_error s)] (err r1)
                             (r2 :: r_message :: rest))))
    as (b2 & Hrun2 & Hstr2 & Hb2); [done..|].
  destruct kept1 as [|c1 kept1]; [done|].
  destruct kept2 as [|c2 kept2]; [done|].
  eexists _, _. split; [exact Hrun1|]. split; [exact Hstr1|].
  unfold TRACE.
  rewrite (bind_run get_error _ _ _ _ eq_refl).
  rewrite (bind_run _ _ _ _ _ Hrun2).
  unfold bind, message, bind, syscall, set_error, ret. cbn.
  split; [reflexivity|]. cbn. rewrite Hstr2.
  split; [done|]. by rewrite <- !app_assoc.
Qed.

(** X14.  Under [_WIN32], when [FormatMessage] finds no text for the error
    and returns 0, [irda_errmsg] returns a null pointer, and a [TRACE] hands
    that null pointer to [message] as the text to print. *)
Theorem TRACE_without_text expr r_text r_message rest s :
  script s = r_text :: r_message :: rest -> rc r_text = 0 ->
  exists b,
    irda_errmsg Win32 s
    = Ret None (holding b (after s [Call_FormatMessage 4608 (last_error s) 256]
                             (err r_text) (r_message :: rest)))
    /\ TRACE Win32 order expr s
       = Ret tt {| last_error := last_error s; buffer := b; script := rest;
                   log := log s
                          ++ [Call_FormatMessage 4608 (last_error s) 256;
                              Call_message expr None (last_error s)] |}.
Proof.
  intros Hscript Hrc.
  assert (Hrun : exists b,
            irda_errmsg Win32 s
            = Ret None
                (holding b (after s [format_request (last_error s)]
                              (err r_text) (r_message :: rest)))).
  { unfold irda_errmsg. cbv zeta.
    rewrite (bind_run get_error _ _ _ _ eq_refl).
    rewrite (bind_run _ _ _ _ _ (syscall_run _ _ _ _ Hscript)).
    rewrite Hrc. destruct (out r_text); by eexists. }
  destruct Hrun as [b Hrun]. exists b. split; [exact Hrun|].
  unfold TRACE.
  rewrite (bind_run get_error _ _ _ _ eq_refl).
  rewrite (bind_run _ _ _ _ _ Hrun).
  unfold bind, message, bind, syscall, set_error, ret. cbn.
  by rewrite <- app_assoc.
Qed.

(** ** Start-up and shut-down *)

(** The check of the two version bytes accepts one version word. *)
Lemma version_bytes (v : Z) :
  0 <= v < 65536 ->
  negb (LOBYTE v =? 2) || negb (HIBYTE v =? 2) = negb (v =? MAKEWORD 2 2).
Proof.
  intros Hv. change (MAKEWORD 2 2) with 514. unfold LOBYTE, HIBYTE.
  rewrite !land_255, Z.shiftr_div_pow2 by lia. change (2 ^ 8) with 256.
  destruct (Z.eqb_spec (v mod 256) 2), (Z.eqb_spec (v / 256 mod 256) 2),
    (Z.eqb_spec v 514); try done; exfalso;
    Z.to_euclidean_division_equations; lia.
Qed.

(** X15.  Under [_WIN32], [irda_init] requests Winsock 2.2 and returns 0
    exactly when [WSAStartup] succeeds and reports version 2.2; otherwise it
    returns -1.  When the version is another one it calls [WSACleanup]
    before it returns, so that a start-up it reports as failed is undone;
    when [WSAStartup] itself fails it does not, and the last-error code is
    then still the one that call left. *)
Theorem irda_init_outcome r rest s :
  script s = r :: rest ->
  let wVersion := match out r with Out_wsadata v => v | _ => 0 end in
  0 <= wVersion < 65536 ->
  let startup := Call_WSAStartup (MAKEWORD 2 2) in
  MAKEWORD 2 2 = 514
  /\ (rc r = 0 -> wVersion = 514 ->
      irda_init Win32 order s = Ret 0 (after s [startup] (err r) rest))
  /\ (forall r_text r_message rest',
        rc r <> 0 -> rest = r_text :: r_message :: rest' ->
        0 <= rc r_text <= Z.of_nat (length (buffer s)) ->
        exists s' text,
          irda_init Win32 order s = Ret (-1) s'
          /\ last_error s' = err r
          /\ script s' = rest'
          /\ log s' = log s
                      ++ [startup; Call_FormatMessage 4608 (err r) 256;
                          Call_message "WSAStartup" text (err r)])
  /\ (forall r_text r_message r_cleanup rest',
        rc r = 0 -> wVersion <> 514 ->
        rest = r_text :: r_message :: r_cleanup :: rest' ->
        0 <= rc r_text <= Z.of_nat (length (buffer s)) ->
        exists s' text,
          irda_init Win32 order s = Ret (-1) s'
          /\ last_error s' = err r_cleanup
          /\ script s' = rest'
          /\ log s' = log s
                      ++ [startup; Call_FormatMessage 4608 (err r) 256;
                          Call_message "wsaData.wVersion" text (err r);
                          Call_WSACleanup]).
Proof.
  intros Hscript wVersion Hv startup.
  split; [reflexivity|].
  unfold irda_init. cbv zeta.
  rewrite (bind_run _ _ _ _ _ (syscall_run _ _ _ _ Hscript)).
  fold wVersion. rewrite (version_bytes _ Hv). fold startup.
  change (MAKEWORD 2 2) with 514.
  set (s1 := after s [startup] (err r) _).
  split; [|split].
  - intros -> ->. done.
  - intros r_text r_message rest' Hne -> Hrc.
    destruct (TRACE_in_bounds "WSAStartup" r_text r_message rest' s1
                eq_refl Hrc) as (text & b & Hrun & _).
    destruct (Z.eqb_spec (rc r) 0); [done|]. cbn [negb].
    rewrite (bind_run _ _ _ _ _ Hrun).
    eexists _, text. split; [reflexivity|]. cbn.
    by rewrite <- app_assoc.
  - intros r_text r_message r_cleanup rest' -> Hne -> Hrc.
    destruct (TRACE_in_bounds "wsaData.wVersion" r_text r_message
                (r_cleanup :: rest') s1 eq_refl Hrc)
      as (text & b & Hrun & _).
    cbn [Z.eqb negb].
    destruct (Z.eqb_spec wVersion 514); [done|]. cbn [negb].
    rewrite (bind_run _ _ _ _ _ Hrun).
    eexists _, text. split; [reflexivity|]. cbn.
    by rewrite <- !app_assoc.
Qed.

(** X16.  Under [_WIN32], [irda_cleanup] returns 0 when [WSACleanup]
    succeeds, and -1 when it fails, with the last-error code of that call
    still in place after the trace message.  Without [_WIN32], [irda_init]
    and [irda_cleanup] return 0 and do nothing at all. *)
Theorem irda_cleanup_outcome r rest s :
  script s = r :: rest ->
  (rc r = 0 ->
   irda_cleanup Win32 order s = Ret 0 (after s [Call_WSACleanup] (err r) rest))
  /\ (forall r_text r_message rest',
        rc r <> 0 -> rest = r_text :: r_message :: rest' ->
        0 <= rc r_text <= Z.of_nat (length (buffer s)) ->
        exists s' text,
          irda_cleanup Win32 order s = Ret (-1) s'
          /\ last_error s' = err r
          /\ script s' = rest'
          /\ log s' = log s
                      ++ [Call_WSACleanup;
                          Call_FormatMessage 4608 (err r) 256;
                          Call_message "WSACleanup" text (err r)])
  /\ irda_init Posix order s = Ret 0 s
  /\ irda_cleanup Posix order s = Ret 0 s.
Proof.
  intros Hscript.
  unfold irda_cleanup at 1 2.
  rewrite (bind_run _ _ _ _ _ (syscall_run _ _ _ _ Hscript)).
  set (s1 := after s [Call_WSACleanup] (err r) _).
  split; [|split; [|done]].
  - by intros ->.
  - intros r_text r_message rest' Hne -> Hrc.
    destruct (TRACE_in_bounds "WSACleanup" r_text r_message rest' s1
                eq_refl Hrc) as (text & b & Hrun & _).
    destruct (Z.eqb_spec (rc r) 0); [done|]. cbn [negb].
    rewrite (bind_run _ _ _ _ _ Hrun).
    eexists _, text. split; [reflexivity|]. cbn.
    by rewrite <- app_assoc.
Qed.

End Messages.

(** * Sample values *)

Example to_int_wraps : C.to_int 4294967295 = -1.
Proof. reflexivity. Qed.

Example be32_sample :
  be32 (Byte.x01, Byte.x02, Byte.x03, Byte.x04) = 16909060.
Proof. reflexivity. Qed.

Example object_repr_sample :
  object_repr LittleEndian 16909060
  = (Byte.x04, Byte.x03, Byte.x02, Byte.x01).
Proof. reflexivity. Qed.

Example decimal_sample :
  decimal 4294967295 = list_byte_of_string "4294967295".
Proof. reflexivity. Qed.

Example strncpy_sample :
  strncpy (list_byte_of_string "IrDA:IrCOMM and some more text") 25
  = list_byte_of_string "IrDA:IrCOMM and some more".
Proof. reflexivity. Qed.

Example snprintf_sample :
  snprintf 25 (LSAP_SEL 1)
  = list_byte_of_string "LSAP-SEL1" ++ repeat Byte.x00 16.
Proof. reflexivity. Qed.

(** * Runs on concrete inputs *)

(** Closes the side conditions of a concrete run. *)
Ltac concrete :=
  first [ reflexivity
        | (unfold C.is_uint, C.is_int, C.UINT_MAX, C.INT_MAX, fits_fd_set,
             FD_SETSIZE; cbn; lia)
        | (repeat (apply List.Forall_cons || apply List.Forall_nil);
           unfold blocked, failed, accepted, C.INT_MAX; cbn;
           first [lia | (split; first [lia | reflexivity | discriminate])]) ].

(** Reads with a timeout of 2500 ms: a read that fills a buffer of four
    bytes, and reads of up to ten bytes in which four bytes arrive and then
    the wait fails, the wait times out, the receive fails, or the peer
    closes. *)
Lemma irda_socket_read_outcome_witness :
  let d := {| fd := 3; timeout := 2500 |} in
  let round : reply Posix * reply Posix := (answer 1, answer 4) in
  let run size rs := irda_socket_read Posix (Some 1%positive) size
                       (sample 2500 rs) in
  valid (sample (p:=Posix) 2500 []) 1%positive d
  /\ progress [round]
  /\ run 4 [answer 1; answer 4; answer 9]
     = Ret 4 (after (sample 2500 [])
                [Call_select 4 3 (Some {| tv_sec := 2; tv_usec := 500000 |});
                 Call_recv 3 0 4] 0 [answer 9])
  /\ returns (run 10 [answer 1; answer 4; failure 4; answer 9]) (-1)
  /\ returns (run 10 [answer 1; answer 4; answer 0; answer 9]) 4
  /\ returns (run 10 [answer 1; answer 4; answer 1; failure 104; answer 9])
       (-1)
  /\ returns (run 10 [answer 1; answer 4; answer 1; answer 0; answer 9]) 4.
Proof.
  intros d round run.
  assert (Hp : progress [round]) by concrete.
  pose proof (fun size rs =>
                irda_socket_read_outcome Posix 1%positive d size [round]
                  [answer 9] (sample 2500 rs) eq_refl ltac:(concrete)) as H.
  cbv zeta in H.
  split; [reflexivity|]. split; [exact Hp|].
  split.
  { destruct (H 4 [answer 1; answer 4; answer 9]) as (Hfull & _);
      [concrete | exact Hp | concrete |].
    exact (Hfull eq_refl eq_refl). }
  split.
  { destruct (H 10 [answer 1; answer 4; failure 4; answer 9])
      as (_ & Hwait & _); [concrete | exact Hp | concrete |].
    eexists.
    exact (Hwait (failure 4) ltac:(concrete) ltac:(concrete) eq_refl). }
  split.
  { destruct (H 10 [answer 1; answer 4; answer 0; answer 9])
      as (_ & _ & Htimeout & _); [concrete | exact Hp | concrete |].
    eexists. exact (Htimeout (answer 0) ltac:(concrete) eq_refl eq_refl). }
  split.
  { destruct (H 10 [answer 1; answer 4; answer 1; failure 104; answer 9])
      as (_ & _ & _ & Hrecv & _); [concrete | exact Hp | concrete |].
    eexists.
    exact (Hrecv (answer 1) (failure 104) ltac:(concrete) ltac:(concrete)
             ltac:(concrete) eq_refl). }
  destruct (H 10 [answer 1; answer 4; answer 1; answer 0; answer 9])
    as (_ & _ & _ & _ & Heof); [concrete | exact Hp | concrete |].
  eexists.
  exact (Heof (answer 1) (answer 0) ltac:(concrete) ltac:(concrete) eq_refl
           eq_refl).
Defined.

(** C1.  A blocking read of up to 4294967295 bytes on the descriptor 3:
    2147483648 bytes arrive in two pieces and then the peer closes.  The
    read has accumulated 2147483648 bytes and returns -2147483648, where
    the claim has it return the accumulated byte count as a result that is
    no error. *)
Theorem irda_socket_read_count_wraps :
  let rounds : list (reply Posix * reply Posix) :=
    [(answer 1, answer 2147483647); (answer 1, answer 1)] in
  let s := sample (-1) (answers rounds ++ [answer 1; answer 0]) in
  progress rounds
  /\ received rounds = 2147483648
  /\ irda_socket_read Posix (Some 1%positive) 4294967295 s
     = Ret (-2147483648)
           (after s [Call_select 4 3 None; Call_recv 3 0 4294967295;
                     Call_select 4 3 None; Call_recv 3 2147483647 2147483648;
                     Call_select 4 3 None; Call_recv 3 2147483648 2147483647]
              0 [])
  /\ -2147483648 <> received rounds.
Proof.
  intros rounds s. split; [concrete|]. split; [reflexivity|].
  split; [vm_compute; reflexivity|]. vm_compute. discriminate.
Qed.

(** A write of ten bytes that the system takes in three pieces, and one
    whose third [send] fails. *)
Lemma irda_socket_write_outcome_witness :
  let d := {| fd := 3; timeout := -1 |} in
  let sends : list (reply Posix) := [answer 1; answer 4] in
  let run rs := irda_socket_write Posix (Some 1%positive) 10
                  (sample (-1) rs) in
  valid (sample (p:=Posix) (-1) []) 1%positive d
  /\ Forall accepted sends
  /\ sent sends < 10
  /\ run [answer 1; answer 4; answer 5; answer 9]
     = Ret 10 (after (sample (-1) [])
                 [Call_send 3 0 10; Call_send 3 1 9; Call_send 3 5 5]
                 0 [answer 9])
  /\ run [answer 1; answer 4; failure 104; answer 9]
     = Ret (-1) (after (sample (-1) [])
                   [Call_send 3 0 10; Call_send 3 1 9; Call_send 3 5 5;
                    Call_message "send"] 104 [answer 9]).
Proof.
  intros d sends run.
  assert (Hs : Forall accepted sends) by concrete.
  pose proof (fun r =>
                irda_socket_write_outcome Posix 1%positive d 10 sends r
                  [answer 9] (sample (-1) (sends ++ [r; answer 9]))
                  eq_refl ltac:(concrete) Hs ltac:(concrete) eq_refl) as H.
  cbv zeta in H.
  split; [reflexivity|]. split; [exact Hs|]. split; [concrete|].
  split.
  - destruct (H (answer 5)) as (Hdone & _).
    exact (Hdone ltac:(concrete) eq_refl).
  - destruct (H (failure 104)) as (_ & Hfail).
    exact (Hfail ltac:(concrete)).
Defined.

(** C2.  A write of 4294967295 bytes that the system takes in three
    pieces.  Every [send] succeeded and all bytes are sent, and the write
    returns -1, the value that reports a failure, where the claim has it
    return exactly the size. *)
Theorem irda_socket_write_count_wraps :
  let sends : list (reply Posix) :=
    [answer 2147483647; answer 2147483647; answer 1] in
  let s := sample (-1) sends in
  Forall accepted sends
  /\ sent sends = 4294967295
  /\ irda_socket_write Posix (Some 1%positive) 4294967295 s
     = Ret (status_value SocketError)
           (after s [Call_send 3 0 4294967295;
                     Call_send 3 2147483647 2147483648;
                     Call_send 3 4294967294 1] 0 [])
  /\ status_value SocketError <> 4294967295.
Proof.
  intros sends s. split; [concrete|]. split; [reflexivity|].
  split; [vm_compute; reflexivity | discriminate].
Qed.

(** Discoveries on a handle: the system answers at the fourth poll; it
    fails at the third poll; it never answers. *)
Lemma irda_socket_discover_retries_witness :
  let d := {| fd := 3; timeout := -1 |} in
  let wait : reply Posix := failure 11 in
  let poll : call Posix := Call_getsockopt_ENUMDEVICES 3 in
  let run callback rs := irda_socket_discover Posix (Some 1%positive)
                           callback (sample (-1) rs) in
  valid (sample (p:=Posix) (-1) []) 1%positive d
  /\ Forall blocked [wait; wait; wait; wait]
  /\ run false [wait; wait; wait; found_posix []; answer 9]
     = Ret 0 (after (sample (-1) [])
                [poll; Call_sleep 1; poll; Call_sleep 1; poll; Call_sleep 1;
                 poll] 0 [answer 9])
  /\ run true [wait; wait; failure 19; answer 9]
     = Ret (-1) (after (sample (-1) [])
                   [poll; Call_sleep 1; poll; Call_sleep 1; poll;
                    Call_message "getsockopt"] 19 [answer 9])
  /\ run true [wait; wait; wait; wait; wait; answer 9]
     = Ret 0 (after (sample (-1) [])
                [poll; Call_sleep 1; poll; Call_sleep 1; poll; Call_sleep 1;
                 poll; Call_sleep 1; poll] 11 [answer 9]).
Proof.
  intros d wait poll run.
  assert (Hw : Forall blocked [wait; wait; wait; wait]) by concrete.
  pose proof (fun callback waiting r =>
                irda_socket_discover_retries Posix 1%positive d callback
                  waiting r [answer 9]
                  (sample (-1) (waiting ++ [r; answer 9])) eq_refl) as H.
  cbv zeta in H.
  split; [reflexivity|]. split; [exact Hw|].
  split.
  - destruct (H false [wait; wait; wait] (found_posix []))
      as (_ & Hanswer & _); [concrete | concrete | reflexivity |].
    exact (Hanswer eq_refl).
  - split.
    + destruct (H true [wait; wait] (failure 19))
        as (_ & _ & Hfail & _); [concrete | concrete | reflexivity |].
      exact (Hfail ltac:(concrete)).
    + destruct (H true [wait; wait; wait; wait] wait)
        as (_ & _ & _ & Hgiveup); [exact Hw | concrete | reflexivity |].
      exact (proj1 (Hgiveup ltac:(concrete) eq_refl)).
Defined.

(** A discovery under [_WIN32]: the system would block three times and then
    lists two devices, which are reported in that order. *)
Lemma irda_socket_discover_reports_witness :
  let d := {| fd := 3; timeout := -1 |} in
  let wait : reply Win32 := failure 10035 in
  let poll : call Win32 := Call_getsockopt_ENUMDEVICES 3 in
  let near := sample_win32_device (Byte.x01, Byte.x02, Byte.x03, Byte.x04) in
  let far := sample_win32_device (Byte.xff, Byte.x00, Byte.x00, Byte.x01) in
  let s := sample (-1) [wait; wait; wait; found_win32 [near; far];
                        answer 9] in
  valid s 1%positive d
  /\ Forall blocked [wait; wait; wait]
  /\ well_formed (p:=Win32) {| numDevice := 2; Device := [near; far] |}
  /\ irda_socket_discover Win32 (Some 1%positive) true s
     = Ret 0 (after s
                [poll; Call_Sleep 1000; poll; Call_Sleep 1000; poll;
                 Call_Sleep 1000; poll;
                 Call_callback 16909060 sample_name 0 33284;
                 Call_callback 4278190081 sample_name 0 33284] 0 [answer 9])
  /\ discovered_record (p:=Win32) near
     = claimed_record LittleEndian (p:=Win32) near.
Proof.
  intros d wait poll near far s.
  assert (Hw : Forall blocked [wait; wait; wait]) by concrete.
  assert (Hwf : well_formed (p:=Win32)
                  {| numDevice := 2; Device := [near; far] |})
    by (split; cbn; unfold DISCOVER_MAX_DEVICES; lia).
  destruct (irda_socket_discover_reports Win32 1%positive d
              [wait; wait; wait] (found_win32 [near; far])
              {| numDevice := 2; Device := [near; far] |} [answer 9] s
              eq_refl Hw ltac:(concrete) eq_refl eq_refl eq_refl Hwf)
    as (Hrun & Hclaim & _).
  split; [reflexivity|]. split; [exact Hw|]. split; [exact Hwf|].
  split; [exact Hrun|].
  exact (Hclaim LittleEndian near (or_introl eq_refl)).
Defined.

(** A discovery on a little-endian machine that is not [_WIN32]: the system
    lists one device, whose identifier lies in the buffer as the bytes 01
    02 03 04.  The address reported is 0x04030201, not the big-endian value
    0x01020304 of these bytes. *)
Lemma irda_socket_discover_address_counterexample :
  let device := sample_posix_device 67305985 in
  let s := sample (-1) [found_posix [device]] in
  raw_id LittleEndian (p:=Posix) device
  = (Byte.x01, Byte.x02, Byte.x03, Byte.x04)
  /\ irda_socket_discover Posix (Some 1%positive) true s
     = Ret 0 (after s [Call_getsockopt_ENUMDEVICES 3;
                       Call_callback 67305985 sample_name 0 33284] 0 [])
  /\ claimed_record LittleEndian (p:=Posix) device
     = Call_callback 16909060 sample_name 0 33284
  /\ Call_callback (p:=Posix) 67305985 sample_name 0 33284
     <> claimed_record LittleEndian (p:=Posix) device.
Proof.
  intros device s.
  split; [vm_compute; reflexivity|].
  split; [vm_compute; reflexivity|].
  split; [vm_compute; reflexivity|].
  vm_compute. discriminate.
Defined.

(** Closing a handle when the release of the descriptor fails (and the
    shutdown too), and when it succeeds. *)
Lemma irda_socket_close_releases_witness :
  let d := {| fd := 3; timeout := -1 |} in
  let run rs := irda_socket_close Win32 (Some 1%positive) (sample (-1) rs) in
  valid (sample (p:=Win32) (-1) []) 1%positive d
  /\ run [failure 10057; failure 10038; answer 9]
     = Ret (-1)
           (released 1%positive
              (after (sample (-1) [])
                 [Call_shutdown 3 0; Call_close 3;
                  Call_message "closesocket"; Call_free 1%positive]
                 10038 [answer 9]))
  /\ run [failure 10057; answer 0; answer 9]
     = Ret 0
           (released 1%positive
              (after (sample (-1) [])
                 [Call_shutdown 3 0; Call_close 3; Call_free 1%positive]
                 0 [answer 9])).
Proof.
  intros d run.
  pose proof (fun r_close =>
                irda_socket_close_releases Win32 1%positive d
                  (sample (-1) [failure 10057; r_close; answer 9])
                  (failure 10057) r_close [answer 9] eq_refl eq_refl) as H.
  cbv zeta in H.
  split; [reflexivity|].
  split; [exact (proj1 (H (failure 10038))) | exact (proj1 (H (answer 0)))].
Defined.

(** Connecting to the access point 1 of the device 0x01020304 under
    [_WIN32]. *)
Lemma irda_socket_connect_lsap_peer_witness :
  let d := {| fd := 3; timeout := -1 |} in
  let s : state Win32 := sample (-1) [answer 0; answer 9] in
  let peer : sockaddr Win32 :=
    {| irdaAddressFamily := 26;
       peer_irdaDeviceID := (Byte.x01, Byte.x02, Byte.x03, Byte.x04);
       irdaServiceName :=
         list_byte_of_string "LSAP-SEL1" ++ repeat Byte.x00 16 |} in
  valid s 1%positive d
  /\ C.is_uint 16909060 /\ C.is_uint 1
  /\ irda_socket_connect_lsap Win32 (Some 1%positive) 16909060 1 s
     = Ret 0 (after s [Call_connect Win32 3 peer] 0 [answer 9])
  /\ peer_service (p:=Win32) peer = list_byte_of_string "LSAP-SEL1"
  /\ claimed_lsap_peer LittleEndian (p:=Win32) 16909060 1 peer.
Proof.
  intros d s peer.
  assert (Ha : C.is_uint 16909060) by concrete.
  assert (Hl : C.is_uint 1) by concrete.
  destruct (irda_socket_connect_lsap_peer Win32 1%positive d 16909060 1
              (answer 0) [answer 9] s eq_refl Ha Hl eq_refl)
    as (Hrun & _ & _ & Hname & Hclaim).
  split; [reflexivity|]. split; [exact Ha|]. split; [exact Hl|].
  split; [exact Hrun|]. split; [exact (proj1 Hname)|].
  exact (Hclaim LittleEndian (or_introl eq_refl)).
Defined.

(** Connecting to the access point 256 of the device 0x01020304 on a
    little-endian machine that is not [_WIN32].  The device-identifier
    bytes of the peer address are 04 03 02 01, not the big-endian split 01
    02 03 04, and its selector field holds 0, not 256. *)
Lemma irda_socket_connect_lsap_peer_counterexample :
  let s : state Posix := sample (-1) [answer 0] in
  let peer : sockaddr Posix :=
    {| sir_family := 23; sir_lsap_sel := Byte.x00; sir_addr := 16909060;
       sir_name := repeat Byte.x00 25 |} in
  irda_socket_connect_lsap Posix (Some 1%positive) 16909060 256 s
  = Ret 0 (after s [Call_connect Posix 3 peer] 0 [])
  /\ peer_id_bytes LittleEndian (p:=Posix) peer
     = (Byte.x04, Byte.x03, Byte.x02, Byte.x01)
  /\ be_split 16909060 = (Byte.x01, Byte.x02, Byte.x03, Byte.x04)
  /\ peer_selector (p:=Posix) peer = Some 0
  /\ ~ claimed_lsap_peer LittleEndian (p:=Posix) 16909060 256 peer.
Proof.
  intros s peer.
  split; [vm_compute; reflexivity|].
  split; [vm_compute; reflexivity|].
  split; [vm_compute; reflexivity|].
  split; [vm_compute; reflexivity|].
  intros [Hid _]. vm_compute in Hid. discriminate.
Defined.

(** A read and a write of no bytes. *)
Lemma zero_size_transfer_witness :
  let d := {| fd := 3; timeout := -1 |} in
  let s : state Posix := sample (-1) [answer 9] in
  valid s 1%positive d
  /\ irda_socket_write Posix (Some 1%positive) 0 s = Ret 0 s
  /\ irda_socket_read Posix (Some 1%positive) 0 s = Ret 0 s.
Proof.
  intros d s. split; [reflexivity|].
  destruct (zero_size_transfer Posix 1%positive d s eq_refl)
    as [Hwrite Hread].
  split; [exact Hwrite | exact (Hread ltac:(concrete))].
Defined.

(** C10.  A read of no bytes on a live handle whose descriptor is 1024, the
    first one an [fd_set] has no bit for: before the loop is reached the
    descriptor is put into the set, which writes outside it, where the
    claim has the read return 0 at once. *)
Theorem irda_socket_read_fd_set_overflow :
  let d := {| fd := 1024; timeout := -1 |} in
  let s : state Posix := sample_on 1024 [] in
  valid s 1%positive d
  /\ ~ fits_fd_set Posix d
  /\ irda_socket_read Posix (Some 1%positive) 0 s = Fault OutOfBounds
  /\ irda_socket_read Posix (Some 1%positive) 0 s <> Ret 0 s.
Proof.
  intros d s. split; [reflexivity|].
  split; [unfold fits_fd_set, FD_SETSIZE; cbn; lia|].
  split; [reflexivity | discriminate].
Qed.

(** Setting a timeout of -5 and of 2500 milliseconds and then reading from
    a peer that sends nothing; opening a handle. *)
Lemma timeout_stored_as_given_witness :
  let d := {| fd := 3; timeout := 0 |} in
  let s t : state Posix := sample t [answer 0; answer 9] in
  valid (s 0) 1%positive d
  /\ irda_socket_set_timeout Posix (Some 1%positive) (-5) (s 0)
     = Ret 0 (s (-5))
  /\ irda_socket_set_timeout Posix (Some 1%positive) 2500 (s 0)
     = Ret 0 (s 2500)
  /\ irda_socket_read Posix (Some 1%positive) 10 (s (-5))
     = Ret 0 (after (s (-5)) [Call_select 4 3 None] 0 [answer 9])
  /\ irda_socket_read Posix (Some 1%positive) 10 (s 2500)
     = Ret 0 (after (s 2500)
                [Call_select 4 3
                   (Some {| tv_sec := 2; tv_usec := 500000 |})] 0 [answer 9])
  /\ (exists s',
        irda_socket_open Posix (Some 7%positive)
          (sample 0 [answer 1; answer 4]) = Ret 0 s'
        /\ valid s' 2%positive {| fd := 4; timeout := -1 |}).
Proof.
  intros d s.
  pose proof (fun t t' =>
                timeout_stored_as_given Posix 1%positive
                  {| fd := 3; timeout := t |} t' (s t) eq_refl) as H.
  split; [reflexivity|].
  split; [exact (proj1 (H 0 (-5)))|].
  split; [exact (proj1 (H 0 2500))|].
  split.
  { destruct (H (-5) 0) as (_ & _ & _ & Hread & _).
    exact (Hread 10 (answer 0) [answer 9] ltac:(concrete) ltac:(concrete)
             eq_refl eq_refl). }
  split.
  { destruct (H 2500 0) as (_ & _ & _ & Hread & _).
    exact (Hread 10 (answer 0) [answer 9] ltac:(concrete) ltac:(concrete)
             eq_refl eq_refl). }
  destruct (timeout_stored_as_given Posix 1%positive d 0
              (sample 0 [answer 1; answer 4]) eq_refl)
    as (_ & _ & _ & _ & _ & Hopen).
  destruct (Hopen 7%positive (answer 1) (answer 4) [] eq_refl
              ltac:(discriminate) ltac:(discriminate))
    as (s' & Hrun & Hvalid & _).
  exists s'. split; [exact Hrun | exact Hvalid].
Defined.

(** One failure of each kind. *)
Lemma every_failure_returns_minus_one_witness :
  let d := {| fd := 3; timeout := -1 |} in
  let s rs : state Posix := sample (-1) rs in
  let handle := Some 1%positive in
  let slot := Some 7%positive in
  valid (s []) 1%positive d
  /\ returns (irda_socket_read Posix None 10 (s [])) (-1)
  /\ returns (irda_socket_open Posix slot (s [answer 0])) (-1)
  /\ returns (irda_socket_open Posix slot (s [answer 1; failure 97])) (-1)
  /\ returns (irda_socket_close Posix handle (s [answer 0; failure 9])) (-1)
  /\ returns (irda_socket_discover Posix handle true
                (s [failure 11; failure 19])) (-1)
  /\ returns (irda_socket_connect_name Posix handle 16909060 None
                (s [failure 111])) (-1)
  /\ returns (irda_socket_connect_lsap Posix handle 16909060 1
                (s [failure 111])) (-1)
  /\ returns (irda_socket_available Posix handle (s [failure 9])) (-1)
  /\ returns (irda_socket_read Posix handle 10
                (s [answer 1; answer 4; failure 9])) (-1)
  /\ returns (irda_socket_read Posix handle 10
                (s [answer 1; answer 4; answer 1; failure 104])) (-1)
  /\ returns (irda_socket_write Posix handle 10
                (s [answer 4; failure 104])) (-1).
Proof.
  intros d s handle slot.
  pose proof (fun rs =>
                every_failure_returns_minus_one Posix 1%positive d (s rs)
                  eq_refl) as H.
  split; [reflexivity|].
  split.
  { destruct (H []) as (_ & Hnull & _).
    destruct (Hnull 0 0 0 10 None false)
      as (_ & _ & _ & _ & _ & _ & _ & Hread & _).
    exact Hread. }
  split.
  { destruct (H [answer 0]) as (_ & _ & Hmem & _).
    exact (Hmem 7%positive (answer 0) [] eq_refl eq_refl). }
  split.
  { destruct (H [answer 1; failure 97]) as (_ & _ & _ & Hsock & _).
    exact (Hsock 7%positive (answer 1) (failure 97) [] eq_refl
             ltac:(discriminate) eq_refl). }
  split.
  { destruct (H [answer 0; failure 9]) as (_ & _ & _ & _ & Hclose & _).
    exact (Hclose (answer 0) (failure 9) [] eq_refl ltac:(discriminate)). }
  split.
  { destruct (H [failure 11; failure 19])
      as (_ & _ & _ & _ & _ & Hdiscover & _).
    exact (Hdiscover true [failure 11] (failure 19) [] ltac:(concrete)
             ltac:(concrete) eq_refl ltac:(concrete)). }
  destruct (H [failure 111]) as (_ & _ & _ & _ & _ & _ & Hconnect & _).
  destruct (Hconnect 16909060 None 1 (failure 111) [] eq_refl
              ltac:(discriminate)) as (Hname & Hlsap & _).
  split; [exact Hname|]. split; [exact Hlsap|].
  split.
  { destruct (H [failure 9]) as (_ & _ & _ & _ & _ & _ & Hioctl & _).
    destruct (Hioctl 0 None 0 (failure 9) [] eq_refl ltac:(discriminate))
      as (_ & _ & Havailable).
    exact Havailable. }
  split.
  { destruct (H [answer 1; answer 4; failure 9])
      as (_ & _ & _ & _ & _ & _ & _ & Hselect & _).
    exact (Hselect 10 [(answer 1, answer 4)] (failure 9) [] ltac:(concrete)
             ltac:(concrete) ltac:(concrete) eq_refl ltac:(concrete)). }
  split.
  { destruct (H [answer 1; answer 4; answer 1; failure 104])
      as (_ & _ & _ & _ & _ & _ & _ & _ & Hrecv & _).
    exact (Hrecv 10 [(answer 1, answer 4)] (answer 1) (failure 104) []
             ltac:(concrete) ltac:(concrete) ltac:(concrete) eq_refl
             ltac:(concrete) ltac:(concrete)). }
  destruct (H [answer 4; failure 104])
    as (_ & _ & _ & _ & _ & _ & _ & _ & _ & Hsend & _).
  exact (Hsend 10 [answer 4] (failure 104) [] ltac:(concrete)
           ltac:(concrete) eq_refl ltac:(concrete)).
Defined.

(** An open for which there is no memory, and one for which there is no
    socket: the heap and the handle variables are those of before. *)
Lemma irda_socket_open_failure_clean_witness :
  let s rs : state Posix := sample (-1) rs in
  (exists s',
     irda_socket_open Posix (Some 7%positive) (s [answer 0]) = Ret (-1) s'
     /\ heap s' = heap (s [answer 0]) /\ vars s' = vars (s [answer 0]))
  /\ (exists s',
        irda_socket_open Posix (Some 7%positive) (s [answer 1; failure 24])
        = Ret (-1) s'
        /\ heap s' = heap (s [answer 1; failure 24])
        /\ vars s' = vars (s [answer 1; failure 24])).
Proof.
  intros s.
  pose proof (fun r rest =>
                irda_socket_open_failure_clean Posix 7%positive r rest
                  (s (r :: rest)) eq_refl) as H.
  split.
  - destruct (H (answer 0) []) as [Hmem _].
    destruct (Hmem eq_refl) as (s' & Hrun & Hheap & Hvars & _).
    exists s'. split; [exact Hrun|]. split; [exact Hheap | exact Hvars].
  - destruct (H (answer 1) [failure 24]) as [_ Hsock].
    destruct (Hsock (failure 24) [] ltac:(discriminate) eq_refl eq_refl)
      as (s' & Hrun & Hheap & Hvars & _).
    exists s'. split; [exact Hrun|]. split; [exact Hheap | exact Hvars].
Defined.

(** A handle opened on descriptor 4 and closed again. *)
Lemma irda_socket_open_close_round_trip_witness :
  let s : state Posix :=
    sample (-1) [answer 1; answer 4; answer 0; answer 0] in
  exists l s1 s2,
    irda_socket_open Posix (Some 7%positive) s = Ret 0 s1
    /\ vars s1 !! 7%positive = Some (Some l)
    /\ irda_socket_close Posix (Some l) s1 = Ret 0 s2
    /\ heap s2 = heap s
    /\ log s2 = [Call_malloc; Call_socket 23 1 0; Call_shutdown 4 0;
                 Call_close 4; Call_free l].
Proof.
  intros s.
  destruct (irda_socket_open_close_round_trip Posix 7%positive (answer 1)
              (answer 4) (answer 0) (answer 0) [] s eq_refl
              ltac:(discriminate) ltac:(discriminate))
    as (l & s1 & s2 & Hopen & Hvar & _ & Hclose & Hheap & _ & Hlog).
  exists l, s1, s2.
  split; [exact Hopen|]. split; [exact Hvar|]. split; [exact Hclose|].
  split; [exact Hheap | exact Hlog].
Defined.

(** A connection to the service [IrDA:IrCOMM], whose name fits the field,
    and one to a service whose name has 30 characters. *)
Lemma irda_socket_connect_name_peer_witness :
  let s : state Win32 := sample (-1) [answer 0] in
  let short := list_byte_of_string "IrDA:IrCOMM" in
  let long := list_byte_of_string "IrDA:IrCOMM and some more text" in
  valid s 1%positive {| fd := 3; timeout := -1 |}
  /\ irda_socket_connect_name Win32 (Some 1%positive) 16909060 (Some short) s
     = Ret 0 (after s [Call_connect Win32 3
                         (peer_name Win32 16909060 (Some short))] 0 [])
  /\ peer_service (peer_name Win32 16909060 (Some short)) = short
  /\ service_field (peer_name Win32 16909060 (Some long))
     = list_byte_of_string "IrDA:IrCOMM and some more"
  /\ service_field (peer_name Win32 16909060 None) = repeat Byte.x00 25.
Proof.
  intros s short long.
  pose proof (fun name =>
                irda_socket_connect_name_peer Win32 1%positive
                  {| fd := 3; timeout := -1 |} 16909060 name (answer 0) []
                  s eq_refl eq_refl) as H.
  cbv zeta in H.
  split; [reflexivity|].
  split; [exact (proj1 (H (Some short)))|].
  split.
  { destruct (H (Some short)) as (_ & _ & _ & _ & Hshort & _).
    exact (Hshort ltac:(cbn; lia)). }
  split.
  { destruct (H (Some long)) as (_ & _ & _ & _ & _ & Hlong).
    exact (proj1 (Hlong ltac:(cbn; lia))). }
  destruct (H None) as (_ & _ & _ & _ & Hnull).
  exact Hnull.
Defined.

(** A query that finds twelve bytes waiting. *)
Lemma irda_socket_available_count_witness :
  let s : state Posix := sample (-1) [count_answer 12] in
  valid s 1%positive {| fd := 3; timeout := -1 |}
  /\ irda_socket_available Posix (Some 1%positive) s
     = Ret 12 (after s [Call_ioctl_FIONREAD 3] 0 []).
Proof.
  intros s. split; [reflexivity|].
  destruct (irda_socket_available_count Posix 1%positive
              {| fd := 3; timeout := -1 |} 12 (count_answer 12) [] s
              eq_refl eq_refl eq_refl eq_refl) as [Hcount _].
  exact (Hcount ltac:(concrete)).
Defined.

(** A query that fails with code 9, and a write whose second [send] fails
    with code 104. *)
Lemma failed_call_leaves_error_code_witness :
  let d := {| fd := 3; timeout := -1 |} in
  let s rs : state Posix := sample (-1) rs in
  valid (s []) 1%positive d
  /\ (exists s',
        irda_socket_available Posix (Some 1%positive) (s [failure 9])
        = Ret (-1) s'
        /\ irda_errcode Posix s' = Ret 9 s')
  /\ (exists s',
        irda_socket_write Posix (Some 1%positive) 10
          (s [answer 4; failure 104]) = Ret (-1) s'
        /\ irda_errcode Posix s' = Ret 104 s').
Proof.
  intros d s.
  pose proof (fun rs =>
                failed_call_leaves_error_code Posix 1%positive d (s rs)
                  eq_refl) as H.
  split; [reflexivity|].
  split.
  - destruct (H [failure 9]) as (_ & _ & Hioctl & _).
    exact (Hioctl (failure 9) [] eq_refl ltac:(discriminate)).
  - destruct (H [answer 4; failure 104]) as (_ & _ & _ & _ & _ & Hsend).
    exact (Hsend 10 [answer 4] (failure 104) [] ltac:(concrete)
             ltac:(concrete) eq_refl ltac:(concrete)).
Defined.

(** Under [_WIN32], a device found with the identifier bytes 01 02 03 04 is
    reported with the address 16909060, which puts those bytes into the
    peer address. *)
Lemma discovered_address_connects_back_witness :
  let id := (Byte.x01, Byte.x02, Byte.x03, Byte.x04) in
  let data : device_list Win32 :=
    {| numDevice := 1; Device := [sample_win32_device id] |} in
  invocation Win32 data 0
  = Some (Call_callback 16909060 sample_name 0 33284)
  /\ peer_irdaDeviceID (peer_name Win32 16909060 None) = id
  /\ peer_irdaDeviceID (peer_lsap Win32 16909060 1) = id.
Proof.
  intros id data.
  assert (Hcall : invocation Win32 data 0
                  = Some (Call_callback 16909060 sample_name 0 33284))
    by reflexivity.
  split; [exact Hcall|].
  exact (discovered_address_connects_back Win32 BigEndian data 0
           (sample_win32_device id) 16909060 sample_name 0 33284 None 1
           eq_refl ltac:(concrete) Hcall).
Defined.

(** A read of ten bytes that receives four, then six. *)
Lemma irda_socket_read_within_buffer_witness :
  let s : state Posix :=
    sample (-1) [answer 1; answer 4; answer 1; answer 6] in
  let calls := [Call_select 4 3 None; Call_recv 3 0 10;
                Call_select 4 3 None; Call_recv 3 4 6] in
  irda_socket_read Posix (Some 1%positive) 10 s
  = Ret 10 (after s calls 0 [])
  /\ exists calls', log (after s calls 0 []) = log s ++ calls'
                    /\ Forall (within_buffer 10) calls'.
Proof.
  intros s calls.
  assert (Hrun : irda_socket_read Posix (Some 1%positive) 10 s
                 = Ret 10 (after s calls 0 [])) by reflexivity.
  split; [exact Hrun|].
  destruct (irda_socket_read_within_buffer Posix (Some 1%positive) 10 s 10
              (after s calls 0 []) Hrun) as (calls' & Hlog & _ & Hin).
  exists calls'. split; [exact Hlog | exact (Hin (or_introl eq_refl))].
Defined.

(** A write of ten bytes of which [send] takes four, then six. *)
Lemma irda_socket_write_within_buffer_witness :
  let s : state Posix := sample (-1) [answer 4; answer 6] in
  let calls := [Call_send 3 0 10; Call_send 3 4 6] in
  irda_socket_write Posix (Some 1%positive) 10 s
  = Ret 10 (after s calls 0 [])
  /\ exists calls', log (after s calls 0 []) = log s ++ calls'
                    /\ Forall (within_buffer 10) calls'.
Proof.
  intros s calls.
  assert (Hrun : irda_socket_write Posix (Some 1%positive) 10 s
                 = Ret 10 (after s calls 0 [])) by reflexivity.
  split; [exact Hrun|].
  destruct (irda_socket_write_within_buffer Posix (Some 1%positive) 10 s 10
              (after s calls 0 []) Hrun) as (calls' & Hlog & _ & Hin).
  exists calls'. split; [exact Hlog | exact (Hin (or_introl eq_refl))].
Defined.

(** A read with a timeout of 2500 ms to which no byte comes: its one call
    is a wait of 2500000 us. *)
Lemma read_deadline_denotes_timeout_witness :
  let d := {| fd := 3; timeout := 2500 |} in
  let s : state Posix := sample 2500 [answer 0] in
  let wait := {| tv_sec := 2; tv_usec := 500000 |} in
  irda_socket_read Posix (Some 1%positive) 10 s
  = Ret 0 (after s [Call_select 4 3 (Some wait)] 0 [])
  /\ exists tv calls,
       log (after s [Call_select 4 3 (Some wait)] 0 [])
       = log s ++ Call_select 4 3 (Some tv) :: calls
       /\ tv_sec tv * 1000000 + tv_usec tv = 2500000.
Proof.
  intros d s wait.
  assert (Hrun : irda_socket_read Posix (Some 1%positive) 10 s
                 = Ret 0 (after s [Call_select 4 3 (Some wait)] 0 []))
    by reflexivity.
  split; [exact Hrun|].
  destruct (read_deadline_denotes_timeout Posix 1%positive d 10 s 0
              (after s [Call_select 4 3 (Some wait)] 0 []) eq_refl
              ltac:(cbn; lia) ltac:(lia) Hrun)
    as (tv & calls & Hlog & _ & _ & Hsum).
  exists tv, calls. split; [exact Hlog | exact Hsum].
Defined.

(** A read that fails at its second wait leaves the handle as it was. *)
Lemma operations_keep_handles_witness :
  let s : state Posix := sample (-1) [answer 1; answer 4; failure 9] in
  let s' := after s [Call_select 4 3 None; Call_recv 3 0 10;
                     Call_select 4 3 None; Call_message "select"] 9 [] in
  irda_socket_read Posix (Some 1%positive) 10 s = Ret (-1) s'
  /\ heap s' = heap s /\ vars s' = vars s.
Proof.
  intros s s'.
  assert (Hrun : irda_socket_read Posix (Some 1%positive) 10 s = Ret (-1) s')
    by reflexivity.
  split; [exact Hrun|].
  exact (proj1 (operations_keep_handles Posix (Some 1%positive) 10 false 0
                  None 0) s (-1) s' Hrun).
Defined.

(** Closes the side conditions on a concrete message. *)
Ltac concrete_text :=
  first
    [ reflexivity
    | (cbn; lia)
    | (repeat (apply List.Forall_cons; [first [discriminate | reflexivity]|]);
       apply List.Forall_nil)
    | (split; [reflexivity|]; split; [reflexivity|];
       repeat (apply List.Forall_cons; [discriminate|]);
       apply List.Forall_nil) ].

(** The text of the Winsock error 10054 as the system words it, with a
    period and a line end. *)
Lemma irda_errmsg_strips_trailing_witness :
  let kept := list_byte_of_string "Connection reset by peer" in
  let msg := kept ++ [Byte.x2e; Byte.x0d; Byte.x0a] in
  let s := Runtime.start 10054 [Runtime.text_answer msg 0] in
  exists s',
    Runtime.irda_errmsg Win32 s
    = Runtime.Ret (Some Runtime.Static_buffer) s'
    /\ Runtime.string_at s' Runtime.Static_buffer = kept
    /\ Runtime.log s' = [Runtime.Call_FormatMessage 4608 10054 256].
Proof.
  intros kept msg s.
  assert (Hkept : Runtime.stripped msg kept).
  { exists [Byte.x2e; Byte.x0d; Byte.x0a].
    split; [reflexivity|]. split; [concrete_text|].
    intros c Hc. vm_compute in Hc. injection Hc as <-. reflexivity. }
  destruct (irda_errmsg_strips_trailing msg kept (Runtime.text_answer msg 0)
              [] s eq_refl eq_refl ltac:(concrete_text) ltac:(concrete_text)
              Hkept)
    as (s' & Hrun & Htext & _ & Hlog & _).
  exists s'. split; [exact Hrun|]. split; [exact Htext | exact Hlog].
Defined.

(** A trace after a failure with code 104, in which [strerror] leaves the
    code 22 and [message] the code 25. *)
Lemma TRACE_restores_last_error_witness :
  let msg := list_byte_of_string "Connection reset by peer" in
  let s := Runtime.start 104
             [Runtime.text_answer msg 22; Runtime.plain_answer 0 25] in
  (exists s',
     Runtime.TRACE Posix Runtime.Strerror_first "recv" s = Runtime.Ret tt s'
     /\ Runtime.last_error s' = 104)
  /\ (exists s',
        Runtime.TRACE Win32 Runtime.Strerror_first "recv" s
        = Runtime.Ret tt s'
        /\ Runtime.last_error s' = 104).
Proof.
  intros msg s.
  pose proof (fun p =>
                TRACE_restores_last_error Runtime.Strerror_first p "recv"
                  (Runtime.text_answer msg 22) (Runtime.plain_answer 0 25)
                  [] s eq_refl) as H.
  split.
  - destruct (H Posix ltac:(discriminate)) as (s' & text & Hrun & Herr & _).
    exists s'. split; [exact Hrun | exact Herr].
  - destruct (H Win32 ltac:(intros _; cbn; lia))
      as (s' & text & Hrun & Herr & _).
    exists s'. split; [exact Hrun | exact Herr].
Defined.

(** The text of the error 10054, and then a trace for the error 10060. *)
Lemma TRACE_overwrites_message_witness :
  let reset := list_byte_of_string "Connection reset by peer" in
  let timed_out := list_byte_of_string "Connection timed out" in
  let line_end := [Byte.x2e; Byte.x0d; Byte.x0a] in
  let s := Runtime.start 10054
             [Runtime.text_answer (reset ++ line_end) 10060;
              Runtime.text_answer (timed_out ++ line_end) 0;
              Runtime.plain_answer 0 0] in
  exists s1 s2,
    Runtime.irda_errmsg Win32 s
    = Runtime.Ret (Some Runtime.Static_buffer) s1
    /\ Runtime.string_at s1 Runtime.Static_buffer = reset
    /\ Runtime.TRACE Win32 Runtime.Errno_first "connect" s1
       = Runtime.Ret tt s2
    /\ Runtime.string_at s2 Runtime.Static_buffer = timed_out.
Proof.
  intros reset timed_out line_end s.
  assert (Hstripped : forall kept,
            kept = reset \/ kept = timed_out ->
            Runtime.stripped (kept ++ line_end) kept).
  { intros kept Hk. exists line_end.
    split; [reflexivity|]. split; [concrete_text|].
    intros c Hc.
    destruct Hk as [-> | ->]; vm_compute in Hc; injection Hc as <-;
      reflexivity. }
  destruct (TRACE_overwrites_message Runtime.Errno_first "connect"
              (reset ++ line_end) reset (timed_out ++ line_end) timed_out
              (Runtime.text_answer (reset ++ line_end) 10060)
              (Runtime.text_answer (timed_out ++ line_end) 0)
              (Runtime.plain_answer 0 0) [] s eq_refl eq_refl
              ltac:(concrete_text) ltac:(concrete_text)
              (Hstripped reset (or_introl eq_refl))
              ltac:(concrete_text) ltac:(concrete_text)
              (Hstripped timed_out (or_intror eq_refl))
              ltac:(discriminate) ltac:(discriminate))
    as (s1 & s2 & Hrun1 & Htext1 & Hrun2 & Htext2 & _).
  exists s1, s2.
  split; [exact Hrun1|]. split; [exact Htext1|].
  split; [exact Hrun2 | exact Htext2].
Defined.

(** A trace for an error code the system has no text for. *)
Lemma TRACE_without_text_witness :
  let s := Runtime.start 12345
             [Runtime.plain_answer 0 317; Runtime.plain_answer 0 0] in
  Runtime.TRACE Win32 Runtime.Errno_first "socket" s
  = Runtime.Ret tt
      (Runtime.after (Runtime.start 12345 [])
         [Runtime.Call_FormatMessage 4608 12345 256;
          Runtime.Call_message "socket" None 12345] 12345 []).
Proof.
  intros s.
  destruct (TRACE_without_text Runtime.Errno_first "socket"
              (Runtime.plain_answer 0 317) (Runtime.plain_answer 0 0) [] s
              eq_refl eq_refl) as (b & Herrmsg & Hrun).
  injection Herrmsg as <-.
  exact Hrun.
Defined.

(** A start-up that is granted version 2.2, one that is granted version
    1.1, and one that fails with code 10091. *)
Lemma irda_init_outcome_witness :
  let trace := [Runtime.text_answer (list_byte_of_string "Not ready") 0;
                Runtime.plain_answer 0 0] in
  let s rs := Runtime.start 0 rs in
  Runtime.irda_init Win32 Runtime.Errno_first
    (s [Runtime.version_answer 514])
  = Runtime.Ret 0
      (Runtime.after (s []) [Runtime.Call_WSAStartup 514] 0 [])
  /\ (exists s',
        Runtime.irda_init Win32 Runtime.Errno_first
          (s (Runtime.version_answer 257
              :: trace ++ [Runtime.plain_answer 0 0]))
        = Runtime.Ret (-1) s'
        /\ last (Runtime.log s') = Some Runtime.Call_WSACleanup)
  /\ (exists s',
        Runtime.irda_init Win32 Runtime.Errno_first
          (s (Runtime.plain_answer 10091 10091 :: trace))
        = Runtime.Ret (-1) s'
        /\ Runtime.last_error s' = 10091).
Proof.
  intros trace s.
  pose proof (fun r rest Hv =>
                irda_init_outcome Runtime.Errno_first r rest
                  (s (r :: rest)) eq_refl Hv) as H.
  cbv zeta in H.
  split.
  - destruct (H (Runtime.version_answer 514) [] ltac:(cbn; lia))
      as (_ & Hok & _).
    exact (Hok eq_refl eq_refl).
  - split.
    + destruct (H (Runtime.version_answer 257)
                  (trace ++ [Runtime.plain_answer 0 0]) ltac:(cbn; lia))
        as (_ & _ & _ & Hversion).
      destruct (Hversion _ _ _ [] eq_refl ltac:(discriminate) eq_refl
                  ltac:(cbn; lia))
        as (s' & text & Hrun & _ & _ & Hlog).
      exists s'. split; [exact Hrun|]. rewrite Hlog. reflexivity.
    + destruct (H (Runtime.plain_answer 10091 10091) trace ltac:(cbn; lia))
        as (_ & _ & Hfail & _).
      destruct (Hfail _ _ [] ltac:(discriminate) eq_refl ltac:(cbn; lia))
        as (s' & text & Hrun & Herr & _).
      exists s'. split; [exact Hrun | exact Herr].
Defined.

(** A shut-down that succeeds, and one that fails with code 10093. *)
Lemma irda_cleanup_outcome_witness :
  let trace := [Runtime.text_answer (list_byte_of_string "Not started") 0;
                Runtime.plain_answer 0 0] in
  let s rs := Runtime.start 0 rs in
  Runtime.irda_cleanup Win32 Runtime.Errno_first
    (s [Runtime.plain_answer 0 0])
  = Runtime.Ret 0 (Runtime.after (s []) [Runtime.Call_WSACleanup] 0 [])
  /\ (exists s',
        Runtime.irda_cleanup Win32 Runtime.Errno_first
          (s (Runtime.plain_answer (-1) 10093 :: trace))
        = Runtime.Ret (-1) s'
        /\ Runtime.last_error s' = 10093).
Proof.
  intros trace s.
  pose proof (fun r rest =>
                irda_cleanup_outcome Runtime.Errno_first r rest
                  (s (r :: rest)) eq_refl) as H.
  split.
  - destruct (H (Runtime.plain_answer 0 0) []) as (Hok & _).
    exact (Hok eq_refl).
  - destruct (H (Runtime.plain_answer (-1) 10093) trace) as (_ & Hfail & _).
    destruct (Hfail _ _ [] ltac:(discriminate) eq_refl ltac:(cbn; lia))
      as (s' & text & Hrun & Herr & _).
    exists s'. split; [exact Hrun | exact Herr].
Defined.

(** A discovery to which the system reports 17 devices, of which the
    buffer holds 16. *)
Lemma irda_socket_discover_count_unchecked_witness :
  let data : device_list Posix :=
    {| len := 17; dev := repeat (sample_posix_device 16909060) 16 |} in
  let s : state Posix :=
    sample (-1) [{| rc := 0; err := 0; out := Out_devices Posix data |}] in
  irda_socket_discover Posix (Some 1%positive) true s = Fault OutOfBounds
  /\ irda_socket_discover Posix (Some 1%positive) false s
     = Ret 0 (after s [Call_getsockopt_ENUMDEVICES 3] 0 []).
Proof.
  intros data s.
  exact (irda_socket_discover_count_unchecked Posix 1%positive
           {| fd := 3; timeout := -1 |} []
           {| rc := 0; err := 0; out := Out_devices Posix data |} data [] s
           eq_refl (List.Forall_nil _) ltac:(cbn; lia) eq_refl eq_refl
           eq_refl ltac:(unfold DISCOVER_MAX_DEVICES; cbn; lia)).
Defined.
